(** * ADNI AV45 PET path resolution

    A shallow embedding of [compute_av45_pet_paths] from
    [clinica/iotools/converters/adni_to_bids/adni_modalities/adni_av45_pet.py]
    and the properties of its selection rules.

    Modelling conventions.
    - A pandas table is the list of its rows, in table order; a boolean
      mask is [filter]; [.iloc[0]] on an empty selection raises
      [IndexError]; [.shape[0]] is [length]; [.unique()] keeps the first
      occurrence of every value, in order of appearance.
    - Python strings are [string]s of 8-bit characters, the code
      points below 256; [str.lower] acts on the letters A-Z.
    - [cprint] appends a line to a log that is threaded through the run.
    - A Python exception that nothing catches ends the run:
      [Uncaught e].

    The conversion of the table, [av45_pet_paths_to_bids], and the
    pipeline engine, [clinica/pipelines/engine.py], come after, each
    over a trace of the calls made to the code outside. *)

From Stdlib Require Import List ZArith Lia Bool Ascii String DecimalString.
From Stdlib Require Import Permutation Sorted DecimalZ.
Import ListNotations.
Local Open Scope string_scope.
Local Open Scope Z_scope.

(** ** Python strings *)

Module Py.

Definition lower_char (c : ascii) : ascii :=
  let n := nat_of_ascii c in
  if (Nat.leb 65 n && Nat.leb n 90)%bool then ascii_of_nat (n + 32) else c.

(** [s.lower()] *)
Fixpoint lower (s : string) : string :=
  match s with
  | EmptyString => EmptyString
  | String c t => String (lower_char c) (lower t)
  end.

(** [s.startswith(p)] *)
Fixpoint startswith (p s : string) : bool :=
  match p, s with
  | EmptyString, _ => true
  | String _ _, EmptyString => false
  | String a p', String b s' => (Ascii.eqb a b && startswith p' s')%bool
  end.

(** [s.find(sub)]: the lowest index where [sub] occurs in [s], or [-1]. *)
Fixpoint find_from (sub s : string) (i : Z) : Z :=
  if startswith sub s then i
  else match s with
       | EmptyString => -1
       | String _ t => find_from sub t (i + 1)
       end.

Definition find (s sub : string) : Z := find_from sub s 0.

Fixpoint rev_string (s acc : string) : string :=
  match s with
  | EmptyString => acc
  | String c t => rev_string t (String c acc)
  end.

(** [s.endswith(p)] *)
Definition endswith (s p : string) : bool :=
  startswith (rev_string p EmptyString) (rev_string s EmptyString).

(** [s[1:]] *)
Definition slice_from_1 (s : string) : string :=
  match s with
  | EmptyString => EmptyString
  | String _ t => t
  end.

Fixpoint drop (n : nat) (s : string) : string :=
  match n, s with
  | O, _ => s
  | S _, EmptyString => EmptyString
  | S n', String _ t => drop n' t
  end.

(** [s[-4:]]: the last four characters, the whole string when shorter. *)
Definition slice_last_4 (s : string) : string :=
  drop (String.length s - 4) s.

(** [str(n)] for an integer. *)
Definition str (n : Z) : string := NilZero.string_of_int (Z.to_int n).

(** [int(s)] on text: surrounding white space is ignored, a sign may
    come first, and single underscores may separate digits.  Anything
    else raises [ValueError], here [None].  The white space [int]
    ignores is the tab, the line feed, the vertical tab, the form
    feed, the carriage return and the blank (9 to 13, and 32) and,
    above the ASCII characters, the next line (133) and the
    no-break space (160); the separators 28 to 31 are not ignored. *)
Definition is_space (c : ascii) : bool :=
  let n := nat_of_ascii c in
  ((Nat.leb 9 n && Nat.leb n 13) || Nat.eqb n 32
   || Nat.eqb n 133 || Nat.eqb n 160)%bool.

Definition is_digit (c : ascii) : bool :=
  let n := nat_of_ascii c in (Nat.leb 48 n && Nat.leb n 57)%bool.

Definition digit_val (c : ascii) : Z := Z.of_nat (nat_of_ascii c) - 48.

Fixpoint lstrip (s : string) : string :=
  match s with
  | String c t => if is_space c then lstrip t else s
  | EmptyString => s
  end.

Definition strip (s : string) : string :=
  rev_string (lstrip (rev_string (lstrip s) EmptyString)) EmptyString.

Fixpoint digits (acc : Z) (after_underscore : bool) (s : string) : option Z :=
  match s with
  | EmptyString => if after_underscore then None else Some acc
  | String c t =>
      if is_digit c then digits (10 * acc + digit_val c) false t
      else if (Ascii.eqb c "_" && negb after_underscore)%bool
           then digits acc true t
           else None
  end.

Definition unsigned (s : string) : option Z :=
  match s with
  | String c t => if is_digit c then digits (digit_val c) false t else None
  | EmptyString => None
  end.

Definition int (s : string) : option Z :=
  match strip s with
  | String "-" t => option_map Z.opp (unsigned t)
  | String "+" t => unsigned t
  | t => unsigned t
  end.

(** [posixpath.join(a, b)] *)
Definition path_join (a b : string) : string :=
  if startswith "/" b then b
  else if (String.eqb a "" || endswith a "/")%bool then a ++ b
       else a ++ "/" ++ b.

End Py.

(** ** Tables *)

(** A row of [AV45QC.csv], the columns the resolver reads. *)
Record QCRow : Type := mkQC {
  RID : Z;
  PASS : Z;
  VISCODE2 : string;
  LONIUID : string;
  EXAMDATE : string
}.

(** A row of [PET_META_LIST.csv]. *)
Record MetaRow : Type := mkMeta {
  Subject : string;
  Image_ID : Z;
  Series_ID : Z;
  Sequence : string;
  Orig_Proc : string;
  Scan_Date : string;
  Study_ID : Z;
  Visit : string
}.

(** A row of [pet_av45_df], columns [pet_av45_col]. *)
Record PetRow : Type := mkPet {
  pet_Subject_ID : string;
  pet_VISCODE : string;
  pet_Visit : string;
  pet_Sequence : string;
  pet_Scan_Date : string;
  pet_Study_ID : string;
  pet_Series_ID : string;
  pet_Image_ID : string;
  pet_Original : bool
}.

(** A row of the returned table: [pet_av45_col] with [Is_Dicom] and [Path]. *)
Record ImageRow : Type := mkImage {
  img_row : PetRow;
  Is_Dicom : bool;
  Path : string
}.

(** ** Control flow of the loops *)

Inductive exn : Type := IndexError | ValueError.

(** The body of a [for] loop either reaches its end with a value, or
    prints a line and [continue]s, or raises. *)
Inductive ctl (A : Type) : Type :=
| Next (a : A)
| Continue (msg : string)
| Raise (e : exn).

Arguments Next {A} a.
Arguments Continue {A} msg.
Arguments Raise {A} e.

Definition bind {A B : Type} (m : ctl A) (k : A -> ctl B) : ctl B :=
  match m with
  | Next a => k a
  | Continue msg => Continue msg
  | Raise e => Raise e
  end.

Notation "x <- m ;; k" := (bind m (fun x => k))
  (at level 61, m at next level, right associativity).

(** The outcome of a whole run. *)
Inductive run (A : Type) : Type :=
| Done (a : A)
| Uncaught (e : exn).

Arguments Done {A} a.
Arguments Uncaught {A} e.

(** [df.iloc[0]] *)
Definition iloc0 {A : Type} (df : list A) : ctl A :=
  match df with
  | x :: _ => Next x
  | [] => Raise IndexError
  end.

(** [l[i]] on a Python list *)
Definition getitem {A : Type} (l : list A) (i : nat) : ctl A :=
  match nth_error l i with
  | Some x => Next x
  | None => Raise IndexError
  end.

(** [int(s)] *)
Definition to_int (s : string) : ctl Z :=
  match Py.int s with
  | Some n => Next n
  | None => Raise ValueError
  end.

(** [series.unique()] *)
Fixpoint unique_from (seen l : list string) : list string :=
  match l with
  | [] => []
  | x :: t =>
      if existsb (String.eqb x) seen then unique_from seen t
      else x :: unique_from (x :: seen) t
  end.

Definition unique (l : list string) : list string := unique_from [] l.

(** [numpy.argsort(keys)]: the indices of [keys] in ascending order of
    key.  Indices of equal keys are kept in increasing order (numpy
    sorts short arrays by insertion); the statements below single out a
    candidate by its series identifier only, so none of them depends on
    the order of equal keys. *)
Fixpoint insert_index (keys : list Z) (i : nat) (l : list nat) : list nat :=
  match l with
  | [] => [i]
  | j :: t =>
      if nth i keys 0 <=? nth j keys 0 then i :: j :: t
      else j :: insert_index keys i t
  end.

Definition argsort (keys : list Z) : list nat :=
  fold_right (insert_index keys) [] (seq 0 (List.length keys)).

(** ** Selection *)

Definition coreg_label : string := "AV45 Co-registered, Averaged".

(** [s.lower().find('early') < 0] *)
Definition not_early (s : string) : bool := Py.find (Py.lower s) "early" <? 0.

(** [x.lower().find('av45') > -1] *)
Definition is_av45 (s : string) : bool := Py.find (Py.lower s) "av45" >? -1.

(** [subject_pet_meta[(Sequence == 'AV45 Co-registered, Averaged') & (Series ID == series)]] *)
Definition coreg_avg_of (subject_pet_meta : list MetaRow) (series : Z) : list MetaRow :=
  filter (fun m => (String.eqb (Sequence m) coreg_label && (Series_ID m =? series))%bool)
         subject_pet_meta.

(** Lines 94-95: the metadata row of a QC row,
    [subject_pet_meta[subject_pet_meta['Image ID'] == int(image.LONIUID[1:])].iloc[0]]. *)
Definition meta_of_image (subject_pet_meta : list MetaRow) (image : QCRow) : ctl MetaRow :=
  uid <- to_int (Py.slice_from_1 (LONIUID image)) ;;
  iloc0 (filter (fun m => Image_ID m =? uid) subject_pet_meta).

(** Lines 92-98: the rows of the visit whose metadata row is not an
    early-frame acquisition, with those metadata rows. *)
Fixpoint normal_rows (subject_pet_meta : list MetaRow) (pet_qc_visit : list QCRow)
  : ctl (list QCRow * list MetaRow) :=
  match pet_qc_visit with
  | [] => Next ([], [])
  | image :: rest =>
      pet_meta_image <- meta_of_image subject_pet_meta image ;;
      acc <- normal_rows subject_pet_meta rest ;;
      if not_early (Sequence pet_meta_image)
      then Next (image :: fst acc, pet_meta_image :: snd acc)
      else Next acc
  end.

(** Lines 108-115: the scan over [index[::-1]]. *)
Fixpoint scan_coreg (subject_pet_meta : list MetaRow)
    (normal_images : list QCRow) (normal_meta : list MetaRow)
    (indices : list nat) : ctl (option QCRow) :=
  match indices with
  | [] => Next None
  | i :: rest =>
      m <- getitem normal_meta i ;;
      if (0 <? List.length (coreg_avg_of subject_pet_meta (Series_ID m)))%nat
      then (q <- getitem normal_images i ;; Next (Some q))
      else scan_coreg subject_pet_meta normal_images normal_meta rest
  end.

(** Lines 105-117: more than one candidate is left. *)
Definition tie_break (subject_pet_meta : list MetaRow)
    (normal_images : list QCRow) (normal_meta : list MetaRow) : ctl QCRow :=
  let index := argsort (map Series_ID normal_meta) in
  qc_visit <- scan_coreg subject_pet_meta normal_images normal_meta (rev index) ;;
  match qc_visit with
  | Some q => Next q
  | None =>
      i <- getitem index (List.length index - 1) ;;
      getitem normal_images i
  end.

(** Lines 89-119: the QC row that stands for the visit. *)
Definition resolve_candidate (subj visit : string)
    (subject_pet_meta : list MetaRow) (pet_qc_visit : list QCRow) : ctl QCRow :=
  if (1 <? List.length pet_qc_visit)%nat then
    normal <- normal_rows subject_pet_meta pet_qc_visit ;;
    let normal_images := fst normal in
    let normal_meta := snd normal in
    match normal_images with
    | [] => Continue ("No regular AV45-PET image: Subject - " ++ subj ++ " for visit " ++ visit)
    | [q] => Next q
    | _ => tie_break subject_pet_meta normal_images normal_meta
    end
  else iloc0 pet_qc_visit.

(** Lines 120-135: the raw acquisition of the QC row. *)
Definition by_image_id (subject_pet_meta : list MetaRow) (int_image_id : Z) : list MetaRow :=
  filter (fun m => (String.eqb (Orig_Proc m) "Original" && (Image_ID m =? int_image_id)
                    && not_early (Sequence m))%bool) subject_pet_meta.

Definition by_name_and_date (subject_pet_meta : list MetaRow) (examdate : string) : list MetaRow :=
  filter (fun m => (String.eqb (Orig_Proc m) "Original"
                    && (is_av45 (Sequence m) && not_early (Sequence m))
                    && String.eqb (Scan_Date m) examdate)%bool) subject_pet_meta.

Definition match_original (subj : string) (subject_pet_meta : list MetaRow)
    (qc_visit : QCRow) : ctl MetaRow :=
  int_image_id <- to_int (Py.slice_from_1 (LONIUID qc_visit)) ;;
  match by_image_id subject_pet_meta int_image_id with
  | original_image :: _ => Next original_image
  | [] =>
      match by_name_and_date subject_pet_meta (EXAMDATE qc_visit) with
      | original_image :: _ => Next original_image
      | [] => Continue ("NO Screening: Subject - " ++ subj ++ " for visit " ++ VISCODE2 qc_visit)
      end
  end.

(** Lines 136-143: the averaged derivative when there is one. *)
Definition prefer_averaged (subject_pet_meta : list MetaRow) (original_image : MetaRow)
  : MetaRow * bool :=
  match coreg_avg_of subject_pet_meta (Series_ID original_image) with
  | [] => (original_image, true)
  | averaged :: _ => (averaged, false)
  end.

(** ** The archive *)

(** A directory: its sub-directories by name, and the names of its files. *)
#[local] Set Warnings "-register-all".
Inductive tree : Type :=
| Node (dirs : list (string * tree)) (files : list string).

Definition dirnames_of (t : tree) : list string :=
  match t with Node dirs _ => map fst dirs end.

Definition filenames_of (t : tree) : list string :=
  match t with Node _ files => files end.

(** The directories below [top], top-down, each with the path [os.walk]
    builds for it. *)
Fixpoint subtrees (top : string) (t : tree) : list (string * tree) :=
  match t with
  | Node dirs _ =>
      (top, t) ::
      (fix below (ds : list (string * tree)) : list (string * tree) :=
         match ds with
         | [] => []
         | (d, t') :: rest => (subtrees (Py.path_join top d) t' ++ below rest)%list
         end) dirs
  end.

(** A file system is given by the directories found at some paths.  The
    empty path names no directory. *)
Definition filesystem : Type := list (string * tree).

Fixpoint assoc (p : string) (l : list (string * tree)) : option tree :=
  match l with
  | [] => None
  | (q, t) :: rest => if String.eqb p q then Some t else assoc p rest
  end.

Definition lookup_dir (fs : filesystem) (p : string) : option tree :=
  if String.eqb p "" then None
  else assoc p (flat_map (fun rt => subtrees (fst rt) (snd rt)) fs).

(** [os.walk(top)]: the triples [(dirpath, dirnames, filenames)]; nothing
    when [top] is not a directory. *)
Definition walk (fs : filesystem) (top : string)
  : list (string * list string * list string) :=
  match lookup_dir fs top with
  | None => []
  | Some t =>
      map (fun pt => (fst pt, dirnames_of (snd pt), filenames_of (snd pt)))
          (subtrees top t)
  end.

(** Lines 184-188: the inner loop over [dirnames]. *)
Fixpoint find_dirname (name dirpath : string) (dirnames : list string) : option string :=
  match dirnames with
  | [] => None
  | d :: rest =>
      if String.eqb d name then Some (Py.path_join dirpath d)
      else find_dirname name dirpath rest
  end.

(** Lines 181-190: the first directory called [name] met by the walk. *)
Fixpoint find_image_dir (name : string)
    (walked : list (string * list string * list string)) : string :=
  match walked with
  | [] => ""
  | (dirpath, dirnames, _) :: rest =>
      match find_dirname name dirpath dirnames with
      | Some image_path => image_path
      | None => find_image_dir name rest
      end
  end.

(** Lines 194-198: the inner loop over [filenames]. *)
Fixpoint find_nii (dirpath : string) (filenames : list string) : option string :=
  match filenames with
  | [] => None
  | f :: rest =>
      if Py.endswith f ".nii" then Some (Py.path_join dirpath f)
      else find_nii dirpath rest
  end.

(** Lines 192-198: [(dicom, image_path)] after the second walk. *)
Fixpoint scan_nii (walked : list (string * list string * list string))
    (st : bool * string) : bool * string :=
  match walked with
  | [] => st
  | (dirpath, _, filenames) :: rest =>
      match find_nii dirpath filenames with
      | Some image_path => scan_nii rest (false, image_path)
      | None => scan_nii rest st
      end
  end.

(** Lines 176-203: one row of the second loop; the printed line, if any. *)
Definition locate (fs : filesystem) (source_dir : string) (image : PetRow)
  : ImageRow * list string :=
  let seq_path :=
    Py.path_join (Py.path_join source_dir (pet_Subject_ID image)) (pet_Sequence image) in
  let image_path := find_image_dir ("I" ++ pet_Image_ID image) (walk fs seq_path) in
  let st := scan_nii (walk fs image_path) (true, image_path) in
  (mkImage image (fst st) (snd st),
   if String.eqb (snd st) "" then ["Not found " ++ pet_Subject_ID image] else []).

Fixpoint locate_all (fs : filesystem) (source_dir : string) (images : list PetRow)
    (log : list string) : list ImageRow * list string :=
  match images with
  | [] => ([], log)
  | image :: rest =>
      let r := locate fs source_dir image in
      let out := locate_all fs source_dir rest (log ++ snd r)%list in
      (fst r :: fst out, snd out)
  end.

(** ** Exceptions *)

Definition conversion_errors : list (string * string) :=
  [("128_S_2220", "m48")].

(** [reduce(operator.or_, error_indices, False)], row by row. *)
Definition is_conversion_error (r : PetRow) : bool :=
  fold_left orb
    (map (fun conv_error =>
            (String.eqb (pet_Subject_ID r) (fst conv_error)
             && String.eqb (pet_VISCODE r) (snd conv_error))%bool)
         conversion_errors)
    false.

(** ** The run *)

Section Converter.

(** [adni_utils.replace_sequence_chars] is not part of the sources at
    hand; it is a parameter of the development. *)
Variable replace_sequence_chars : string -> string.

(** Lines 88-155: the body of the loop over visits. *)
Definition resolve_visit (subj : string) (subject_pet_meta : list MetaRow)
    (pet_qc_subj : list QCRow) (visit : string) : ctl PetRow :=
  let pet_qc_visit := filter (fun q => String.eqb (VISCODE2 q) visit) pet_qc_subj in
  qc_visit <- resolve_candidate subj visit subject_pet_meta pet_qc_visit ;;
  original_image <- match_original subj subject_pet_meta qc_visit ;;
  let sel := prefer_averaged subject_pet_meta original_image in
  let sel_image := fst sel in
  Next (mkPet subj (VISCODE2 qc_visit) (Visit sel_image)
              (replace_sequence_chars (Sequence sel_image))
              (Scan_Date sel_image)
              (Py.str (Study_ID sel_image)) (Py.str (Series_ID sel_image))
              (Py.str (Image_ID sel_image)) (snd sel)).

(** The state of the loops: [pet_av45_df] and the lines printed so far. *)
Definition state : Type := (list PetRow * list string)%type.

Fixpoint visits_loop (subj : string) (subject_pet_meta : list MetaRow)
    (pet_qc_subj : list QCRow) (visits : list string) (st : state) : run state :=
  match visits with
  | [] => Done st
  | visit :: rest =>
      match resolve_visit subj subject_pet_meta pet_qc_subj visit with
      | Next row_to_append =>
          visits_loop subj subject_pet_meta pet_qc_subj rest
                      ((fst st ++ [row_to_append])%list, snd st)
      | Continue msg =>
          visits_loop subj subject_pet_meta pet_qc_subj rest (fst st, (snd st ++ [msg])%list)
      | Raise e => Uncaught e
      end
  end.

(** Lines 79-155: the loop over subjects. *)
Fixpoint subjects_loop (petqc : list QCRow) (pet_meta_list : list MetaRow)
    (subjs_list : list string) (st : state) : run state :=
  match subjs_list with
  | [] => Done st
  | subj :: rest =>
      match Py.int (Py.slice_last_4 subj) with
      | None => Uncaught ValueError
      | Some rid =>
          let pet_qc_subj :=
            filter (fun q => ((PASS q =? 1) && (RID q =? rid))%bool) petqc in
          let subject_pet_meta :=
            filter (fun m => String.eqb (Subject m) subj) pet_meta_list in
          if (List.length subject_pet_meta <? 1)%nat
          then subjects_loop petqc pet_meta_list rest
                 (fst st, (snd st ++ [("NO Screening: Subject - " ++ subj)%string])%list)
          else
            match visits_loop subj subject_pet_meta pet_qc_subj
                    (unique (map VISCODE2 pet_qc_subj)) st with
            | Done st' => subjects_loop petqc pet_meta_list rest st'
            | Uncaught e => Uncaught e
            end
      end
  end.

(** [compute_av45_pet_paths]: the returned table and the lines printed.
    The two tables stand for the CSV files read from [csv_dir]. *)
Definition compute_av45_pet_paths (fs : filesystem) (source_dir : string)
    (petqc : list QCRow) (pet_meta_list : list MetaRow) (subjs_list : list string)
  : run (list ImageRow * list string) :=
  match subjects_loop petqc pet_meta_list subjs_list ([], []) with
  | Uncaught e => Uncaught e
  | Done st =>
      let images := filter (fun r => negb (is_conversion_error r)) (fst st) in
      Done (locate_all fs source_dir images (snd st))
  end.

End Converter.

(** ** Vocabulary of the statements *)

(** [sub] occurs in [s]. *)
Definition contains (s sub : string) : Prop :=
  exists a b, s = a ++ sub ++ b.

(** The key of a row of the returned table. *)
Definition key_of (r : PetRow) : string * string :=
  (pet_Subject_ID r, pet_VISCODE r).

(** The path below which the archive is searched for a row (line 177). *)
Definition seq_path_of (source_dir : string) (image : PetRow) : string :=
  Py.path_join (Py.path_join source_dir (pet_Subject_ID image)) (pet_Sequence image).

(** A metadata row has an averaged derivative among [subject_pet_meta]. *)
Definition has_coreg_avg (subject_pet_meta : list MetaRow) (m : MetaRow) : Prop :=
  exists d, In d subject_pet_meta /\ Sequence d = coreg_label /\ Series_ID d = Series_ID m.

(** Modelled from the spec: [adni_utils.replace_sequence_chars], which is
    not among the sources; "a sanitizer that maps characters unsafe for
    filesystem/path use to safe equivalents".  [unsafe] tells the unsafe
    characters and [safe] is what replaces them. *)
Fixpoint sanitize_with (unsafe : ascii -> bool) (safe : ascii) (s : string) : string :=
  match s with
  | EmptyString => EmptyString
  | String c t =>
      String (if unsafe c then safe else c) (sanitize_with unsafe safe t)
  end.

(** One such sanitizer: blanks and [/;*()<>:] become underscores. *)
Definition unsafe_char (c : ascii) : bool :=
  existsb (Ascii.eqb c) (list_ascii_of_string " /;*()<>:").

Definition underscore_unsafe : string -> string := sanitize_with unsafe_char "_".

(** The characters of a string. *)
Fixpoint chars (s : string) : list ascii :=
  match s with
  | EmptyString => []
  | String c t => c :: chars t
  end.

(** Index [i] comes no later than index [j] in the order of [keys]. *)
Definition key_le (keys : list Z) (i j : nat) : Prop :=
  nth i keys 0 <= nth j keys 0.

(** [m] is the first element of [l] that satisfies [P]. *)
Definition first_such {A : Type} (P : A -> Prop) (l : list A) (m : A) : Prop :=
  exists l1 l2, l = (l1 ++ m :: l2)%list /\ P m /\ Forall (fun x => ~ P x) l1.

(** An 'Original' row of the given image identifier that is not an
    early-frame acquisition. *)
Definition raw_by_image_id (uid : Z) (m : MetaRow) : Prop :=
  Orig_Proc m = "Original" /\ Image_ID m = uid /\
  ~ contains (Py.lower (Sequence m)) "early".

(** An 'Original' row named after the tracer, not an early-frame
    acquisition, scanned on the given date. *)
Definition raw_by_name_and_date (examdate : string) (m : MetaRow) : Prop :=
  Orig_Proc m = "Original" /\ contains (Py.lower (Sequence m)) "av45" /\
  ~ contains (Py.lower (Sequence m)) "early" /\ Scan_Date m = examdate.

(** [d] is an averaged derivative of the series of [original_image]. *)
Definition averaged_of (original_image d : MetaRow) : Prop :=
  Sequence d = coreg_label /\ Series_ID d = Series_ID original_image.

(** Where a row of the assembled table comes from: a subject of the
    list and a visit for which the body of the loop reached its end. *)
Definition row_origin (san : string -> string)
    (petqc : list QCRow) (pet_meta_list : list MetaRow)
    (subjs_list : list string) (r : PetRow) : Prop :=
  exists subj visit rid,
    In subj subjs_list /\ Py.int (Py.slice_last_4 subj) = Some rid /\
    resolve_visit san subj
      (filter (fun m => String.eqb (Subject m) subj) pet_meta_list)
      (filter (fun q => ((PASS q =? 1) && (RID q =? rid))%bool) petqc)
      visit = Next r.

(** ** Sample tables *)

Definition sample_subject : string := "011_S_0021".

Definition sample_meta (image_id series_id : Z) (sequence orig_proc : string) : MetaRow :=
  mkMeta sample_subject image_id series_id sequence orig_proc "2012-03-01" 4 "ADNI2 Month 24".

Definition sample_qc (loniuid : string) : QCRow :=
  mkQC 21 1 "m24" loniuid "2012-03-01".

(** Two passed rows of one visit, series 5 and 7, no derivative. *)
Definition meta_5_7 : list MetaRow :=
  [sample_meta 100 5 "AV45" "Original"; sample_meta 200 7 "AV45" "Original"].

Definition qc_5_7 : list QCRow := [sample_qc "I100"; sample_qc "I200"].

(** Three passed rows of one visit, series 10, 20 and 30; series 20 alone
    has an averaged derivative. *)
Definition meta_10_20_30 : list MetaRow :=
  [sample_meta 1 10 "AV45" "Original"; sample_meta 2 20 "AV45" "Original";
   sample_meta 3 30 "AV45" "Original"; sample_meta 4 20 coreg_label "Processed"].

Definition qc_10_20_30 : list QCRow :=
  [sample_qc "I1"; sample_qc "I2"; sample_qc "I3"].

(** A subject and visit of the exception list, with rows that resolve. *)
Definition denied_meta : list MetaRow :=
  [mkMeta "128_S_2220" 500 50 "AV45" "Original" "2014-05-06" 9 "ADNI2 Year 4 Visit"].

Definition denied_qc : list QCRow := [mkQC 2220 1 "m48" "I500" "2014-05-06"].

(** An archive: the averaged image 4 of the sample subject as a single
    file, and a raw series whose image directory is [I999]. *)
Definition sample_fs : filesystem :=
  [("/adni",
    Node [("011_S_0021",
           Node [("AV45",
                  Node [("2012-03-01_10_00_00.0",
                         Node [("I999", Node [] ["1.dcm"; "2.dcm"])] [])] []);
                 ("AV45_Co-registered,_Averaged",
                  Node [("2012-03-01_10_00_00.0",
                         Node [("I4", Node [] ["ADNI_011_S_0021.xml"; "ADNI_011_S_0021.nii"])]
                              [])] [])] [])] [])].

(** The sample subject and the subject of the exception list together. *)
Definition both_qc : list QCRow := (qc_10_20_30 ++ denied_qc)%list.
Definition both_meta : list MetaRow := (meta_10_20_30 ++ denied_meta)%list.
Definition both_subjects : list string := [sample_subject; "128_S_2220"].

(** The rows these tables resolve to. *)
Definition sample_row : PetRow :=
  mkPet sample_subject "m24" "ADNI2 Month 24" "AV45_Co-registered,_Averaged"
        "2012-03-01" "4" "20" "4" false.

Definition sample_image : ImageRow :=
  mkImage sample_row false
    "/adni/011_S_0021/AV45_Co-registered,_Averaged/2012-03-01_10_00_00.0/I4/ADNI_011_S_0021.nii".

Definition denied_row : PetRow :=
  mkPet "128_S_2220" "m48" "ADNI2 Year 4 Visit" "AV45" "2014-05-06" "9" "50" "500" true.

Definition unresolved_row : PetRow :=
  mkPet sample_subject "m24" "ADNI2 Month 24" "AV45" "2012-03-01" "4" "7" "200" true.

(** A raw acquisition that bears the name of the averaged images, and
    the row appended for its visit. *)
Definition raw_named_averaged : MetaRow := sample_meta 100 5 coreg_label "Original".

Definition row_of_raw_named_averaged : PetRow :=
  mkPet sample_subject "m24" "ADNI2 Month 24" "AV45_Co-registered,_Averaged"
        "2012-03-01" "4" "5" "100" false.

(** A visit of three passed rows, of which the second has no metadata row. *)
Definition qc_unmatched : list QCRow :=
  [sample_qc "I1"; sample_qc "I9"; sample_qc "I3"].

(** ** The loops as a builder *)

(** [petqc[(petqc.PASS == 1) & (petqc.RID == rid)]] (line 80) *)
Definition qc_of_subject (petqc : list QCRow) (rid : Z) : list QCRow :=
  filter (fun q => ((PASS q =? 1) && (RID q =? rid))%bool) petqc.

(** [pet_meta_list[pet_meta_list['Subject'] == subj]] (line 81) *)
Definition meta_of_subject (pet_meta_list : list MetaRow) (subj : string) : list MetaRow :=
  filter (fun m => String.eqb (Subject m) subj) pet_meta_list.

(** The row a visit appends, if any, and the line it prints, if any. *)
Definition rows_of_visit (san : string -> string) (subj : string)
    (meta : list MetaRow) (qcs : list QCRow) (visit : string) : list PetRow :=
  match resolve_visit san subj meta qcs visit with
  | Next row => [row]
  | _ => []
  end.

Definition lines_of_visit (san : string -> string) (subj : string)
    (meta : list MetaRow) (qcs : list QCRow) (visit : string) : list string :=
  match resolve_visit san subj meta qcs visit with
  | Continue msg => [msg]
  | _ => []
  end.

(** The body of the loop over visits does not raise on [visit]. *)
Definition visit_passes (san : string -> string) (subj : string)
    (meta : list MetaRow) (qcs : list QCRow) (visit : string) : Prop :=
  forall e, resolve_visit san subj meta qcs visit <> Raise e.

(** The rows and the lines of a subject. *)
Definition rows_of_subject (san : string -> string)
    (petqc : list QCRow) (pet_meta_list : list MetaRow) (subj : string) : list PetRow :=
  match Py.int (Py.slice_last_4 subj) with
  | None => []
  | Some rid =>
      let qcs := qc_of_subject petqc rid in
      let meta := meta_of_subject pet_meta_list subj in
      match meta with
      | [] => []
      | _ => flat_map (rows_of_visit san subj meta qcs) (unique (map VISCODE2 qcs))
      end
  end.

Definition lines_of_subject (san : string -> string)
    (petqc : list QCRow) (pet_meta_list : list MetaRow) (subj : string) : list string :=
  match Py.int (Py.slice_last_4 subj) with
  | None => []
  | Some rid =>
      let qcs := qc_of_subject petqc rid in
      let meta := meta_of_subject pet_meta_list subj in
      match meta with
      | [] => [("NO Screening: Subject - " ++ subj)%string]
      | _ => flat_map (lines_of_visit san subj meta qcs) (unique (map VISCODE2 qcs))
      end
  end.

(** The body of the loop over subjects does not raise on [subj]. *)
Definition subject_passes (san : string -> string)
    (petqc : list QCRow) (pet_meta_list : list MetaRow) (subj : string) : Prop :=
  exists rid,
    Py.int (Py.slice_last_4 subj) = Some rid /\
    (meta_of_subject pet_meta_list subj = [] \/
     Forall (visit_passes san subj (meta_of_subject pet_meta_list subj)
                          (qc_of_subject petqc rid))
            (unique (map VISCODE2 (qc_of_subject petqc rid)))).

(** The visits the loop goes through for a subject: none when the
    subject has no metadata row. *)
Definition visits_of_subject (petqc : list QCRow) (pet_meta_list : list MetaRow)
    (subj : string) : list string :=
  match Py.int (Py.slice_last_4 subj) with
  | None => []
  | Some rid =>
      match meta_of_subject pet_meta_list subj with
      | [] => []
      | _ => unique (map VISCODE2 (qc_of_subject petqc rid))
      end
  end.

(** The subjects of the list without any metadata row. *)
Definition unscreened (pet_meta_list : list MetaRow) (subjs_list : list string)
  : list string :=
  filter (fun subj => match meta_of_subject pet_meta_list subj with
                      | [] => true
                      | _ => false
                      end) subjs_list.

(** The rows of the assembled table that are not on the exception list. *)
Definition kept (df : list PetRow) : list PetRow :=
  filter (fun r => negb (is_conversion_error r)) df.

(** Two passed rows of one visit whose metadata rows are both
    early-frame acquisitions. *)
Definition meta_early : list MetaRow :=
  [sample_meta 100 5 "AV45 Early" "Original"; sample_meta 200 7 "AV45 EARLY frames" "Original"].

(** A list of subjects whose second name does not end in a number. *)
Definition malformed_subjects : list string := [sample_subject; "phantom"].

(** ** Conversion to BIDS

    [av45_pet_paths_to_bids] works through calls to code outside the
    file: [adni_utils], [glob], [os].  A call is recorded in a trace;
    what it answers is given by an environment that may look at all the
    calls made before, so that an answer can depend on what earlier
    calls did to the disk.  The table is the one
    [compute_av45_pet_paths] returns, as in [convert_adni_av45_pet]:
    every [Path] is a string, for which [image.Path is nan] is false. *)

Inductive call : Type :=
| Cprint (msg : string)
| ViscodeToSession (viscode : string)
| CheckTwoDcmFolder (image_path bids_dir image_id : string)
| Glob (pattern : string)
| Remove (path : string)
| Makedirs (path : string)
| Isdir (path : string)
| CenterNiftiOrigin (input_image output_image : string)
| System (command : string)
| Isfile (path : string)
| RemoveTmpDmcFolder (bids_dir : string).

(** What a call outside may raise: [OSError], or anything else. *)
Inductive extern_exn : Type :=
| OSError
| OtherError (name : string).

Record environment : Type := mkEnv {
  viscode_to_session : list call -> string -> string + extern_exn;
  check_two_dcm_folder : list call -> string -> string -> string -> string + extern_exn;
  glob : list call -> string -> list string;
  remove : list call -> string -> unit + extern_exn;
  makedirs : list call -> string -> unit + extern_exn;
  isdir : list call -> string -> bool;
  center_nifti_origin : list call -> string -> string -> unit + extern_exn;
  isfile : list call -> string -> bool;
  remove_tmp_dmc_folder : list call -> string -> unit + extern_exn
}.

(** A computation: from the calls made so far to the calls made after
    it, with its value or the exception it raises. *)
Definition io (A : Type) : Type := list call -> list call * (A + extern_exn).

Definition io_ret {A : Type} (a : A) : io A := fun h => (h, inl a).

Definition io_bind {A B : Type} (m : io A) (k : A -> io B) : io B :=
  fun h =>
    match m h with
    | (h', inl a) => k a h'
    | (h', inr e) => (h', inr e)
    end.

(** A call outside: it is recorded, then answered from what came before. *)
Definition extern {A : Type} (c : call) (answer : list call -> A + extern_exn) : io A :=
  fun h => ((h ++ [c])%list, answer h).

Definition extern_total {A : Type} (c : call) (answer : list call -> A) : io A :=
  fun h => ((h ++ [c])%list, inl (answer h)).

Notation "x <-- m ;;; k" := (io_bind m (fun x => k))
  (at level 61, m at next level, right associativity).
Notation "m ;;; k" := (io_bind m (fun _ => k))
  (at level 61, right associativity).

(** [s.replace(c, '')] for a single character [c] *)
Fixpoint remove_char (c : ascii) (s : string) : string :=
  match s with
  | EmptyString => EmptyString
  | String x t => if Ascii.eqb x c then remove_char c t else String x (remove_char c t)
  end.

Section ToBids.

Variable E : environment.

Definition cprint (msg : string) : io unit := extern_total (Cprint msg) (fun _ => tt).

(** Lines 267-268: [for av45 in existing_av45: os.remove(av45)] *)
Fixpoint remove_all (paths : list string) : io unit :=
  match paths with
  | [] => io_ret tt
  | av45 :: rest => extern (Remove av45) (fun h => remove E h av45) ;;; remove_all rest
  end.

(** Lines 271-275: [os.makedirs], an [OSError] being let go when the
    directory is there. *)
Definition makedirs_exist_ok (output_path : string) : io unit :=
  fun h =>
    let h1 := (h ++ [Makedirs output_path])%list in
    match makedirs E h output_path with
    | inl _ => (h1, inl tt)
    | inr OSError =>
        let h2 := (h1 ++ [Isdir output_path])%list in
        if isdir E h1 output_path then (h2, inl tt) else (h2, inr OSError)
    | inr e => (h1, inr e)
    end.

(** Lines 236-298: the body of the loop, for the row numbered [count]. *)
Definition convert_row (bids_dir dcm2niix dcm2nii : string) (mod_to_update : bool)
    (total count : Z) (image : ImageRow) : io unit :=
  let subject := pet_Subject_ID (img_row image) in
  let VISCODE := pet_VISCODE (img_row image) in
  cprint ("Processing subject " ++ subject ++ " - session " ++ VISCODE ++ ", "
          ++ Py.str count ++ " / " ++ Py.str total) ;;;
  session <-- extern (ViscodeToSession VISCODE) (fun h => viscode_to_session E h VISCODE) ;;;
  let image_id := pet_Image_ID (img_row image) in
  image_path <--
    (if Is_Dicom image
     then extern (CheckTwoDcmFolder (Path image) bids_dir image_id)
                 (fun h => check_two_dcm_folder E h (Path image) bids_dir image_id)
     else io_ret (Path image)) ;;;
  let bids_subj := remove_char "_" subject in
  let output_path :=
    Py.path_join bids_dir ("sub-ADNI" ++ bids_subj ++ "/ses-" ++ session ++ "/pet") in
  let output_filename :=
    "sub-ADNI" ++ bids_subj ++ "_ses-" ++ session ++ "_task-rest_acq-av45_pet" in
  existing_av45 <--
    extern_total (Glob (Py.path_join output_path (output_filename ++ "*")))
                 (fun h => glob E h (Py.path_join output_path (output_filename ++ "*"))) ;;;
  (if (mod_to_update && (0 <? List.length existing_av45)%nat)%bool
   then cprint "Removing the old AV45 image..." ;;; remove_all existing_av45
   else io_ret tt) ;;;
  makedirs_exist_ok output_path ;;;
  if negb (Is_Dicom image) then
    extern (CenterNiftiOrigin image_path
              (Py.path_join output_path (output_filename ++ ".nii.gz")))
           (fun h => center_nifti_origin E h image_path
                       (Py.path_join output_path (output_filename ++ ".nii.gz")))
  else
    extern_total
      (System (dcm2niix ++ " -b n -z n -o " ++ output_path ++ " -f " ++ output_filename
               ++ " " ++ image_path)) (fun _ => tt) ;;;
    let nifti_file := Py.path_join output_path (output_filename ++ ".nii") in
    let output_image := nifti_file ++ ".gz" in
    converted <-- extern_total (Isfile nifti_file) (fun h => isfile E h nifti_file) ;;;
    if converted then
      extern (CenterNiftiOrigin nifti_file output_image)
             (fun h => center_nifti_origin E h nifti_file output_image) ;;;
      extern (Remove nifti_file) (fun h => remove E h nifti_file)
    else
      cprint "Conversion with dcm2niix failed, trying with dcm2nii" ;;;
      extern_total
        (System (dcm2nii ++ " -a n -d n -e n -i y -g n -p n -m n -r n -x n -o "
                 ++ output_path ++ " " ++ image_path)) (fun _ => tt) ;;;
      let nifti_file := Py.path_join output_path (remove_char "_" subject ++ ".nii") in
      let output_image := Py.path_join output_path (output_filename ++ ".nii.gz") in
      converted <-- extern_total (Isfile nifti_file) (fun h => isfile E h nifti_file) ;;;
      if converted then
        extern (CenterNiftiOrigin nifti_file output_image)
               (fun h => center_nifti_origin E h nifti_file output_image) ;;;
        extern (Remove nifti_file) (fun h => remove E h nifti_file)
      else
        cprint ("DICOM to NIFTI conversion error for " ++ image_path).

(** Lines 232-298: the loop, [count] being the number of rows gone through. *)
Fixpoint convert_rows (bids_dir dcm2niix dcm2nii : string) (mod_to_update : bool)
    (total count : Z) (images : list ImageRow) : io unit :=
  match images with
  | [] => io_ret tt
  | image :: rest =>
      convert_row bids_dir dcm2niix dcm2nii mod_to_update total (count + 1) image ;;;
      convert_rows bids_dir dcm2niix dcm2nii mod_to_update total (count + 1) rest
  end.

(** [av45_pet_paths_to_bids] *)
Definition av45_pet_paths_to_bids (images : list ImageRow)
    (bids_dir dcm2niix dcm2nii : string) (mod_to_update : bool) : io unit :=
  convert_rows bids_dir dcm2niix dcm2nii mod_to_update
               (Z.of_nat (List.length images)) 0 images ;;;
  extern (RemoveTmpDmcFolder bids_dir) (fun h => remove_tmp_dmc_folder E h bids_dir).

End ToBids.

(** Vocabulary of the statements on traces. *)
Definition is_system (c : call) : bool :=
  match c with System _ => true | _ => false end.

Definition is_viscode (c : call) : bool :=
  match c with ViscodeToSession _ => true | _ => false end.

Definition is_cleanup (c : call) : bool :=
  match c with RemoveTmpDmcFolder _ => true | _ => false end.

(** A computation adds calls to the trace, and never takes one away:
    [Q] holds of the calls added and of the outcome. *)
Definition adds {A : Type} (Q : list call -> A + extern_exn -> Prop) (m : io A) : Prop :=
  forall h, exists new, fst (m h) = (h ++ new)%list /\ Q new (snd (m h)).

(** The calls a computation adds all satisfy [P]. *)
Definition emits {A : Type} (P : call -> Prop) (m : io A) : Prop :=
  adds (fun new _ => Forall P new) m.

(** The number of converter commands among some calls. *)
Definition commands (l : list call) : nat := List.length (filter is_system l).

(** A removed file is an intermediate '.nii' file. *)
Definition removes_nii_only (c : call) : Prop :=
  match c with
  | Remove path => Py.endswith path ".nii" = true
  | _ => True
  end.

(** An environment in which every call returns, no output file exists
    beforehand, and [dcm2niix] leaves its output file. *)
Definition quiet_env : environment :=
  mkEnv (fun _ viscode => inl (if String.eqb viscode "bl" then "M00" else viscode))
        (fun _ image_path _ _ => inl image_path)
        (fun _ _ => [])
        (fun _ _ => inl tt)
        (fun _ _ => inl tt)
        (fun _ _ => true)
        (fun _ _ _ => inl tt)
        (fun _ _ => true)
        (fun _ _ => inl tt).

(** A computation adds at most [n] converter commands. *)
Definition bounded {A : Type} (n : nat) (m : io A) : Prop :=
  adds (fun new _ => (commands new <= n)%nat) m.

(** The calls by which a row is handed to the conversion: its visit
    code is turned into a session and, for a row marked as DICOM, its
    path is given to [check_two_dcm_folder]. *)
Definition is_handing (c : call) : bool :=
  match c with
  | ViscodeToSession _ => true
  | CheckTwoDcmFolder _ _ _ => true
  | _ => false
  end.

Definition handed (bids_dir : string) (image : ImageRow) : list call :=
  ViscodeToSession (pet_VISCODE (img_row image))
  :: (if Is_Dicom image
      then [CheckTwoDcmFolder (Path image) bids_dir (pet_Image_ID (img_row image))]
      else []).

(** * The pipeline engine

    [clinica/pipelines/engine.py]: [get_subject_session_list], the
    decorator [postset] and the methods of [Pipeline] that the file
    itself defines.  The methods left to the subclasses, NiPype's
    [Workflow] and the modules the file imports are outside: a call to
    them is recorded in a trace and answered by a world, from
    the calls made before, and a method outside may change the object
    as it likes.  [init_nodes] and [check_size] are made of calls to
    NiPype and to the disk, and of floating-point arithmetic: they are
    taken as outside too, [check_size] as a method that reads the
    object and assigns none of its attributes.

    Typing.  The paths, names and the entries of [info.json] are
    strings, as the file writes them; the cells of a table and the
    values of [parameters] are values the engine does not look into;
    [info] is a dict of which the engine reads whether it is empty and
    the list under ['dependencies'], every entry of which has a
    ['type'] and a ['name']. *)

Module Engine.

(** What is raised: [Exception], [IOError] and the [KeyError] of a dict
    by the file itself, anything by the code outside. *)
Inductive exception : Type :=
| Exception (msg : string)
| IOError (msg : string)
| KeyError (key : string)
| AttributeError (name : string)
| Outside (name : string).

Inductive outside_call : Type :=
| Mkdtemp
| Strftime (format : string)
| CreateSubsSessList (input_dir output_dir file_name : string)
                     (is_bids_dir use_session_tsv : bool)
| ReadCsv (path sep : string)
| IsDir (path : string)
| InitNodes
| LoadJson (path : string)
| CheckSoftware (name : string)
| IsBinaryPresent (name : string)
| CheckCustomDependencies
| BuildInputNode
| BuildCoreNodes
| BuildOutputNode
| CheckSize
| WorkflowRun.

(** A computation on a state: the state it leaves, with its value or
    the exception it raises. *)
Definition comp (S A : Type) : Type := S -> S * (A + exception).

Definition ret {S A : Type} (a : A) : comp S A := fun s => (s, inl a).

Definition raise {S A : Type} (e : exception) : comp S A := fun s => (s, inr e).

Definition and_then {S A B : Type} (m : comp S A) (k : A -> comp S B) : comp S B :=
  fun s =>
    match m s with
    | (s', inl a) => k a s'
    | (s', inr e) => (s', inr e)
    end.

#[local] Notation "x <~ m ;; k" := (and_then m (fun x => k))
  (at level 61, m at next level, right associativity).
#[local] Notation "m ;;> k" := (and_then m (fun _ => k))
  (at level 61, right associativity).

(** An entry of the list under ['dependencies'] *)
Record dependency : Type := mkDep {
  dep_type : string;
  dep_name : string
}.

(** The dict [info]: the list under ['dependencies'], if the key is
    there, and the other keys. *)
Record info : Type := mkInfo {
  dependencies : option (list dependency);
  other_keys : list string
}.

(** [not info] *)
Definition info_is_empty (i : info) : bool :=
  match dependencies i, other_keys i with
  | None, [] => true
  | _, _ => false
  end.

(** The separator of a TSV file *)
Definition tab : string := String (ascii_of_nat 9) EmptyString.

(** The keys of [check_software], lines 299-307. *)
Definition check_software_keys : list string :=
  ["ants"; "spm"; "freesurfer"; "fsl"; "mrtrix"; "matlab"].

Section Pipeline.

(** The cells of a table and the values of [parameters]; the nodes of
    NiPype; what else the object holds: its graph and the attributes of
    the subclass. *)
Variables value node workflow : Type.

(** A table: its columns by name, in the order of the file. *)
Definition frame : Type := list (string * list value).

(** [name in list(df.columns.values)] *)
Definition has_column (name : string) (df : frame) : bool :=
  existsb (String.eqb name) (map fst df).

(** [df.<name>] *)
Fixpoint column (name : string) (df : frame) : option (list value) :=
  match df with
  | [] => None
  | (c, cells) :: rest => if String.eqb c name then Some cells else column name rest
  end.

Record Pipeline : Type := mkPipeline {
  _is_built : bool;
  _bids_directory : option string;
  _caps_directory : option string;
  _verbosity : string;
  _tsv_file : option string;
  _info_file : string;
  _info : info;
  _name : string;
  _parameters : list (string * value);
  _sessions : list value;
  _subjects : list value;
  others : workflow
}.

(** [self.is_built = value], lines 472-473 *)
Definition set_is_built (v : bool) (self : Pipeline) : Pipeline :=
  mkPipeline v (_bids_directory self) (_caps_directory self) (_verbosity self)
             (_tsv_file self) (_info_file self) (_info self) (_name self)
             (_parameters self) (_sessions self) (_subjects self) (others self).

(** [self.info = value], lines 488-489 *)
Definition set_info (v : info) (self : Pipeline) : Pipeline :=
  mkPipeline (_is_built self) (_bids_directory self) (_caps_directory self)
             (_verbosity self) (_tsv_file self) (_info_file self) v (_name self)
             (_parameters self) (_sessions self) (_subjects self) (others self).

(** The code outside the file.  A function of a module answers from the
    calls made before; a method of the object also reads the object,
    and changes it unless the file shows that it only reads. *)
Record world : Type := mkWorld {
  mkdtemp : list outside_call -> string + exception;
  strftime : list outside_call -> string -> string;
  create_subs_sess_list :
    list outside_call -> string -> string -> string -> bool -> bool ->
    unit + exception;
  read_csv : list outside_call -> string -> string -> frame + exception;
  path_isdir : list outside_call -> string -> bool;
  json_load : list outside_call -> string -> info + exception;
  check_software : list outside_call -> string -> unit + exception;
  is_binary_present : list outside_call -> string -> bool + exception;
  input_node : workflow -> option node;
  output_node : workflow -> option node;
  in_degree : workflow -> node -> Z + exception;
  out_degree : workflow -> node -> Z + exception;
  init_nodes : list outside_call -> Pipeline -> Pipeline * (unit + exception);
  check_custom_dependencies :
    list outside_call -> Pipeline -> Pipeline * (unit + exception);
  build_input_node : list outside_call -> Pipeline -> Pipeline * (unit + exception);
  build_core_nodes : list outside_call -> Pipeline -> Pipeline * (unit + exception);
  build_output_node : list outside_call -> Pipeline -> Pipeline * (unit + exception);
  check_size : list outside_call -> Pipeline -> unit + exception;
  workflow_run :
    list outside_call -> Pipeline -> option value -> option value -> bool ->
    Pipeline * (value + exception)
}.

Variable E : world.

(** ** Functions: the state is the trace *)

Definition function (A : Type) : Type := comp (list outside_call) A.

Definition called {A : Type} (c : outside_call)
    (answer : list outside_call -> A + exception) : function A :=
  fun h => ((h ++ [c])%list, answer h).

(** Lines 35-46: the path of the TSV file, made when none is given. *)
Definition subjects_sessions_file (input_dir : string) (ss_file : option string)
    (is_bids_dir use_session_tsv : bool) : function string :=
  let listed : function string :=
    output_dir <~ called Mkdtemp (mkdtemp E) ;;
    timestamp <~ called (Strftime "%Y%m%d_%H%M%S")
                        (fun h => inl (strftime E h "%Y%m%d_%H%M%S")) ;;
    let tsv_file := timestamp ++ "_subjects_sessions_list.tsv" in
    called (CreateSubsSessList input_dir output_dir tsv_file is_bids_dir use_session_tsv)
           (fun h => create_subs_sess_list E h input_dir output_dir tsv_file
                                           is_bids_dir use_session_tsv) ;;>
    ret (Py.path_join output_dir tsv_file) in
  match ss_file with
  | Some given => if String.eqb given "" then listed else ret given
  | None => listed
  end.

(** [get_subject_session_list], lines 12-56: the pair it returns. *)
Definition get_subject_session_list (input_dir : string) (ss_file : option string)
    (is_bids_dir use_session_tsv : bool) : function (list value * list value) :=
  ss_file <~ subjects_sessions_file input_dir ss_file is_bids_dir use_session_tsv ;;
  ss_df <~ called (ReadCsv ss_file tab) (fun h => read_csv E h ss_file tab) ;;
  if negb (has_column "participant_id" ss_df)
  then raise (Exception "No participant_id column in TSV file.")
  else if negb (has_column "session_id" ss_df)
  then raise (Exception "No session_id column in TSV file.")
  else
    match column "participant_id" ss_df with
    | None => raise (AttributeError "participant_id")
    | Some subjects =>
        match column "session_id" ss_df with
        | None => raise (AttributeError "session_id")
        | Some sessions => ret (sessions, subjects)
        end
    end.

(** [Pipeline.__init__], lines 126-163: the attributes it sets before
    [init_nodes].  [class_name] is [self.__class__.__name__],
    [class_dir] the directory of the file of the class, and [fresh]
    what the object holds besides. *)
Definition init_attributes (class_name class_dir : string) (fresh : workflow)
    (bids_directory caps_directory tsv_file name : option string) : function Pipeline :=
  let _name := match name with
               | Some n => if String.eqb n "" then class_name else n
               | None => class_name
               end in
  let self (sessions_subjects : list value * list value) :=
    mkPipeline false bids_directory caps_directory "debug" tsv_file
               (Py.path_join class_dir "info.json") (mkInfo None []) _name []
               (fst sessions_subjects) (snd sessions_subjects) fresh in
  match bids_directory with
  | None =>
      match caps_directory with
      | None => raise (IOError (_name ++ " does not contain BIDS nor CAPS directory"))
      | Some caps =>
          is_dir <~ called (IsDir caps) (fun h => inl (path_isdir E h caps)) ;;
          if negb is_dir
          then raise (IOError ("The CAPS parameter is not a folder (given path:"
                               ++ caps ++ ")"))
          else
            pair <~ get_subject_session_list caps tsv_file false false ;;
            ret (self pair)
      end
  | Some bids =>
      is_dir <~ called (IsDir bids) (fun h => inl (path_isdir E h bids)) ;;
      if negb is_dir
      then raise (IOError ("The BIDS parameter is not a folder (given path:"
                           ++ bids ++ ")"))
      else
        pair <~ get_subject_session_list bids tsv_file true false ;;
        ret (self pair)
  end.

(** [Pipeline.__init__], lines 115-165 *)
Definition __init__ (class_name class_dir : string) (fresh : workflow)
    (bids_directory caps_directory tsv_file name : option string) : function Pipeline :=
  self <~ init_attributes class_name class_dir fresh
                          bids_directory caps_directory tsv_file name ;;
  fun h =>
    let r := init_nodes E h self in
    ((h ++ [InitNodes])%list,
     match snd r with
     | inl _ => inl (fst r)
     | inr e => inr e
     end).

(** ** Methods: the state is the object and the trace *)

Definition method (A : Type) : Type := comp (Pipeline * list outside_call) A.

Definition get_self : method Pipeline := fun s => (s, inl (fst s)).

(** A function of a module *)
Definition outside {A : Type} (c : outside_call)
    (answer : list outside_call -> A + exception) : method A :=
  fun s => ((fst s, (snd s ++ [c])%list), answer (snd s)).

(** A method that changes the object *)
Definition outside_method {A : Type} (c : outside_call)
    (f : list outside_call -> Pipeline -> Pipeline * (A + exception)) : method A :=
  fun s => ((fst (f (snd s) (fst s)), (snd s ++ [c])%list), snd (f (snd s) (fst s))).

(** A method that only reads the object *)
Definition outside_reader {A : Type} (c : outside_call)
    (f : list outside_call -> Pipeline -> A + exception) : method A :=
  fun s => ((fst s, (snd s ++ [c])%list), f (snd s) (fst s)).

(** What reads the graph of the workflow is not recorded. *)
Definition observe {A : Type} (f : workflow -> A + exception) : method A :=
  fun s => (s, f (others (fst s))).

(** [postset(attribute, value)], lines 59-75, for the attribute a
    setter [set] assigns. *)
Definition postset {A : Type} (set : Pipeline -> Pipeline) (func : method A) : method A :=
  res <~ func ;;
  (fun s => ((set (fst s), snd s), inl tt)) ;;>
  ret res.

(** [has_input_connections], lines 195-204 *)
Definition has_input_connections : method bool :=
  self <~ get_self ;;
  match input_node E (others self) with
  | Some n => d <~ observe (fun w => in_degree E w n) ;; ret (d >? 0)
  | None => ret false
  end.

(** [has_output_connections], lines 206-215 *)
Definition has_output_connections : method bool :=
  self <~ get_self ;;
  match output_node E (others self) with
  | Some n => d <~ observe (fun w => out_degree E w n) ;; ret (d >? 0)
  | None => ret false
  end.

(** [load_info], lines 258-273 *)
Definition load_info : method unit :=
  self <~ get_self ;;
  loaded <~ outside (LoadJson (_info_file self)) (fun h => json_load E h (_info_file self)) ;;
  fun s => ((set_info loaded (fst s), snd s), inl tt).

(** Lines 318-327: one dependency. *)
Definition check_dependency (d : dependency) : method unit :=
  if String.eqb (dep_type d) "software" then
    if existsb (String.eqb (dep_name d)) check_software_keys
    then outside (CheckSoftware (dep_name d)) (fun h => check_software E h (dep_name d))
    else raise (KeyError (dep_name d))
  else if String.eqb (dep_type d) "binary" then
    outside (IsBinaryPresent (dep_name d)) (fun h => is_binary_present E h (dep_name d)) ;;>
    ret tt
  else if String.eqb (dep_type d) "toolbox" then ret tt
  else if String.eqb (dep_type d) "pipeline" then ret tt
  else raise (Exception ("Unknown dependency type: '" ++ dep_type d ++ "'.")).

(** Lines 317-327: the loop. *)
Fixpoint check_listed (deps : list dependency) : method unit :=
  match deps with
  | [] => ret tt
  | d :: rest => check_dependency d ;;> check_listed rest
  end.

(** [check_dependencies], lines 275-331 *)
Definition check_dependencies : method unit :=
  self <~ get_self ;;
  (if info_is_empty (_info self) then load_info else ret tt) ;;>
  self <~ get_self ;;
  match dependencies (_info self) with
  | None => raise (KeyError "dependencies")
  | Some deps =>
      check_listed deps ;;>
      outside_method CheckCustomDependencies (check_custom_dependencies E)
  end.

(** [build] before its decoration, lines 231-238 *)
Definition build_undecorated : method unit :=
  self <~ get_self ;;
  if negb (_is_built self) then
    check_dependencies ;;>
    connected <~ has_input_connections ;;
    (if negb connected then outside_method BuildInputNode (build_input_node E)
     else ret tt) ;;>
    outside_method BuildCoreNodes (build_core_nodes E) ;;>
    connected <~ has_output_connections ;;
    (if negb connected then outside_method BuildOutputNode (build_output_node E)
     else ret tt)
  else ret tt.

(** [build], lines 217-238 *)
Definition build : method unit := postset (set_is_built true) build_undecorated.

(** [run], lines 240-256 *)
Definition run (plugin plugin_args : option value) (update_hash : bool) : method value :=
  self <~ get_self ;;
  (if negb (_is_built self) then build else ret tt) ;;>
  outside_reader CheckSize (check_size E) ;;>
  outside_method WorkflowRun
    (fun h self => workflow_run E h self plugin plugin_args update_hash).

End Pipeline.

Arguments has_column {value} name df.
Arguments column {value} name df.
Arguments mkPipeline {value workflow}.
Arguments _is_built {value workflow} p.
Arguments _bids_directory {value workflow} p.
Arguments _caps_directory {value workflow} p.
Arguments _verbosity {value workflow} p.
Arguments _tsv_file {value workflow} p.
Arguments _info_file {value workflow} p.
Arguments _info {value workflow} p.
Arguments _name {value workflow} p.
Arguments _parameters {value workflow} p.
Arguments _sessions {value workflow} p.
Arguments _subjects {value workflow} p.
Arguments others {value workflow} p.
Arguments set_is_built {value workflow} v self.
Arguments set_info {value workflow} v self.
Arguments mkWorld {value node workflow}.
Arguments mkdtemp {value node workflow} _.
Arguments strftime {value node workflow} _.
Arguments create_subs_sess_list {value node workflow} _.
Arguments read_csv {value node workflow} _.
Arguments path_isdir {value node workflow} _.
Arguments json_load {value node workflow} _.
Arguments check_software {value node workflow} _.
Arguments is_binary_present {value node workflow} _.
Arguments input_node {value node workflow} _.
Arguments output_node {value node workflow} _.
Arguments in_degree {value node workflow} _.
Arguments out_degree {value node workflow} _.
Arguments init_nodes {value node workflow} _.
Arguments check_custom_dependencies {value node workflow} _.
Arguments build_input_node {value node workflow} _.
Arguments build_core_nodes {value node workflow} _.
Arguments build_output_node {value node workflow} _.
Arguments check_size {value node workflow} _.
Arguments workflow_run {value node workflow} _.
Arguments subjects_sessions_file {value node workflow} E.
Arguments get_subject_session_list {value node workflow} E.
Arguments init_attributes {value node workflow} E.
Arguments __init__ {value node workflow} E.
Arguments get_self {value workflow}.
Arguments outside {value workflow A} c answer.
Arguments outside_method {value workflow A} c f.
Arguments outside_reader {value workflow A} c f.
Arguments observe {value workflow A} f.
Arguments postset {value workflow A} set func.
Arguments has_input_connections {value node workflow} E.
Arguments has_output_connections {value node workflow} E.
Arguments load_info {value node workflow} E.
Arguments check_dependency {value node workflow} E d.
Arguments check_listed {value node workflow} E deps.
Arguments check_dependencies {value node workflow} E.
Arguments build_undecorated {value node workflow} E.
Arguments build {value node workflow} E.
Arguments run {value node workflow} E.

(** ** Vocabulary of the statements *)

(** A method adds calls to the trace, all of which satisfy [P]. *)
Definition calls {value workflow A : Type} (P : outside_call -> Prop)
    (m : method value workflow A) : Prop :=
  forall s, exists new, snd (fst (m s)) = (snd s ++ new)%list /\ Forall P new.

(** The checks the loop over the dependencies makes for a list it goes
    through. *)
Definition checks (deps : list dependency) : list outside_call :=
  flat_map (fun d =>
              if String.eqb (dep_type d) "software" then [CheckSoftware (dep_name d)]
              else if String.eqb (dep_type d) "binary" then [IsBinaryPresent (dep_name d)]
              else []) deps.

(** The types of dependency the loop knows. *)
Definition known_type (d : dependency) : bool :=
  existsb (String.eqb (dep_type d)) ["software"; "binary"; "toolbox"; "pipeline"].

(** A dependency that is listed and not checked. *)
Definition unchecked_type (d : dependency) : bool :=
  existsb (String.eqb (dep_type d)) ["toolbox"; "pipeline"].

(** ** Samples *)

Definition sample_frame : frame string :=
  [("participant_id", ["sub-CLNC01"; "sub-CLNC02"]);
   ("session_id", ["ses-M00"; "ses-M18"])].

Definition sample_info : info :=
  mkInfo (Some [mkDep "software" "ants"; mkDep "toolbox" "spm12";
                mkDep "binary" "dcm2niix"])
         ["id"].

(** A list the second entry of which has a misspelt type. *)
Definition misspelt_info : info :=
  mkInfo (Some [mkDep "binary" "dcm2niix"; mkDep "sofware" "ants";
                mkDep "software" "fsl"]) [].

(** A list without software. *)
Definition binaries_info : info :=
  mkInfo (Some [mkDep "binary" "dcm2niix"; mkDep "pipeline" "t1-linear"]) [].

(** A world in which every call returns, no binary is found and
    no node is connected. *)
Definition sample_world : world string unit unit :=
  mkWorld (fun _ => inl "/tmp/tmpq1w2e3")
        (fun _ _ => "20190301_101500")
        (fun _ _ _ _ _ _ => inl tt)
        (fun _ _ _ => inl sample_frame)
        (fun _ _ => true)
        (fun _ _ => inl sample_info)
        (fun _ _ => inl tt)
        (fun _ _ => inl false)
        (fun _ => Some tt)
        (fun _ => None)
        (fun _ _ => inl 0)
        (fun _ _ => inl 0)
        (fun _ self => (self, inl tt))
        (fun _ self => (self, inl tt))
        (fun _ self => (self, inl tt))
        (fun _ self => (self, inl tt))
        (fun _ self => (self, inl tt))
        (fun _ _ => inl tt)
        (fun _ self _ _ _ => (self, inl "graph")).

(** A pipeline as [__init__] leaves it, [info] being [i]. *)
Definition sample_pipeline (i : info) : Pipeline string unit :=
  mkPipeline false (Some "/bids") None "debug" None "/clinica/pipelines/t1/info.json"
             i "T1Linear" [] ["ses-M00"; "ses-M18"] ["sub-CLNC01"; "sub-CLNC02"] tt.

End Engine.

(** * Properties *)

(** ** Strings *)

Example lower_ex : Py.lower "AV45 Early" = "av45 early".
Proof. reflexivity. Qed.

Example find_ex : Py.find "av45 early" "early" = 5 /\ Py.find "av45" "early" = -1.
Proof. split; reflexivity. Qed.

Example int_ex :
  Py.int "123" = Some 123 /\ Py.int " -1_0 " = Some (-10) /\
  Py.int "" = None /\ Py.int "12a" = None /\ Py.int "1__0" = None.
Proof. repeat split; reflexivity. Qed.

Example int_space_ex :
  Py.int (String (ascii_of_nat 9) "12") = Some 12 /\
  Py.int (String (ascii_of_nat 160) "12") = Some 12 /\
  Py.int (String (ascii_of_nat 28) "12") = None /\
  Py.int (String "I" (String (ascii_of_nat 28) "200")) = None.
Proof. repeat split; reflexivity. Qed.

Example str_ex : Py.str 305 = "305" /\ Py.str 0 = "0" /\ Py.str (-7) = "-7".
Proof. repeat split; reflexivity. Qed.

Example slice_ex :
  Py.slice_last_4 "128_S_2220" = "2220" /\ Py.slice_last_4 "ab" = "ab" /\
  Py.slice_from_1 "I305" = "305".
Proof. repeat split; reflexivity. Qed.

Example join_ex :
  Py.path_join "/adni" "128_S_2220" = "/adni/128_S_2220" /\
  Py.path_join "" "x" = "x" /\ Py.path_join "a/" "x" = "a/x" /\
  Py.path_join "a" "/x" = "/x".
Proof. repeat split; reflexivity. Qed.

Section StringFacts.

Lemma startswith_iff (p s : string) :
  Py.startswith p s = true <-> exists b, s = p ++ b.
Proof.
  revert s; induction p as [|a p IH]; intros s; simpl.
  - split; [intros _; now exists s | reflexivity].
  - destruct s as [|b s].
    + split; [discriminate | intros [x Hx]; discriminate].
    + rewrite andb_true_iff, Ascii.eqb_eq, IH. split.
      * intros [-> [x ->]]. now exists x.
      * intros [x Hx]. injection Hx as -> ->. split; [reflexivity | now exists x].
Qed.

Lemma contains_cons (c : ascii) (t sub : string) :
  contains (String c t) sub <->
  Py.startswith sub (String c t) = true \/ contains t sub.
Proof.
  unfold contains. rewrite startswith_iff. split.
  - intros [[|a0 a] [b H]]; simpl in H.
    + left. now exists b.
    + right. injection H as _ ->. now exists a, b.
  - intros [[b H] | [a [b H]]].
    + exists EmptyString, b. exact H.
    + exists (String c a), b. simpl. now rewrite H.
Qed.

Lemma contains_empty (sub : string) :
  contains EmptyString sub <-> Py.startswith sub EmptyString = true.
Proof.
  unfold contains. rewrite startswith_iff. split.
  - intros [[|a0 a] [b H]]; simpl in H; [now exists b | discriminate].
  - intros [b H]. now exists EmptyString, b.
Qed.

Lemma find_from_range (sub s : string) (i : Z) :
  0 <= i -> Py.find_from sub s i = -1 \/ i <= Py.find_from sub s i.
Proof.
  revert i; induction s as [|c t IH]; intros i Hi; simpl.
  - destruct (Py.startswith sub EmptyString); lia.
  - destruct (Py.startswith sub (String c t)); [lia|].
    destruct (IH (i + 1)); lia.
Qed.

Lemma find_from_contains (sub s : string) (i : Z) :
  0 <= i -> (0 <= Py.find_from sub s i <-> contains s sub).
Proof.
  revert i; induction s as [|c t IH]; intros i Hi.
  - rewrite contains_empty. simpl.
    destruct (Py.startswith sub EmptyString); split; intros; try lia; congruence.
  - rewrite contains_cons. simpl.
    destruct (Py.startswith sub (String c t)).
    + split; intros; [now left | lia].
    + rewrite (IH (i + 1)) by lia. split; [now right | intros [|]; [discriminate | assumption]].
Qed.

(** [s.find(sub)] is negative exactly when [sub] does not occur in [s]. *)
Lemma find_negative_iff (s sub : string) :
  Py.find s sub < 0 <-> ~ contains s sub.
Proof.
  unfold Py.find. rewrite <- (find_from_contains sub s 0) by lia. lia.
Qed.

Lemma not_early_iff (s : string) :
  not_early s = true <-> ~ contains (Py.lower s) "early".
Proof.
  unfold not_early. rewrite Z.ltb_lt. apply find_negative_iff.
Qed.

Lemma is_av45_iff (s : string) :
  is_av45 s = true <-> contains (Py.lower s) "av45".
Proof.
  unfold is_av45, Py.find. rewrite Z.gtb_ltb, Z.ltb_lt.
  rewrite <- (find_from_contains "av45" (Py.lower s) 0) by lia. lia.
Qed.

Lemma coreg_label_not_early : not_early coreg_label = true.
Proof. reflexivity. Qed.

(** A character-wise replacement that never produces a letter of [p]
    cannot make [p] appear. *)
Lemma startswith_sanitize (unsafe : ascii -> bool) (safe : ascii) (p s : string) :
  ~ In (Py.lower_char safe) (chars p) ->
  Py.startswith p (Py.lower (sanitize_with unsafe safe s)) = true ->
  Py.startswith p (Py.lower s) = true.
Proof.
  revert s; induction p as [|a p IH]; intros s Hsafe; simpl; [reflexivity|].
  destruct s as [|c s]; simpl; [intros H; exact H|].
  rewrite !andb_true_iff, !Ascii.eqb_eq. intros [Ha Hp]. split.
  - destruct (unsafe c); [|exact Ha].
    exfalso. apply Hsafe. left. now symmetry.
  - apply IH; [|exact Hp]. intros Hin. apply Hsafe. now right.
Qed.

Lemma contains_sanitize (unsafe : ascii -> bool) (safe : ascii) (p s : string) :
  ~ In (Py.lower_char safe) (chars p) ->
  contains (Py.lower (sanitize_with unsafe safe s)) p ->
  contains (Py.lower s) p.
Proof.
  intros Hsafe. induction s as [|c s IH].
  - exact (fun H => H).
  - change (Py.lower (sanitize_with unsafe safe (String c s)))
      with (String (Py.lower_char (if unsafe c then safe else c))
                   (Py.lower (sanitize_with unsafe safe s))).
    change (Py.lower (String c s)) with (String (Py.lower_char c) (Py.lower s)).
    rewrite !contains_cons. intros [H | H].
    + left. apply (startswith_sanitize unsafe safe p (String c s) Hsafe H).
    + right. now apply IH.
Qed.

(** The underscore sanitizer keeps a name free of the early-frame marker. *)
Lemma underscore_unsafe_not_early (s : string) :
  not_early s = true -> not_early (underscore_unsafe s) = true.
Proof.
  rewrite !not_early_iff. intros H C. apply H.
  apply (contains_sanitize unsafe_char "_" "early" s); [|exact C].
  simpl. intros [E|[E|[E|[E|[E|[]]]]]]; discriminate E.
Qed.

Lemma append_empty_r (a b : string) : a ++ b = "" -> b = "".
Proof. destruct a; simpl; [auto | discriminate]. Qed.

Lemma path_join_nonempty (a b : string) : b <> "" -> Py.path_join a b <> "".
Proof.
  intros Hb. unfold Py.path_join.
  destruct (Py.startswith "/" b); [exact Hb|].
  destruct (_ || _)%bool; intros H; apply append_empty_r in H.
  - contradiction.
  - discriminate H.
Qed.

Lemma endswith_nii_nonempty (f : string) : Py.endswith f ".nii" = true -> f <> "".
Proof. intros H ->. discriminate H. Qed.

End StringFacts.

(** ** Sorting of indices *)

Section Argsort.

Variable keys : list Z.

Lemma insert_index_perm (i : nat) (l : list nat) :
  Permutation (insert_index keys i l) (i :: l).
Proof.
  induction l as [|j t IH]; simpl; [reflexivity|].
  destruct (nth i keys 0 <=? nth j keys 0); [reflexivity|].
  rewrite IH. apply perm_swap.
Qed.

Lemma insert_index_sorted (i : nat) (l : list nat) :
  StronglySorted (key_le keys) l ->
  StronglySorted (key_le keys) (insert_index keys i l).
Proof.
  induction l as [|j t IH]; simpl; intros Hs.
  - repeat constructor.
  - inversion Hs as [|? ? Ht Hj]; subst.
    destruct (nth i keys 0 <=? nth j keys 0) eqn:E.
    + apply Z.leb_le in E. constructor; [exact Hs|].
      constructor; [exact E|].
      eapply Forall_impl; [|exact Hj]. unfold key_le. intros; lia.
    + apply Z.leb_gt in E. constructor; [now apply IH|].
      apply (Permutation_Forall (Permutation_sym (insert_index_perm i t))).
      constructor; [unfold key_le; lia | exact Hj].
Qed.

Lemma fold_insert_perm (l : list nat) :
  Permutation (fold_right (insert_index keys) [] l) l.
Proof.
  induction l as [|i l IH]; simpl; [reflexivity|].
  rewrite insert_index_perm. now constructor.
Qed.

Lemma fold_insert_sorted (l : list nat) :
  StronglySorted (key_le keys) (fold_right (insert_index keys) [] l).
Proof.
  induction l as [|i l IH]; simpl; [constructor | now apply insert_index_sorted].
Qed.

Lemma argsort_perm : Permutation (argsort keys) (seq 0 (List.length keys)).
Proof. apply fold_insert_perm. Qed.

Lemma argsort_sorted : StronglySorted (key_le keys) (argsort keys).
Proof. apply fold_insert_sorted. Qed.

Lemma argsort_In (i : nat) : In i (argsort keys) <-> (i < List.length keys)%nat.
Proof.
  split; intros H.
  - apply (Permutation_in _ argsort_perm) in H. apply in_seq in H. lia.
  - apply (Permutation_in _ (Permutation_sym argsort_perm)). apply in_seq. lia.
Qed.

Lemma argsort_length : List.length (argsort keys) = List.length keys.
Proof. rewrite (Permutation_length argsort_perm). apply length_seq. Qed.

End Argsort.

Lemma sorted_split {A : Type} (R : A -> A -> Prop) (a : list A) (x : A) (b : list A) :
  StronglySorted R (a ++ x :: b) ->
  Forall (fun y => R y x) a /\ Forall (R x) b.
Proof.
  induction a as [|y a IH]; simpl; intros H; inversion H as [|? ? Hs Hf]; subst.
  - split; [constructor | assumption].
  - destruct (IH Hs) as [Ha Hb]. split; [|exact Hb].
    constructor; [|exact Ha].
    rewrite Forall_forall in Hf. apply Hf. apply in_or_app. right. now left.
Qed.

Lemma nth_map_series (metas : list MetaRow) (i : nat) (m : MetaRow) :
  nth_error metas i = Some m -> nth i (map Series_ID metas) 0 = Series_ID m.
Proof.
  revert i; induction metas as [|x t IH]; intros [|i]; simpl; try discriminate.
  - now intros [= ->].
  - apply IH.
Qed.

(** ** The tie-break *)

Lemma coreg_avg_of_In (meta : list MetaRow) (series : Z) (d : MetaRow) :
  In d (coreg_avg_of meta series) <->
  In d meta /\ Sequence d = coreg_label /\ Series_ID d = series.
Proof.
  unfold coreg_avg_of. rewrite filter_In, andb_true_iff, String.eqb_eq, Z.eqb_eq.
  tauto.
Qed.

Lemma coreg_avg_of_nonempty (meta : list MetaRow) (m : MetaRow) :
  coreg_avg_of meta (Series_ID m) <> [] <-> has_coreg_avg meta m.
Proof.
  unfold has_coreg_avg. split.
  - destruct (coreg_avg_of meta (Series_ID m)) as [|d l] eqn:E; [congruence|].
    intros _. exists d. apply coreg_avg_of_In. rewrite E. now left.
  - intros [d Hd] E. apply coreg_avg_of_In in Hd. rewrite E in Hd. exact Hd.
Qed.

Lemma coreg_test (meta : list MetaRow) (m : MetaRow) :
  (0 <? List.length (coreg_avg_of meta (Series_ID m)))%nat = true <->
  has_coreg_avg meta m.
Proof.
  rewrite <- coreg_avg_of_nonempty, Nat.ltb_lt.
  destruct (coreg_avg_of meta (Series_ID m)); simpl; split; intros; try lia; congruence.
Qed.

Lemma getitem_Next {A : Type} (l : list A) (i : nat) :
  (i < List.length l)%nat -> exists x, nth_error l i = Some x /\ getitem l i = Next x.
Proof.
  intros H. unfold getitem. destruct (nth_error l i) as [x|] eqn:E.
  - now exists x.
  - apply nth_error_None in E. lia.
Qed.

(** The scan stops at the first index of the list whose series has an
    averaged derivative. *)
Lemma scan_coreg_spec (meta : list MetaRow) (imgs : list QCRow) (metas : list MetaRow)
    (l : list nat) :
  List.length imgs = List.length metas ->
  Forall (fun i => (i < List.length metas)%nat) l ->
  (scan_coreg meta imgs metas l = Next None /\
   Forall (fun i => forall m, nth_error metas i = Some m -> ~ has_coreg_avg meta m) l)
  \/
  (exists l1 i l2 q m,
      l = (l1 ++ i :: l2)%list /\
      scan_coreg meta imgs metas l = Next (Some q) /\
      nth_error imgs i = Some q /\ nth_error metas i = Some m /\
      has_coreg_avg meta m /\
      Forall (fun j => forall m', nth_error metas j = Some m' -> ~ has_coreg_avg meta m') l1).
Proof.
  intros Hlen. induction l as [|i l IH]; intros Hl.
  - left. split; [reflexivity | constructor].
  - inversion Hl as [|? ? Hi Hl']; subst.
    destruct (getitem_Next metas i Hi) as [m [Hm Gm]].
    simpl. rewrite Gm. simpl.
    destruct (0 <? List.length (coreg_avg_of meta (Series_ID m)))%nat eqn:E.
    + right. apply coreg_test in E.
      assert (Hi' : (i < List.length imgs)%nat) by lia.
      destruct (getitem_Next imgs i Hi') as [q [Hq Gq]].
      exists [], i, l, q, m. rewrite Gq. simpl.
      repeat split; auto.
    + assert (Hno : ~ has_coreg_avg meta m).
      { intros C. apply coreg_test in C. congruence. }
      destruct (IH Hl') as [[Hs Hall] | (l1 & j & l2 & q & m' & Hsplit & Hs & Hq & Hm' & Hc & Hall)].
      * left. split; [exact Hs|]. constructor; [|exact Hall].
        intros m0 Hm0. rewrite Hm in Hm0. now injection Hm0 as <-.
      * right. exists (i :: l1), j, l2, q, m'. subst l.
        repeat split; auto. constructor; [|exact Hall].
        intros m0 Hm0. rewrite Hm in Hm0. now injection Hm0 as <-.
Qed.

(** With at least one candidate, the tie-break returns a candidate: the
    one of highest series identifier among those with an averaged
    derivative, and the one of highest series identifier when there is
    none. *)
Lemma tie_break_spec (meta : list MetaRow) (imgs : list QCRow) (metas : list MetaRow) :
  List.length imgs = List.length metas -> metas <> [] ->
  exists i q m,
    tie_break meta imgs metas = Next q /\
    nth_error imgs i = Some q /\ nth_error metas i = Some m /\
    ((has_coreg_avg meta m /\
      forall m', In m' metas -> has_coreg_avg meta m' -> Series_ID m' <= Series_ID m)
     \/
     ((forall m', In m' metas -> ~ has_coreg_avg meta m') /\
      forall m', In m' metas -> Series_ID m' <= Series_ID m)).
Proof.
  intros Hlen Hne. unfold tie_break.
  set (keys := map Series_ID metas).
  assert (Hk : List.length keys = List.length metas) by apply length_map.
  assert (Hvalid : Forall (fun i => (i < List.length metas)%nat) (rev (argsort keys))).
  { apply Forall_forall. intros i Hi. apply in_rev in Hi.
    apply argsort_In in Hi. lia. }
  assert (Hidx : forall m', In m' metas ->
            exists j, nth_error metas j = Some m' /\ In j (argsort keys)).
  { intros m' Hin. destruct (In_nth_error _ _ Hin) as [j Hj].
    exists j. split; [exact Hj|]. apply argsort_In. rewrite Hk.
    apply nth_error_Some. congruence. }
  destruct (scan_coreg_spec meta imgs metas (rev (argsort keys)) Hlen Hvalid)
    as [[Hs Hall] | (l1 & i & l2 & q & m & Hsplit & Hs & Hq & Hm & Hc & Hall)].
  - rewrite Hs. simpl.
    destruct (exists_last (l := argsort keys)) as [front [i Hfront]].
    { intros E. apply (f_equal (@List.length nat)) in E.
      rewrite argsort_length, Hk in E. destruct metas; [congruence | discriminate]. }
    assert (Hi : In i (argsort keys)).
    { rewrite Hfront. apply in_or_app. right. now left. }
    assert (Hlast : nth_error (argsort keys) (List.length (argsort keys) - 1) = Some i).
    { rewrite Hfront, length_app. simpl.
      rewrite nth_error_app2 by lia.
      replace (List.length front + 1 - 1 - List.length front)%nat with 0%nat by lia.
      reflexivity. }
    unfold getitem at 1. rewrite Hlast. simpl.
    apply argsort_In in Hi. rewrite Hk in Hi.
    destruct (getitem_Next metas i Hi) as [m [Hm _]].
    assert (Hi' : (i < List.length imgs)%nat) by lia.
    destruct (getitem_Next imgs i Hi') as [q [Hq Gq]].
    exists i, q, m. repeat split; auto. right.
    rewrite Forall_forall in Hall.
    pose proof (argsort_sorted keys) as Hsorted. rewrite Hfront in Hsorted.
    apply sorted_split in Hsorted. destruct Hsorted as [Hbefore _].
    rewrite Forall_forall in Hbefore.
    split.
    + intros m' Hin. destruct (Hidx m' Hin) as [j [Hj Hjin]].
      apply (Hall j); [now apply -> in_rev | exact Hj].
    + intros m' Hin. destruct (Hidx m' Hin) as [j [Hj Hjin]].
      rewrite Hfront in Hjin. apply in_app_or in Hjin.
      destruct Hjin as [Hjin | [<- | []]].
      * specialize (Hbefore j Hjin). unfold key_le, keys in Hbefore.
        now rewrite (nth_map_series _ _ _ Hj), (nth_map_series _ _ _ Hm) in Hbefore.
      * rewrite Hm in Hj. injection Hj as <-. lia.
  - rewrite Hs. simpl. exists i, q, m. repeat split; auto. left.
    split; [exact Hc|]. intros m' Hin Hc'.
    destruct (Hidx m' Hin) as [j [Hj Hjin]].
    apply in_rev in Hjin. rewrite Hsplit in Hjin.
    rewrite Forall_forall in Hall.
    pose proof (argsort_sorted keys) as Hsorted.
    rewrite <- (rev_involutive (argsort keys)), Hsplit, rev_app_distr in Hsorted.
    simpl in Hsorted. rewrite <- app_assoc in Hsorted. simpl in Hsorted.
    apply sorted_split in Hsorted. destruct Hsorted as [Hbefore _].
    rewrite Forall_forall in Hbefore.
    apply in_app_or in Hjin. destruct Hjin as [Hjin | [<- | Hjin]].
    + exfalso. exact (Hall j Hjin m' Hj Hc').
    + rewrite Hm in Hj. injection Hj as <-. lia.
    + apply in_rev in Hjin. specialize (Hbefore j Hjin). unfold key_le, keys in Hbefore.
      now rewrite (nth_map_series _ _ _ Hj), (nth_map_series _ _ _ Hm) in Hbefore.
Qed.

(** ** The early-frame exclusion *)

Lemma meta_of_image_not_continue (meta : list MetaRow) (q : QCRow) (msg : string) :
  meta_of_image meta q <> Continue msg.
Proof.
  unfold meta_of_image, to_int.
  destruct (Py.int _); simpl; [|discriminate].
  destruct (filter _ meta); discriminate.
Qed.

(** What the exclusion returns: rows of the visit, each with its
    metadata row, none of them an early-frame acquisition. *)
Lemma normal_rows_spec (meta : list MetaRow) (qcs imgs : list QCRow) (metas : list MetaRow) :
  normal_rows meta qcs = Next (imgs, metas) ->
  Forall2 (fun q m => meta_of_image meta q = Next m /\ not_early (Sequence m) = true)
          imgs metas /\
  incl imgs qcs.
Proof.
  revert imgs metas; induction qcs as [|q qcs IH]; intros imgs metas; simpl.
  - intros [= <- <-]. split; [constructor | apply incl_refl].
  - destruct (meta_of_image meta q) as [m| |] eqn:Em; simpl; try discriminate.
    destruct (normal_rows meta qcs) as [[imgs' metas']| |] eqn:En; simpl; try discriminate.
    destruct (IH imgs' metas' eq_refl) as [HF Hincl].
    destruct (not_early (Sequence m)) eqn:Ee; simpl; intros [= <- <-].
    + split; [constructor; auto | ].
      intros x [<- | Hx]; [now left | right; now apply Hincl].
    + split; [exact HF | now apply incl_tl].
Qed.

(** The exclusion goes through exactly when every row of the visit has
    a metadata row. *)
Lemma normal_rows_total (meta : list MetaRow) (qcs : list QCRow) :
  (exists r, normal_rows meta qcs = Next r) <->
  Forall (fun q => exists m, meta_of_image meta q = Next m) qcs.
Proof.
  induction qcs as [|q qcs IH]; simpl.
  - split; [constructor | intros _; now eexists].
  - split.
    + intros [r Hr].
      destruct (meta_of_image meta q) as [m| |] eqn:Em; simpl in Hr; try discriminate.
      destruct (normal_rows meta qcs) as [r'| |] eqn:En; simpl in Hr; try discriminate.
      constructor; [now exists m | apply IH; now exists r'].
    + intros H. inversion H as [|? ? [m Hm] Hrest]; subst.
      apply IH in Hrest. destruct Hrest as [r' Hr'].
      rewrite Hm, Hr'. simpl. destruct (not_early (Sequence m)); now eexists.
Qed.

Lemma normal_rows_not_continue (meta : list MetaRow) (qcs : list QCRow) (msg : string) :
  normal_rows meta qcs <> Continue msg.
Proof.
  induction qcs as [|q qcs IH]; simpl; [discriminate|].
  destruct (meta_of_image meta q) as [m| |] eqn:Em; simpl; try discriminate.
  - destruct (normal_rows meta qcs) as [r'| |]; simpl; try discriminate; try exact IH.
    destruct (not_early (Sequence m)); discriminate.
  - intros [= ->]. exact (meta_of_image_not_continue meta q msg Em).
Qed.

Lemma Forall2_nth_error {A B : Type} (R : A -> B -> Prop) (l : list A) (l' : list B)
    (i : nat) (a : A) (b : B) :
  Forall2 R l l' -> nth_error l i = Some a -> nth_error l' i = Some b -> R a b.
Proof.
  intros H; revert i; induction H as [|x y l l' Hxy _ IH]; intros [|i]; simpl;
    try discriminate.
  - now intros [= ->] [= ->].
  - apply IH.
Qed.

(** The resolver on a visit of several rows of which several remain. *)
Lemma resolve_candidate_ties (subj visit : string) (meta : list MetaRow)
    (qcs imgs : list QCRow) (metas : list MetaRow) :
  (1 < List.length qcs)%nat ->
  normal_rows meta qcs = Next (imgs, metas) ->
  (1 < List.length imgs)%nat ->
  resolve_candidate subj visit meta qcs = tie_break meta imgs metas.
Proof.
  intros Hq Hn Hi. unfold resolve_candidate.
  apply Nat.ltb_lt in Hq. rewrite Hq, Hn. simpl.
  destruct imgs as [|a [|b imgs]]; simpl in Hi; try lia. reflexivity.
Qed.

(** C2: with several candidates left, of which some has an averaged
    derivative (a metadata row of its series named exactly
    'AV45 Co-registered, Averaged'), the resolver selects a candidate
    that has one and whose series identifier is the highest among the
    candidates that have one: the first hit of the scan from the highest
    series identifier downward. *)
Theorem tie_break_selects_highest_series_with_derivative
    (subj visit : string) (meta : list MetaRow)
    (qcs imgs : list QCRow) (metas : list MetaRow) :
  (1 < List.length qcs)%nat ->
  normal_rows meta qcs = Next (imgs, metas) ->
  (1 < List.length imgs)%nat ->
  (exists m, In m metas /\ has_coreg_avg meta m) ->
  exists i q m,
    resolve_candidate subj visit meta qcs = Next q /\
    nth_error imgs i = Some q /\ nth_error metas i = Some m /\
    meta_of_image meta q = Next m /\
    has_coreg_avg meta m /\
    forall m', In m' metas -> has_coreg_avg meta m' -> Series_ID m' <= Series_ID m.
Proof.
  intros Hq Hn Hi [m0 [Hm0 Hc0]].
  rewrite (resolve_candidate_ties subj visit meta qcs imgs metas Hq Hn Hi).
  destruct (normal_rows_spec meta qcs imgs metas Hn) as [HF _].
  assert (Hlen : List.length imgs = List.length metas) by exact (Forall2_length HF).
  assert (Hne : metas <> []) by (intros ->; simpl in Hlen; lia).
  destruct (tie_break_spec meta imgs metas Hlen Hne)
    as (i & q & m & Ht & Hqi & Hmi & [[Hc Hmax] | [Hnone _]]).
  - exists i, q, m. repeat split; auto.
    exact (proj1 (Forall2_nth_error _ _ _ i _ _ HF Hqi Hmi)).
  - exfalso. exact (Hnone m0 Hm0 Hc0).
Qed.

Lemma tie_break_selects_highest_series_with_derivative_witness :
  exists i q m,
    resolve_candidate sample_subject "m24" meta_10_20_30 qc_10_20_30 = Next q /\
    nth_error qc_10_20_30 i = Some q /\
    nth_error (firstn 3 meta_10_20_30) i = Some m /\
    meta_of_image meta_10_20_30 q = Next m /\
    has_coreg_avg meta_10_20_30 m /\
    forall m', In m' (firstn 3 meta_10_20_30) -> has_coreg_avg meta_10_20_30 m' ->
               Series_ID m' <= Series_ID m.
Proof.
  apply (tie_break_selects_highest_series_with_derivative
           sample_subject "m24" meta_10_20_30 qc_10_20_30).
  - simpl; lia.
  - reflexivity.
  - simpl; lia.
  - exists (sample_meta 2 20 "AV45" "Original"). split; [simpl; tauto|].
    exists (sample_meta 4 20 coreg_label "Processed"). simpl; tauto.
Defined.

(** Series 10, 20, 30 with a derivative for 20 alone: the series-20 row. *)
Example tie_break_10_20_30 :
  resolve_candidate sample_subject "m24" meta_10_20_30 qc_10_20_30
  = Next (sample_qc "I2") /\
  meta_of_image meta_10_20_30 (sample_qc "I2") = Next (sample_meta 2 20 "AV45" "Original").
Proof. split; reflexivity. Qed.

(** C1, as amended: with several candidates left and no averaged
    derivative for any of them, the resolver selects a candidate of the
    highest series identifier. *)
Theorem fallback_selects_highest_series
    (subj visit : string) (meta : list MetaRow)
    (qcs imgs : list QCRow) (metas : list MetaRow) :
  (1 < List.length qcs)%nat ->
  normal_rows meta qcs = Next (imgs, metas) ->
  (1 < List.length imgs)%nat ->
  (forall m, In m metas -> ~ has_coreg_avg meta m) ->
  exists i q m,
    resolve_candidate subj visit meta qcs = Next q /\
    nth_error imgs i = Some q /\ nth_error metas i = Some m /\
    meta_of_image meta q = Next m /\
    forall m', In m' metas -> Series_ID m' <= Series_ID m.
Proof.
  intros Hq Hn Hi Hnone.
  rewrite (resolve_candidate_ties subj visit meta qcs imgs metas Hq Hn Hi).
  destruct (normal_rows_spec meta qcs imgs metas Hn) as [HF _].
  assert (Hlen : List.length imgs = List.length metas) by exact (Forall2_length HF).
  assert (Hne : metas <> []) by (intros ->; simpl in Hlen; lia).
  destruct (tie_break_spec meta imgs metas Hlen Hne)
    as (i & q & m & Ht & Hqi & Hmi & [[Hc _] | [_ Hmax]]).
  - exfalso. apply (Hnone m); [|exact Hc]. eapply nth_error_In; eassumption.
  - exists i, q, m. repeat split; auto.
    exact (proj1 (Forall2_nth_error _ _ _ i _ _ HF Hqi Hmi)).
Qed.

Lemma no_derivative_5_7 (m : MetaRow) : In m meta_5_7 -> ~ has_coreg_avg meta_5_7 m.
Proof.
  intros _ [d [Hd [Hs _]]].
  destruct Hd as [<- | [<- | []]]; discriminate Hs.
Qed.

Lemma fallback_selects_highest_series_witness :
  exists i q m,
    resolve_candidate sample_subject "m24" meta_5_7 qc_5_7 = Next q /\
    nth_error qc_5_7 i = Some q /\ nth_error meta_5_7 i = Some m /\
    meta_of_image meta_5_7 q = Next m /\
    forall m', In m' meta_5_7 -> Series_ID m' <= Series_ID m.
Proof.
  apply (fallback_selects_highest_series sample_subject "m24" meta_5_7 qc_5_7).
  - simpl; lia.
  - reflexivity.
  - simpl; lia.
  - exact no_derivative_5_7.
Defined.

(** C1, as stated, fails: for two passed rows of series 5 and 7, neither
    with a derivative, both left by the exclusion, the row of series 7
    is selected and the row of series 5 is not. *)
Lemma fallback_lowest_series_counterexample :
  (1 < List.length qc_5_7)%nat /\
  normal_rows meta_5_7 qc_5_7 = Next (qc_5_7, meta_5_7) /\
  (forall m, In m meta_5_7 -> coreg_avg_of meta_5_7 (Series_ID m) = []) /\
  (exists m5, meta_of_image meta_5_7 (sample_qc "I100") = Next m5 /\ Series_ID m5 = 5) /\
  (exists m7, meta_of_image meta_5_7 (sample_qc "I200") = Next m7 /\ Series_ID m7 = 7) /\
  resolve_candidate sample_subject "m24" meta_5_7 qc_5_7 = Next (sample_qc "I200") /\
  resolve_candidate sample_subject "m24" meta_5_7 qc_5_7 <> Next (sample_qc "I100").
Proof.
  split; [simpl; lia|].
  split; [reflexivity|].
  split; [intros m [<- | [<- | []]]; reflexivity|].
  split; [eexists; split; reflexivity|].
  split; [eexists; split; reflexivity|].
  split; [reflexivity | discriminate].
Qed.

(** ** Selections of a table *)

Lemma filter_first {A : Type} (f : A -> bool) (P : A -> Prop) (l : list A) :
  (forall x, f x = true <-> P x) ->
  (filter f l = [] /\ forall x, In x l -> ~ P x) \/
  (exists m rest, filter f l = m :: rest /\ first_such P l m).
Proof.
  intros Hf. induction l as [|x l IH]; simpl.
  - left. split; [reflexivity | intros x []].
  - destruct (f x) eqn:E.
    + right. exists x, (filter f l). split; [reflexivity|].
      exists [], l. split; [reflexivity|]. split; [now apply Hf | constructor].
    + assert (Hx : ~ P x) by (intros C; apply Hf in C; congruence).
      destruct IH as [[Hnil Hnone] | (m & rest & Hm & l1 & l2 & Hl & HP & Hl1)].
      * left. split; [exact Hnil|]. intros y [<- | Hy]; [exact Hx | now apply Hnone].
      * right. exists m, rest. split; [exact Hm|].
        exists (x :: l1), l2. subst l. split; [reflexivity|]. split; [exact HP|].
        now constructor.
Qed.

Lemma first_such_unique {A : Type} (P : A -> Prop) (l : list A) (m m' : A) :
  first_such P l m -> first_such P l m' -> m = m'.
Proof.
  intros (l1 & l2 & Hl & HP & Hl1). revert l Hl.
  induction Hl1 as [|x l1 Hx _ IH]; intros l Hl (k1 & k2 & Hk & HP' & Hk1); subst l.
  - destruct k1 as [|y k1]; simpl in Hk.
    + now injection Hk.
    + injection Hk as <- _. inversion Hk1; subst. contradiction.
  - destruct k1 as [|y k1]; simpl in Hk.
    + injection Hk as -> _. contradiction.
    + injection Hk as _ Hk. inversion Hk1; subst.
      apply (IH _ eq_refl). now exists k1, k2.
Qed.

Lemma first_such_In {A : Type} (P : A -> Prop) (l : list A) (m : A) :
  first_such P l m -> In m l /\ P m.
Proof.
  intros (l1 & l2 & -> & HP & _). split; [|exact HP].
  apply in_or_app. right. now left.
Qed.

Lemma by_image_id_test (uid : Z) (m : MetaRow) :
  (String.eqb (Orig_Proc m) "Original" && (Image_ID m =? uid)
   && not_early (Sequence m))%bool = true <-> raw_by_image_id uid m.
Proof.
  unfold raw_by_image_id.
  rewrite !andb_true_iff, String.eqb_eq, Z.eqb_eq, not_early_iff. tauto.
Qed.

Lemma by_name_and_date_test (examdate : string) (m : MetaRow) :
  (String.eqb (Orig_Proc m) "Original"
   && (is_av45 (Sequence m) && not_early (Sequence m))
   && String.eqb (Scan_Date m) examdate)%bool = true <-> raw_by_name_and_date examdate m.
Proof.
  unfold raw_by_name_and_date.
  rewrite !andb_true_iff, !String.eqb_eq, not_early_iff, is_av45_iff. tauto.
Qed.

Lemma averaged_test (original_image d : MetaRow) :
  (String.eqb (Sequence d) coreg_label
   && (Series_ID d =? Series_ID original_image))%bool = true <->
  averaged_of original_image d.
Proof.
  unfold averaged_of. rewrite andb_true_iff, String.eqb_eq, Z.eqb_eq. tauto.
Qed.

(** The three outcomes of the matcher. *)
Lemma match_original_cases (subj : string) (meta : list MetaRow) (qc : QCRow) (uid : Z) :
  Py.int (Py.slice_from_1 (LONIUID qc)) = Some uid ->
  (exists m, match_original subj meta qc = Next m /\
             first_such (raw_by_image_id uid) meta m)
  \/
  (exists m, match_original subj meta qc = Next m /\
             (forall x, In x meta -> ~ raw_by_image_id uid x) /\
             first_such (raw_by_name_and_date (EXAMDATE qc)) meta m)
  \/
  (match_original subj meta qc
   = Continue ("NO Screening: Subject - " ++ subj ++ " for visit " ++ VISCODE2 qc) /\
   (forall x, In x meta -> ~ raw_by_image_id uid x) /\
   (forall x, In x meta -> ~ raw_by_name_and_date (EXAMDATE qc) x)).
Proof.
  intros Hint. unfold match_original, to_int. rewrite Hint. simpl.
  destruct (filter_first _ (raw_by_image_id uid) meta (by_image_id_test uid))
    as [[Hnil Hnone] | (m & rest & Hm & Hfirst)].
  - unfold by_image_id. rewrite Hnil.
    destruct (filter_first _ (raw_by_name_and_date (EXAMDATE qc)) meta
                (by_name_and_date_test (EXAMDATE qc)))
      as [[Hnil2 Hnone2] | (m & rest & Hm & Hfirst)].
    + right; right. unfold by_name_and_date. rewrite Hnil2. auto.
    + right; left. exists m. unfold by_name_and_date. rewrite Hm. auto.
  - left. exists m. unfold by_image_id. rewrite Hm. auto.
Qed.

Lemma match_original_Next (subj : string) (meta : list MetaRow) (qc : QCRow) (m : MetaRow) :
  match_original subj meta qc = Next m ->
  In m meta /\ Orig_Proc m = "Original" /\ not_early (Sequence m) = true.
Proof.
  unfold match_original, to_int.
  destruct (Py.int _) as [uid|]; simpl; [|discriminate].
  destruct (by_image_id meta uid) as [|x l] eqn:E1.
  - destruct (by_name_and_date meta (EXAMDATE qc)) as [|x l] eqn:E2; [discriminate|].
    intros [= ->].
    assert (H : In m (by_name_and_date meta (EXAMDATE qc))) by (rewrite E2; now left).
    apply filter_In in H. destruct H as [Hin H].
    rewrite !andb_true_iff, String.eqb_eq in H. tauto.
  - intros [= ->].
    assert (H : In m (by_image_id meta uid)) by (rewrite E1; now left).
    apply filter_In in H. destruct H as [Hin H].
    rewrite !andb_true_iff, String.eqb_eq in H. tauto.
Qed.

(** The resolver returns a row of the visit. *)
Lemma resolve_candidate_In (subj visit : string) (meta : list MetaRow)
    (qcs : list QCRow) (q : QCRow) :
  resolve_candidate subj visit meta qcs = Next q -> In q qcs.
Proof.
  unfold resolve_candidate. destruct (1 <? List.length qcs)%nat.
  - destruct (normal_rows meta qcs) as [[imgs metas]| |] eqn:En; simpl; try discriminate.
    destruct (normal_rows_spec meta qcs imgs metas En) as [HF Hincl].
    destruct imgs as [|a [|b imgs]].
    + discriminate.
    + intros [= <-]. apply Hincl. now left.
    + intros Ht. apply Hincl.
      assert (Hlen : List.length (a :: b :: imgs) = List.length metas)
        by exact (Forall2_length HF).
      assert (Hne : metas <> []) by (intros ->; discriminate Hlen).
      destruct (tie_break_spec meta (a :: b :: imgs) metas Hlen Hne)
        as (i & q' & m & Ht' & Hq' & _).
      rewrite Ht in Ht'. injection Ht' as ->.
      eapply nth_error_In; eassumption.
  - destruct qcs; simpl; [discriminate|]. intros [= <-]. now left.
Qed.

Section Visits.

Variable san : string -> string.

(** A row is appended when the resolver, the matcher and the variant
    preference all go through; its fields are those of the preferred
    metadata row. *)
Lemma resolve_visit_Next (subj : string) (meta : list MetaRow)
    (pet_qc_subj : list QCRow) (visit : string) (row : PetRow) :
  resolve_visit san subj meta pet_qc_subj visit = Next row ->
  exists qc original_image,
    resolve_candidate subj visit meta
      (filter (fun q => String.eqb (VISCODE2 q) visit) pet_qc_subj) = Next qc /\
    match_original subj meta qc = Next original_image /\
    let sel := prefer_averaged meta original_image in
    row = mkPet subj (VISCODE2 qc) (Visit (fst sel)) (san (Sequence (fst sel)))
                (Scan_Date (fst sel)) (Py.str (Study_ID (fst sel)))
                (Py.str (Series_ID (fst sel))) (Py.str (Image_ID (fst sel))) (snd sel).
Proof.
  unfold resolve_visit, bind.
  destruct (resolve_candidate _ _ _ _) as [qc| |] eqn:Ec; try discriminate.
  destruct (match_original subj meta qc) as [orig| |] eqn:Em; try discriminate.
  intros [= <-]. exists qc, orig. repeat split. exact Em.
Qed.

Lemma resolve_visit_key (subj : string) (meta : list MetaRow)
    (pet_qc_subj : list QCRow) (visit : string) (row : PetRow) :
  resolve_visit san subj meta pet_qc_subj visit = Next row ->
  key_of row = (subj, visit).
Proof.
  intros H. destruct (resolve_visit_Next _ _ _ _ _ H) as (qc & orig & Hc & _ & ->).
  apply resolve_candidate_In, filter_In in Hc. destruct Hc as [_ Hc].
  apply String.eqb_eq in Hc. unfold key_of. simpl. now rewrite Hc.
Qed.

(** C5: the matcher tries the image identifier first, then the tracer
    name with the exam date, and otherwise the visit is skipped: a line
    is printed, no row is appended, and the loop goes on with the next
    visit. *)
Theorem raw_acquisition_matcher_chain
    (subj : string) (meta : list MetaRow) (qc : QCRow) (uid : Z) :
  Py.int (Py.slice_from_1 (LONIUID qc)) = Some uid ->
  (forall m, first_such (raw_by_image_id uid) meta m ->
             match_original subj meta qc = Next m) /\
  ((forall x, In x meta -> ~ raw_by_image_id uid x) ->
   forall m, first_such (raw_by_name_and_date (EXAMDATE qc)) meta m ->
             match_original subj meta qc = Next m) /\
  ((forall x, In x meta -> ~ raw_by_image_id uid x) ->
   (forall x, In x meta -> ~ raw_by_name_and_date (EXAMDATE qc) x) ->
   exists msg,
     match_original subj meta qc = Continue msg /\
     forall pet_qc_subj visit rest st,
       resolve_candidate subj visit meta
         (filter (fun q => String.eqb (VISCODE2 q) visit) pet_qc_subj) = Next qc ->
       visits_loop san subj meta pet_qc_subj (visit :: rest) st
       = visits_loop san subj meta pet_qc_subj rest (fst st, (snd st ++ [msg])%list)).
Proof.
  intros Hint.
  destruct (match_original_cases subj meta qc uid Hint)
    as [(m & Hm & H1) | [(m & Hm & Hno1 & H2) | (Hm & Hno1 & Hno2)]].
  - split; [|split].
    + intros m' H1'. now rewrite (first_such_unique _ _ _ _ H1' H1).
    + intros Hno. exfalso. destruct (first_such_In _ _ _ H1) as [Hin HP].
      exact (Hno m Hin HP).
    + intros Hno. exfalso. destruct (first_such_In _ _ _ H1) as [Hin HP].
      exact (Hno m Hin HP).
  - split; [|split].
    + intros m' H1'. exfalso. destruct (first_such_In _ _ _ H1') as [Hin HP].
      exact (Hno1 m' Hin HP).
    + intros _ m' H2'. now rewrite (first_such_unique _ _ _ _ H2' H2).
    + intros _ Hno. exfalso. destruct (first_such_In _ _ _ H2) as [Hin HP].
      exact (Hno m Hin HP).
  - split; [|split].
    + intros m' H1'. exfalso. destruct (first_such_In _ _ _ H1') as [Hin HP].
      exact (Hno1 m' Hin HP).
    + intros _ m' H2'. exfalso. destruct (first_such_In _ _ _ H2') as [Hin HP].
      exact (Hno2 m' Hin HP).
    + intros _ _. eexists. split; [exact Hm|].
      intros pet_qc_subj visit rest st Hc. simpl.
      unfold resolve_visit. rewrite Hc. simpl. rewrite Hm. reflexivity.
Qed.

Lemma prefer_averaged_cases (meta : list MetaRow) (original_image : MetaRow) :
  (prefer_averaged meta original_image = (original_image, true) /\
   forall d, In d meta -> ~ averaged_of original_image d)
  \/
  (exists d, prefer_averaged meta original_image = (d, false) /\
             first_such (averaged_of original_image) meta d).
Proof.
  unfold prefer_averaged, coreg_avg_of.
  destruct (filter_first _ (averaged_of original_image) meta (averaged_test original_image))
    as [[Hnil Hnone] | (d & rest & Hd & Hfirst)].
  - left. rewrite Hnil. auto.
  - right. exists d. rewrite Hd. auto.
Qed.

(** C6: the row appended for a visit comes from the first averaged
    derivative of the series of the matched raw acquisition when there
    is one, with the flag [Original] false and the derivative's image
    identifier; otherwise from the raw acquisition, with the flag true.
    The derivative is the first row of the subject of that series and
    of that name, be it 'Original' or not: it is another row than the
    raw acquisition when the raw acquisition does not bear the name,
    and it may be the raw acquisition itself when it does. *)
Theorem variant_preference
    (subj : string) (meta : list MetaRow) (pet_qc_subj : list QCRow)
    (visit : string) (row : PetRow) :
  resolve_visit san subj meta pet_qc_subj visit = Next row ->
  exists qc original_image,
    resolve_candidate subj visit meta
      (filter (fun q => String.eqb (VISCODE2 q) visit) pet_qc_subj) = Next qc /\
    match_original subj meta qc = Next original_image /\
    In original_image meta /\ Orig_Proc original_image = "Original" /\
    (has_coreg_avg meta original_image ->
     exists d, first_such (averaged_of original_image) meta d /\
               pet_Original row = false /\
               pet_Image_ID row = Py.str (Image_ID d) /\
               pet_Series_ID row = Py.str (Series_ID original_image) /\
               (Sequence original_image <> coreg_label -> d <> original_image)) /\
    (~ has_coreg_avg meta original_image ->
     pet_Original row = true /\
     pet_Image_ID row = Py.str (Image_ID original_image)) /\
    (forall rest st,
        visits_loop san subj meta pet_qc_subj (visit :: rest) st
        = visits_loop san subj meta pet_qc_subj rest ((fst st ++ [row])%list, snd st)).
Proof.
  intros H. destruct (resolve_visit_Next _ _ _ _ _ H) as (qc & orig & Hc & Hm & Hrow).
  exists qc, orig. destruct (match_original_Next _ _ _ _ Hm) as (Hin & Horig & _).
  repeat (split; [assumption|]).
  split; [|split].
  - intros [d0 (Hd0 & Hs0 & Hser0)].
    destruct (prefer_averaged_cases meta orig) as [[_ Hnone] | (d & Hd & Hfirst)].
    + exfalso. apply (Hnone d0 Hd0). now split.
    + exists d. simpl in Hrow. rewrite Hd in Hrow. simpl in Hrow. subst row. simpl.
      destruct (first_such_In _ _ _ Hfirst) as [_ [Hname Hser]].
      split; [exact Hfirst|]. split; [reflexivity|]. split; [reflexivity|].
      split; [now rewrite Hser|].
      intros Hne Heq. apply Hne. now rewrite <- Heq.
  - intros Hno.
    destruct (prefer_averaged_cases meta orig) as [[Hp _] | (d & _ & Hfirst)].
    + simpl in Hrow. rewrite Hp in Hrow. simpl in Hrow. subst row. simpl. auto.
    + exfalso. apply Hno. destruct (first_such_In _ _ _ Hfirst) as [Hd [Hs Hser]].
      now exists d.
  - intros rest st. simpl. now rewrite H.
Qed.

End Visits.

(** ** The loops *)

Lemma unique_from_spec (seen l : list string) :
  NoDup (unique_from seen l) /\
  forall x, In x (unique_from seen l) -> In x l /\ ~ In x seen.
Proof.
  revert seen; induction l as [|x l IH]; intros seen; simpl.
  - split; [constructor | intros x []].
  - destruct (existsb (String.eqb x) seen) eqn:E.
    + destruct (IH seen) as [Hn Hin]. split; [exact Hn|].
      intros y Hy. destruct (Hin y Hy). auto.
    + destruct (IH (x :: seen)) as [Hn Hin]. split.
      * constructor; [|exact Hn]. intros C. apply Hin in C. apply (proj2 C). now left.
      * intros y [<- | Hy].
        -- split; [now left|]. intros C.
           assert (existsb (String.eqb x) seen = true); [|congruence].
           apply existsb_exists. exists x. split; [exact C | apply String.eqb_refl].
        -- destruct (Hin y Hy) as [H1 H2]. split; [now right|].
           intros C. apply H2. now right.
Qed.

Lemma unique_NoDup (l : list string) : NoDup (unique l).
Proof. apply unique_from_spec. Qed.

Lemma filter_map_NoDup {A B : Type} (k : A -> B) (f : A -> bool) (l : list A) :
  NoDup (map k l) -> NoDup (map k (filter f l)).
Proof.
  induction l as [|x l IH]; simpl; intros H; [constructor|].
  inversion H as [|? ? Hx Hl]; subst.
  destruct (f x); simpl; [|now apply IH].
  constructor; [|now apply IH].
  intros C. apply Hx. apply in_map_iff in C. destruct C as [y [Hy Hin]].
  apply in_map_iff. exists y. split; [exact Hy|]. apply filter_In in Hin. tauto.
Qed.

Section Run.

Variable san : string -> string.

(** The rows the loop over visits appends: one for each visit that goes
    through, in order. *)
Lemma visits_loop_Done (subj : string) (meta : list MetaRow) (qcs : list QCRow)
    (visits : list string) (st st' : state) :
  visits_loop san subj meta qcs visits st = Done st' ->
  exists rows,
    fst st' = (fst st ++ rows)%list /\
    Forall (fun r => exists visit,
                In visit visits /\ resolve_visit san subj meta qcs visit = Next r) rows /\
    (NoDup visits -> NoDup (map key_of rows)).
Proof.
  revert st; induction visits as [|visit rest IH]; intros st; simpl.
  - intros [= <-]. exists []. rewrite app_nil_r. repeat split; constructor.
  - destruct (resolve_visit san subj meta qcs visit) as [row|msg|e] eqn:Ev;
      [| |discriminate]; intros H; apply IH in H;
      destruct H as (rows & Hrows & Hall & Hnd); simpl in Hrows.
    + exists (row :: rows). split; [now rewrite Hrows, <- app_assoc|]. split.
      * constructor; [exists visit; split; [now left | exact Ev]|].
        eapply Forall_impl; [|exact Hall].
        intros r [v [Hv Hr]]. exists v. split; [now right | exact Hr].
      * intros Hvis. inversion Hvis as [|? ? Hnotin Hrest]; subst. simpl.
        constructor; [|now apply Hnd].
        intros C. apply in_map_iff in C. destruct C as [r [Hk Hr]].
        rewrite Forall_forall in Hall. destruct (Hall r Hr) as [v [Hv Hrv]].
        apply resolve_visit_key in Hrv. apply resolve_visit_key in Ev.
        rewrite Hrv, Ev in Hk. injection Hk as ->. contradiction.
    + exists rows. split; [exact Hrows|]. split.
      * eapply Forall_impl; [|exact Hall].
        intros r [v [Hv Hr]]. exists v. split; [now right | exact Hr].
      * intros Hvis. inversion Hvis; subst. now apply Hnd.
Qed.

Lemma row_origin_key (petqc : list QCRow) (pet_meta_list : list MetaRow)
    (subjs_list : list string) (r : PetRow) :
  row_origin san petqc pet_meta_list subjs_list r -> In (pet_Subject_ID r) subjs_list.
Proof.
  intros (subj & visit & rid & Hs & _ & Hr).
  apply resolve_visit_key in Hr. unfold key_of in Hr. injection Hr as -> _. exact Hs.
Qed.

(** The key of an assembled row: a subject of the list, and the visit
    code of one of the passed QC rows of that subject. *)
Lemma row_origin_visit (petqc : list QCRow) (pet_meta_list : list MetaRow)
    (subjs_list : list string) (r : PetRow) :
  row_origin san petqc pet_meta_list subjs_list r ->
  exists q rid,
    In q petqc /\ PASS q = 1 /\
    Py.int (Py.slice_last_4 (pet_Subject_ID r)) = Some rid /\ RID q = rid /\
    VISCODE2 q = pet_VISCODE r.
Proof.
  intros (subj & visit & rid & _ & Hrid & Hr).
  pose proof (resolve_visit_key _ _ _ _ _ _ Hr) as Hk.
  unfold key_of in Hk. injection Hk as Hs Hv.
  destruct (resolve_visit_Next _ _ _ _ _ _ Hr) as (qc & orig & Hc & _ & _).
  apply resolve_candidate_In, filter_In in Hc. destruct Hc as [Hc Hvis].
  apply filter_In in Hc. destruct Hc as [Hin Hc].
  apply andb_true_iff in Hc. rewrite !Z.eqb_eq in Hc. destruct Hc as [Hpass Hq].
  apply String.eqb_eq in Hvis.
  exists qc, rid. rewrite Hs, Hv. repeat split; auto.
Qed.

Lemma subjects_loop_Done (petqc : list QCRow) (pet_meta_list : list MetaRow)
    (subjs_list : list string) (st st' : state) :
  subjects_loop san petqc pet_meta_list subjs_list st = Done st' ->
  exists rows,
    fst st' = (fst st ++ rows)%list /\
    Forall (row_origin san petqc pet_meta_list subjs_list) rows /\
    (NoDup subjs_list -> NoDup (map key_of rows)).
Proof.
  revert st; induction subjs_list as [|subj rest IH]; intros st; simpl.
  - intros [= <-]. exists []. rewrite app_nil_r. repeat split; constructor.
  - destruct (Py.int (Py.slice_last_4 subj)) as [rid|] eqn:Erid; [|discriminate].
    assert (Hweaken : forall rows,
               Forall (row_origin san petqc pet_meta_list rest) rows ->
               Forall (row_origin san petqc pet_meta_list (subj :: rest)) rows).
    { intros rows. apply Forall_impl.
      intros r (s & v & i & Hs & Hi & Hr). exists s, v, i. split; [now right | auto]. }
    destruct (_ <? 1)%nat.
    + intros H. apply IH in H. destruct H as (rows & Hrows & Hall & Hnd).
      exists rows. split; [exact Hrows|]. split; [now apply Hweaken|].
      intros Hs. inversion Hs; subst. now apply Hnd.
    + destruct (visits_loop _ _ _ _ _ st) as [st1|e] eqn:Ev; [|discriminate].
      apply visits_loop_Done in Ev. destruct Ev as (rows1 & Hrows1 & Hall1 & Hnd1).
      intros H. apply IH in H. destruct H as (rows & Hrows & Hall & Hnd).
      exists (rows1 ++ rows)%list. split; [now rewrite Hrows, Hrows1, app_assoc|].
      assert (Hall1' : Forall (row_origin san petqc pet_meta_list (subj :: rest)) rows1).
      { eapply Forall_impl; [|exact Hall1].
        intros r [v [_ Hr]]. exists subj, v, rid. split; [now left | auto]. }
      split; [apply Forall_app; split; [exact Hall1' | now apply Hweaken]|].
      intros Hs. inversion Hs as [|? ? Hnotin Hrest]; subst.
      rewrite map_app. apply NoDup_app; [apply Hnd1, unique_NoDup | now apply Hnd |].
      intros k Hk1 Hk2. apply in_map_iff in Hk1. destruct Hk1 as [r1 [<- Hr1]].
      apply in_map_iff in Hk2. destruct Hk2 as [r2 [Hk Hr2]].
      rewrite Forall_forall in Hall1, Hall.
      destruct (Hall1 r1 Hr1) as [v [_ Hv]]. apply resolve_visit_key in Hv.
      apply Hall, row_origin_key in Hr2.
      rewrite Hv in Hk. unfold key_of in Hk. injection Hk as Hk _.
      rewrite Hk in Hr2. contradiction.
Qed.

End Run.

(** ** The archive walk *)

Lemma find_dirname_None (name dirpath : string) (dirnames : list string) :
  ~ In name dirnames -> find_dirname name dirpath dirnames = None.
Proof.
  induction dirnames as [|d l IH]; simpl; intros H; [reflexivity|].
  destruct (String.eqb d name) eqn:E.
  - apply String.eqb_eq in E. exfalso. apply H. now left.
  - apply IH. intros C. apply H. now right.
Qed.

Lemma find_image_dir_none (name : string)
    (walked : list (string * list string * list string)) :
  (forall dirpath dirnames filenames,
      In (dirpath, dirnames, filenames) walked -> ~ In name dirnames) ->
  find_image_dir name walked = "".
Proof.
  induction walked as [|[[dirpath dirnames] filenames] l IH]; simpl; intros H;
    [reflexivity|].
  rewrite (find_dirname_None name dirpath dirnames).
  - apply IH. intros p d f Hin. apply (H p d f). now right.
  - apply (H dirpath dirnames filenames). now left.
Qed.

Lemma walk_empty_path (fs : filesystem) : walk fs "" = [].
Proof. reflexivity. Qed.

Lemma find_nii_nonempty (dirpath : string) (filenames : list string) (p : string) :
  find_nii dirpath filenames = Some p -> p <> "".
Proof.
  induction filenames as [|f l IH]; simpl; [discriminate|].
  destruct (Py.endswith f ".nii") eqn:E; [|exact IH].
  intros [= <-]. apply path_join_nonempty. now apply endswith_nii_nonempty.
Qed.

(** Once [dicom] is false, [image_path] is the path of a file. *)
Lemma scan_nii_path (walked : list (string * list string * list string))
    (st : bool * string) :
  (fst st = false -> snd st <> "") ->
  fst (scan_nii walked st) = false -> snd (scan_nii walked st) <> "".
Proof.
  revert st; induction walked as [|[[dirpath dirnames] filenames] l IH]; intros st Hst;
    simpl; [exact Hst|].
  destruct (find_nii dirpath filenames) as [p|] eqn:E.
  - apply IH. simpl. intros _. exact (find_nii_nonempty dirpath filenames p E).
  - now apply IH.
Qed.

Lemma locate_row (fs : filesystem) (source_dir : string) (image : PetRow) :
  img_row (fst (locate fs source_dir image)) = image.
Proof. reflexivity. Qed.

Lemma locate_empty_path (fs : filesystem) (source_dir : string) (image : PetRow) :
  Path (fst (locate fs source_dir image)) = "" ->
  Is_Dicom (fst (locate fs source_dir image)) = true.
Proof.
  unfold locate. simpl. intros Hp.
  match goal with |- fst ?st = true => destruct (fst st) eqn:E; [reflexivity|] end.
  exfalso. revert Hp. apply scan_nii_path; [|exact E]. discriminate.
Qed.

Lemma locate_not_found (fs : filesystem) (source_dir : string) (image : PetRow) :
  (forall dirpath dirnames filenames,
      In (dirpath, dirnames, filenames) (walk fs (seq_path_of source_dir image)) ->
      ~ In ("I" ++ pet_Image_ID image) dirnames) ->
  locate fs source_dir image
  = (mkImage image true "", ["Not found " ++ pet_Subject_ID image]).
Proof.
  intros H. unfold locate. fold (seq_path_of source_dir image).
  rewrite (find_image_dir_none _ _ H). reflexivity.
Qed.

Lemma locate_all_spec (fs : filesystem) (source_dir : string)
    (images : list PetRow) (log : list string) :
  locate_all fs source_dir images log
  = (map (fun p => fst (locate fs source_dir p)) images,
     (log ++ flat_map (fun p => snd (locate fs source_dir p)) images)%list).
Proof.
  revert log; induction images as [|image l IH]; intros log; simpl.
  - now rewrite app_nil_r.
  - rewrite IH. simpl. now rewrite <- app_assoc.
Qed.

(** ** The exception list *)

Lemma fold_left_orb (l : list bool) (b : bool) :
  fold_left orb l b = (b || existsb (fun x => x) l)%bool.
Proof.
  revert b; induction l as [|x l IH]; intros b; simpl.
  - now rewrite orb_false_r.
  - rewrite IH. now rewrite orb_assoc.
Qed.

Lemma is_conversion_error_iff (r : PetRow) :
  is_conversion_error r = true <-> In (key_of r) conversion_errors.
Proof.
  unfold is_conversion_error. rewrite fold_left_orb, orb_false_l.
  rewrite existsb_exists. split.
  - intros [b [Hb ->]]. apply in_map_iff in Hb. destruct Hb as [[s v] [Hb Hin]].
    simpl in Hb. apply andb_true_iff in Hb. rewrite !String.eqb_eq in Hb.
    destruct Hb as [Hs Hv]. unfold key_of. now rewrite Hs, Hv.
  - intros Hin. exists true. split; [|reflexivity].
    apply in_map_iff. exists (key_of r). split; [|exact Hin].
    unfold key_of. simpl. now rewrite !String.eqb_refl.
Qed.

(** ** The returned table *)

Section Manifest.

Variable san : string -> string.

(** A run that ends returns the assembled rows that are not on the
    exception list, each with its location. *)
Lemma compute_Done (fs : filesystem) (source_dir : string)
    (petqc : list QCRow) (pet_meta_list : list MetaRow) (subjs_list : list string)
    (images : list ImageRow) (log : list string) :
  compute_av45_pet_paths san fs source_dir petqc pet_meta_list subjs_list
  = Done (images, log) ->
  exists df log0,
    subjects_loop san petqc pet_meta_list subjs_list ([], []) = Done (df, log0) /\
    images = map (fun p => fst (locate fs source_dir p))
                 (filter (fun r => negb (is_conversion_error r)) df) /\
    log = (log0 ++ flat_map (fun p => snd (locate fs source_dir p))
                     (filter (fun r => negb (is_conversion_error r)) df))%list.
Proof.
  unfold compute_av45_pet_paths.
  destruct (subjects_loop san petqc pet_meta_list subjs_list ([], []))
    as [[df log0]|e]; [|discriminate].
  rewrite locate_all_spec. simpl. intros [= <- <-]. now exists df, log0.
Qed.

Lemma compute_rows (fs : filesystem) (source_dir : string)
    (petqc : list QCRow) (pet_meta_list : list MetaRow) (subjs_list : list string)
    (images : list ImageRow) (log : list string) (r : ImageRow) :
  compute_av45_pet_paths san fs source_dir petqc pet_meta_list subjs_list
  = Done (images, log) ->
  In r images ->
  r = fst (locate fs source_dir (img_row r)) /\
  is_conversion_error (img_row r) = false /\
  row_origin san petqc pet_meta_list subjs_list (img_row r).
Proof.
  intros H Hr. destruct (compute_Done _ _ _ _ _ _ _ H) as (df & log0 & Hdf & -> & _).
  apply in_map_iff in Hr. destruct Hr as [p [<- Hp]].
  apply filter_In in Hp. destruct Hp as [Hp Herr]. apply negb_true_iff in Herr.
  rewrite locate_row. repeat split; [exact Herr|].
  apply subjects_loop_Done in Hdf. destruct Hdf as (rows & Hrows & Hall & _).
  simpl in Hrows. subst df. rewrite Forall_forall in Hall. now apply Hall.
Qed.

(** C3: the sequence name of every row of the returned table is free of
    the early-frame marker, whatever the case of its letters, for a
    sanitizer that does not make the marker appear: the row comes either
    from an 'Original' metadata row whose name is free of the marker, or
    from a derivative named 'AV45 Co-registered, Averaged'. *)
Theorem no_early_frame_in_manifest (fs : filesystem) (source_dir : string)
    (petqc : list QCRow) (pet_meta_list : list MetaRow) (subjs_list : list string)
    (images : list ImageRow) (log : list string) (r : ImageRow) :
  (forall s, ~ contains (Py.lower s) "early" -> ~ contains (Py.lower (san s)) "early") ->
  compute_av45_pet_paths san fs source_dir petqc pet_meta_list subjs_list
  = Done (images, log) ->
  In r images ->
  ~ contains (Py.lower (pet_Sequence (img_row r))) "early" /\
  exists sel_image,
    In sel_image pet_meta_list /\
    pet_Sequence (img_row r) = san (Sequence sel_image) /\
    ((pet_Original (img_row r) = true /\ Orig_Proc sel_image = "Original" /\
      ~ contains (Py.lower (Sequence sel_image)) "early")
     \/
     (pet_Original (img_row r) = false /\ Sequence sel_image = coreg_label)).
Proof.
  intros Hsan H Hr.
  destruct (compute_rows _ _ _ _ _ _ _ _ H Hr) as (_ & _ & subj & visit & rid & _ & _ & Hv).
  destruct (resolve_visit_Next _ _ _ _ _ _ Hv) as (qc & orig & _ & Hm & Hrow).
  destruct (match_original_Next _ _ _ _ Hm) as (Hin & Horig & Hne).
  apply filter_In in Hin. destruct Hin as [Hin _].
  assert (Hsel : exists sel_image,
             In sel_image pet_meta_list /\
             pet_Sequence (img_row r) = san (Sequence sel_image) /\
             ((pet_Original (img_row r) = true /\ Orig_Proc sel_image = "Original" /\
               ~ contains (Py.lower (Sequence sel_image)) "early")
              \/
              (pet_Original (img_row r) = false /\ Sequence sel_image = coreg_label))).
  { destruct (prefer_averaged_cases
                (filter (fun m => String.eqb (Subject m) subj) pet_meta_list) orig)
      as [[Hp _] | (d & Hp & Hfirst)];
      simpl in Hrow; rewrite Hp in Hrow; simpl in Hrow; rewrite Hrow; simpl.
    - exists orig. repeat split; auto. left. repeat split; auto.
      now apply not_early_iff.
    - destruct (first_such_In _ _ _ Hfirst) as [Hd [Hs _]].
      apply filter_In in Hd. destruct Hd as [Hd _].
      exists d. repeat split; auto. }
  split; [|exact Hsel].
  destruct Hsel as (sel & _ & -> & [(_ & _ & He) | (_ & Hs)]); apply Hsan.
  - exact He.
  - rewrite Hs. now apply not_early_iff.
Qed.

(** C4: a run that ends returns no row for a subject and visit of the
    exception list, '128_S_2220' at 'm48' in particular, whatever the
    tables hold; the list is applied to the assembled table, and the
    archive is searched for the rows that are left: the returned rows
    are the assembled rows that are not on the list, in the order of
    assembly, so that every other assembled row is returned. *)
Theorem deny_list_enforced (fs : filesystem) (source_dir : string)
    (petqc : list QCRow) (pet_meta_list : list MetaRow) (subjs_list : list string)
    (images : list ImageRow) (log : list string) :
  compute_av45_pet_paths san fs source_dir petqc pet_meta_list subjs_list
  = Done (images, log) ->
  (forall r, In r images -> ~ In (key_of (img_row r)) conversion_errors) /\
  (forall r, In r images ->
             ~ (pet_Subject_ID (img_row r) = "128_S_2220" /\
                pet_VISCODE (img_row r) = "m48")) /\
  exists df log0,
    subjects_loop san petqc pet_meta_list subjs_list ([], []) = Done (df, log0) /\
    map img_row images = filter (fun r => negb (is_conversion_error r)) df /\
    images = map (fun p => fst (locate fs source_dir p))
                 (filter (fun r => negb (is_conversion_error r)) df) /\
    (forall p, In p df -> ~ In (key_of p) conversion_errors -> In p (map img_row images)).
Proof.
  intros H.
  assert (Hkeys : forall r, In r images -> ~ In (key_of (img_row r)) conversion_errors).
  { intros r Hr C. destruct (compute_rows _ _ _ _ _ _ _ _ H Hr) as (_ & Herr & _).
    apply is_conversion_error_iff in C. congruence. }
  split; [exact Hkeys|]. split.
  - intros r Hr [Hs Hv]. apply (Hkeys r Hr). unfold key_of. rewrite Hs, Hv. now left.
  - destruct (compute_Done _ _ _ _ _ _ _ H) as (df & log0 & Hdf & -> & _).
    exists df, log0. split; [exact Hdf|].
    assert (Hmap : map img_row (map (fun p => fst (locate fs source_dir p))
                     (filter (fun r => negb (is_conversion_error r)) df))
                   = filter (fun r => negb (is_conversion_error r)) df).
    { rewrite map_map. simpl. apply map_id. }
    split; [exact Hmap|]. split; [reflexivity|].
    intros p Hp Hk. rewrite Hmap. apply filter_In.
    split; [exact Hp|]. apply negb_true_iff.
    destruct (is_conversion_error p) eqn:E; [|reflexivity].
    apply is_conversion_error_iff in E. contradiction.
Qed.

(** C7: an assembled row that is not on the exception list and for
    which the walk below the sequence directory of the subject meets no
    directory called 'I' followed by the image identifier is returned
    with an empty path, and a line is printed for it; the run ends
    normally. *)
Theorem unresolved_path_kept (fs : filesystem) (source_dir : string)
    (petqc : list QCRow) (pet_meta_list : list MetaRow) (subjs_list : list string)
    (df : list PetRow) (log0 : list string) (p : PetRow) :
  subjects_loop san petqc pet_meta_list subjs_list ([], []) = Done (df, log0) ->
  In p df ->
  is_conversion_error p = false ->
  (forall dirpath dirnames filenames,
      In (dirpath, dirnames, filenames) (walk fs (seq_path_of source_dir p)) ->
      ~ In ("I" ++ pet_Image_ID p) dirnames) ->
  exists images log,
    compute_av45_pet_paths san fs source_dir petqc pet_meta_list subjs_list
    = Done (images, log) /\
    In (mkImage p true "") images /\
    In ("Not found " ++ pet_Subject_ID p) log.
Proof.
  intros Hdf Hp Herr Hwalk. unfold compute_av45_pet_paths. rewrite Hdf. simpl.
  rewrite locate_all_spec. eexists _, _. split; [reflexivity|].
  assert (Hin : In p (filter (fun r => negb (is_conversion_error r)) df)).
  { apply filter_In. split; [exact Hp | now rewrite Herr]. }
  pose proof (locate_not_found fs source_dir p Hwalk) as Hloc.
  split.
  - apply in_map_iff. exists p. split; [now rewrite Hloc | exact Hin].
  - apply in_or_app. right. apply in_flat_map. exists p. split; [exact Hin|].
    rewrite Hloc. now left.
Qed.

(** C8: for a list of subjects without repetition, the returned table
    has at most one row for each pair of subject and visit code; the
    subject of a row is in the list and its visit code is that of one
    of the passed QC rows of the subject. *)
Theorem one_row_per_subject_and_visit (fs : filesystem) (source_dir : string)
    (petqc : list QCRow) (pet_meta_list : list MetaRow) (subjs_list : list string)
    (images : list ImageRow) (log : list string) :
  NoDup subjs_list ->
  compute_av45_pet_paths san fs source_dir petqc pet_meta_list subjs_list
  = Done (images, log) ->
  NoDup (map (fun r => key_of (img_row r)) images) /\
  forall r, In r images ->
    In (pet_Subject_ID (img_row r)) subjs_list /\
    exists q rid,
      In q petqc /\ PASS q = 1 /\
      Py.int (Py.slice_last_4 (pet_Subject_ID (img_row r))) = Some rid /\
      RID q = rid /\ VISCODE2 q = pet_VISCODE (img_row r).
Proof.
  intros Hnd H. split.
  - destruct (compute_Done _ _ _ _ _ _ _ H) as (df & log0 & Hdf & -> & _).
    rewrite map_map. simpl.
    apply subjects_loop_Done in Hdf. destruct Hdf as (rows & Hrows & _ & Hkeys).
    simpl in Hrows. subst df. apply filter_map_NoDup. now apply Hkeys.
  - intros r Hr. destruct (compute_rows _ _ _ _ _ _ _ _ H Hr) as (_ & _ & Ho).
    split; [exact (row_origin_key _ _ _ _ _ Ho) | exact (row_origin_visit _ _ _ _ _ Ho)].
Qed.

(** C10: a returned row whose path is empty has [Is_Dicom] true. *)
Theorem unresolved_row_is_dicom (fs : filesystem) (source_dir : string)
    (petqc : list QCRow) (pet_meta_list : list MetaRow) (subjs_list : list string)
    (images : list ImageRow) (log : list string) (r : ImageRow) :
  compute_av45_pet_paths san fs source_dir petqc pet_meta_list subjs_list
  = Done (images, log) ->
  In r images ->
  Path r = "" ->
  Is_Dicom r = true.
Proof.
  intros H Hr. destruct (compute_rows _ _ _ _ _ _ _ _ H Hr) as (Hloc & _).
  rewrite Hloc. apply locate_empty_path.
Qed.

End Manifest.

(** ** Sample runs *)

Example sample_run :
  compute_av45_pet_paths underscore_unsafe sample_fs "/adni"
    both_qc both_meta both_subjects
  = Done ([sample_image], []).
Proof. reflexivity. Qed.

Example sample_assembly :
  subjects_loop underscore_unsafe both_qc both_meta both_subjects ([], [])
  = Done ([sample_row; denied_row], []).
Proof. reflexivity. Qed.

Example unresolved_run :
  compute_av45_pet_paths underscore_unsafe sample_fs "/adni"
    qc_5_7 meta_5_7 [sample_subject; "941_S_1195"]
  = Done ([mkImage unresolved_row true ""],
          ["NO Screening: Subject - 941_S_1195"; "Not found 011_S_0021"]).
Proof. reflexivity. Qed.

Lemma underscore_unsafe_sound (s : string) :
  ~ contains (Py.lower s) "early" -> ~ contains (Py.lower (underscore_unsafe s)) "early".
Proof.
  intros H. apply not_early_iff, underscore_unsafe_not_early, not_early_iff, H.
Qed.

Lemma no_early_frame_in_manifest_witness :
  ~ contains (Py.lower (pet_Sequence (img_row sample_image))) "early" /\
  exists sel_image,
    In sel_image both_meta /\
    pet_Sequence (img_row sample_image) = underscore_unsafe (Sequence sel_image) /\
    ((pet_Original (img_row sample_image) = true /\ Orig_Proc sel_image = "Original" /\
      ~ contains (Py.lower (Sequence sel_image)) "early")
     \/
     (pet_Original (img_row sample_image) = false /\ Sequence sel_image = coreg_label)).
Proof.
  apply (no_early_frame_in_manifest underscore_unsafe sample_fs "/adni"
           both_qc both_meta both_subjects [sample_image] [] sample_image).
  - exact underscore_unsafe_sound.
  - reflexivity.
  - simpl. left. reflexivity.
Defined.

Lemma deny_list_enforced_witness :
  (forall r, In r [sample_image] -> ~ In (key_of (img_row r)) conversion_errors) /\
  (forall r, In r [sample_image] ->
             ~ (pet_Subject_ID (img_row r) = "128_S_2220" /\
                pet_VISCODE (img_row r) = "m48")) /\
  exists df log0,
    subjects_loop underscore_unsafe both_qc both_meta both_subjects ([], [])
    = Done (df, log0) /\
    map img_row [sample_image] = filter (fun r => negb (is_conversion_error r)) df /\
    [sample_image] = map (fun p => fst (locate sample_fs "/adni" p))
                         (filter (fun r => negb (is_conversion_error r)) df) /\
    (forall p, In p df -> ~ In (key_of p) conversion_errors ->
               In p (map img_row [sample_image])).
Proof.
  apply (deny_list_enforced underscore_unsafe sample_fs "/adni"
           both_qc both_meta both_subjects [sample_image] []).
  reflexivity.
Defined.

Lemma raw_acquisition_matcher_chain_witness :
  (forall m, first_such (raw_by_image_id 200) meta_5_7 m ->
             match_original sample_subject meta_5_7 (sample_qc "I200") = Next m) /\
  ((forall x, In x meta_5_7 -> ~ raw_by_image_id 200 x) ->
   forall m, first_such (raw_by_name_and_date (EXAMDATE (sample_qc "I200"))) meta_5_7 m ->
             match_original sample_subject meta_5_7 (sample_qc "I200") = Next m) /\
  ((forall x, In x meta_5_7 -> ~ raw_by_image_id 200 x) ->
   (forall x, In x meta_5_7 -> ~ raw_by_name_and_date (EXAMDATE (sample_qc "I200")) x) ->
   exists msg,
     match_original sample_subject meta_5_7 (sample_qc "I200") = Continue msg /\
     forall pet_qc_subj visit rest st,
       resolve_candidate sample_subject visit meta_5_7
         (filter (fun q => String.eqb (VISCODE2 q) visit) pet_qc_subj)
       = Next (sample_qc "I200") ->
       visits_loop underscore_unsafe sample_subject meta_5_7 pet_qc_subj (visit :: rest) st
       = visits_loop underscore_unsafe sample_subject meta_5_7 pet_qc_subj rest
           (fst st, (snd st ++ [msg])%list)).
Proof.
  apply (raw_acquisition_matcher_chain underscore_unsafe
           sample_subject meta_5_7 (sample_qc "I200") 200).
  reflexivity.
Defined.

(** The three stages of the matcher on sample rows: the image
    identifier; the tracer name and the exam date; no match. *)
Example match_original_stages :
  match_original sample_subject meta_5_7 (sample_qc "I200")
  = Next (sample_meta 200 7 "AV45" "Original") /\
  match_original sample_subject meta_5_7 (sample_qc "I300")
  = Next (sample_meta 100 5 "AV45" "Original") /\
  match_original sample_subject
    [sample_meta 100 5 "AV45 Early" "Original"; sample_meta 300 5 "AV45" "Processed"]
    (sample_qc "I100")
  = Continue "NO Screening: Subject - 011_S_0021 for visit m24".
Proof. repeat split; reflexivity. Qed.

Lemma variant_preference_witness :
  exists qc original_image,
    resolve_candidate sample_subject "m24" meta_10_20_30
      (filter (fun q => String.eqb (VISCODE2 q) "m24") qc_10_20_30) = Next qc /\
    match_original sample_subject meta_10_20_30 qc = Next original_image /\
    In original_image meta_10_20_30 /\ Orig_Proc original_image = "Original" /\
    (has_coreg_avg meta_10_20_30 original_image ->
     exists d, first_such (averaged_of original_image) meta_10_20_30 d /\
               pet_Original sample_row = false /\
               pet_Image_ID sample_row = Py.str (Image_ID d) /\
               pet_Series_ID sample_row = Py.str (Series_ID original_image) /\
               (Sequence original_image <> coreg_label -> d <> original_image)) /\
    (~ has_coreg_avg meta_10_20_30 original_image ->
     pet_Original sample_row = true /\
     pet_Image_ID sample_row = Py.str (Image_ID original_image)) /\
    (forall rest st,
        visits_loop underscore_unsafe sample_subject meta_10_20_30 qc_10_20_30
          ("m24" :: rest) st
        = visits_loop underscore_unsafe sample_subject meta_10_20_30 qc_10_20_30 rest
            ((fst st ++ [sample_row])%list, snd st)).
Proof.
  apply (variant_preference underscore_unsafe sample_subject meta_10_20_30 qc_10_20_30
           "m24" sample_row).
  reflexivity.
Defined.

(** The raw row of series 20 and image 2 is matched; the row appended
    carries image 4, the derivative. *)
Example variant_preference_sample :
  resolve_visit underscore_unsafe sample_subject meta_10_20_30 qc_10_20_30 "m24"
  = Next sample_row /\
  resolve_visit underscore_unsafe sample_subject meta_5_7 qc_5_7 "m24"
  = Next unresolved_row.
Proof. split; reflexivity. Qed.

(** C6, as stated, fails: the derivative is looked for by its series
    and its name alone.  A raw 'Original' acquisition of the name
    'AV45 Co-registered, Averaged' is matched, it has a row of its
    series and of that name, itself, and the row appended has the flag
    [Original] false with the image identifier of the raw acquisition. *)
Lemma derivative_is_raw_acquisition_counterexample :
  match_original sample_subject [raw_named_averaged] (sample_qc "I100")
  = Next raw_named_averaged /\
  Orig_Proc raw_named_averaged = "Original" /\
  (exists d, In d [raw_named_averaged] /\
             Series_ID d = Series_ID raw_named_averaged /\
             Sequence d = "AV45 Co-registered, Averaged") /\
  resolve_visit underscore_unsafe sample_subject [raw_named_averaged] [sample_qc "I100"] "m24"
  = Next row_of_raw_named_averaged /\
  pet_Original row_of_raw_named_averaged = false /\
  pet_Image_ID row_of_raw_named_averaged = Py.str (Image_ID raw_named_averaged).
Proof.
  split; [reflexivity|].
  split; [reflexivity|].
  split; [exists raw_named_averaged; split; [now left | split; reflexivity]|].
  split; [reflexivity|].
  split; reflexivity.
Qed.

Lemma unresolved_path_kept_witness :
  exists images log,
    compute_av45_pet_paths underscore_unsafe sample_fs "/adni"
      qc_5_7 meta_5_7 [sample_subject]
    = Done (images, log) /\
    In (mkImage unresolved_row true "") images /\
    In ("Not found " ++ pet_Subject_ID unresolved_row) log.
Proof.
  apply (unresolved_path_kept underscore_unsafe sample_fs "/adni"
           qc_5_7 meta_5_7 [sample_subject] [unresolved_row] [] unresolved_row).
  - reflexivity.
  - simpl. left. reflexivity.
  - reflexivity.
  - intros dirpath dirnames filenames Hin Hd.
    vm_compute in Hin.
    destruct Hin as [E | [E | [E | []]]]; injection E as _ <- _;
      simpl in Hd; intuition discriminate.
Defined.

Lemma both_subjects_NoDup : NoDup both_subjects.
Proof.
  unfold both_subjects. constructor.
  - simpl. intros [E | []]. discriminate E.
  - constructor; [intros [] | constructor].
Defined.

Lemma one_row_per_subject_and_visit_witness :
  NoDup (map (fun r => key_of (img_row r)) [sample_image]) /\
  forall r, In r [sample_image] ->
    In (pet_Subject_ID (img_row r)) both_subjects /\
    exists q rid,
      In q both_qc /\ PASS q = 1 /\
      Py.int (Py.slice_last_4 (pet_Subject_ID (img_row r))) = Some rid /\
      RID q = rid /\ VISCODE2 q = pet_VISCODE (img_row r).
Proof.
  apply (one_row_per_subject_and_visit underscore_unsafe sample_fs "/adni"
           both_qc both_meta both_subjects [sample_image] []).
  - exact both_subjects_NoDup.
  - reflexivity.
Defined.

Lemma unresolved_row_is_dicom_witness :
  Is_Dicom (mkImage unresolved_row true "") = true.
Proof.
  apply (unresolved_row_is_dicom underscore_unsafe sample_fs "/adni"
           qc_5_7 meta_5_7 [sample_subject; "941_S_1195"]
           [mkImage unresolved_row true ""]
           ["NO Screening: Subject - 941_S_1195"; "Not found 011_S_0021"]).
  - reflexivity.
  - simpl. left. reflexivity.
  - reflexivity.
Defined.

(** ** Rows without metadata *)

Lemma meta_of_image_IndexError (meta : list MetaRow) (q : QCRow) (uid : Z) :
  Py.int (Py.slice_from_1 (LONIUID q)) = Some uid ->
  (forall m, In m meta -> Image_ID m <> uid) ->
  meta_of_image meta q = Raise IndexError.
Proof.
  intros Hint Hno. unfold meta_of_image, to_int. rewrite Hint. simpl.
  destruct (filter (fun m => Image_ID m =? uid) meta) as [|m l] eqn:E; [reflexivity|].
  assert (H : In m (filter (fun m => Image_ID m =? uid) meta)) by (rewrite E; now left).
  apply filter_In in H. destruct H as [Hin H]. apply Z.eqb_eq in H.
  exfalso. exact (Hno m Hin H).
Qed.

Lemma meta_of_image_exn (meta : list MetaRow) (q : QCRow) (e : exn) :
  Py.int (Py.slice_from_1 (LONIUID q)) <> None ->
  meta_of_image meta q = Raise e -> e = IndexError.
Proof.
  unfold meta_of_image, to_int. destruct (Py.int _); [|congruence].
  intros _. simpl. destruct (filter _ meta); simpl; congruence.
Qed.

Lemma normal_rows_raise (meta : list MetaRow) (qcs : list QCRow) :
  (exists e, normal_rows meta qcs = Raise e) <->
  Exists (fun q => forall m, meta_of_image meta q <> Next m) qcs.
Proof.
  induction qcs as [|q qcs IH]; simpl.
  - split; [intros [e He]; discriminate | intros H; inversion H].
  - destruct (meta_of_image meta q) as [m|msg|e0] eqn:Em; simpl.
    + split.
      * intros [e He]. apply Exists_cons_tl. apply IH.
        destruct (normal_rows meta qcs) as [r| |e']; simpl in He; try discriminate.
        -- destruct (not_early (Sequence m)); discriminate.
        -- now exists e'.
      * intros H. inversion H as [? ? Hq | ? ? Hrest]; subst.
        -- exfalso. apply (Hq m). exact Em.
        -- apply IH in Hrest. destruct Hrest as [e He]. rewrite He. now exists e.
    + exfalso. exact (meta_of_image_not_continue meta q msg Em).
    + split; [|intros _; now exists e0].
      intros _. apply Exists_cons_hd. intros m. rewrite Em. discriminate.
Qed.

Lemma normal_rows_raise_at (meta : list MetaRow) (qcs : list QCRow) (e : exn) :
  normal_rows meta qcs = Raise e ->
  exists q, In q qcs /\ meta_of_image meta q = Raise e.
Proof.
  induction qcs as [|q qcs IH]; simpl; [discriminate|].
  destruct (meta_of_image meta q) as [m|msg|e0] eqn:Em; simpl.
  - destruct (normal_rows meta qcs) as [r| |e']; simpl; try discriminate.
    + destruct (not_early (Sequence m)); discriminate.
    + intros [= ->]. destruct (IH eq_refl) as [q' [Hin Hq']].
      exists q'. split; [now right | exact Hq'].
  - discriminate.
  - intros [= ->]. exists q. split; [now left | exact Em].
Qed.

(** On a visit of several rows the resolver raises exactly when the
    exclusion does. *)
Lemma resolve_candidate_raise (subj visit : string) (meta : list MetaRow)
    (qcs : list QCRow) (e : exn) :
  (1 < List.length qcs)%nat ->
  (resolve_candidate subj visit meta qcs = Raise e <-> normal_rows meta qcs = Raise e).
Proof.
  intros Hq. apply Nat.ltb_lt in Hq. unfold resolve_candidate. rewrite Hq.
  destruct (normal_rows meta qcs) as [[imgs metas]|msg|e'] eqn:En; simpl.
  - split; [|discriminate]. intros H. exfalso.
    destruct (normal_rows_spec meta qcs imgs metas En) as [HF _].
    destruct imgs as [|a [|b imgs]]; try discriminate.
    assert (Hlen : List.length (a :: b :: imgs) = List.length metas)
      by exact (Forall2_length HF).
    assert (Hne : metas <> []) by (intros ->; discriminate Hlen).
    destruct (tie_break_spec meta (a :: b :: imgs) metas Hlen Hne) as (i & q & m & Ht & _).
    congruence.
  - split; discriminate.
  - split; intros [= ->]; reflexivity.
Qed.

(** C9: on a visit of several passed rows, the resolver raises exactly
    when some row has no metadata row; a row whose identifier parses
    and equals no 'Image ID' of the subject makes the look-up raise
    [IndexError], and when every identifier parses this is the only
    exception. *)
Theorem exclusion_raises_without_metadata (subj visit : string)
    (meta : list MetaRow) (qcs : list QCRow) :
  (1 < List.length qcs)%nat ->
  ((exists e, resolve_candidate subj visit meta qcs = Raise e) <->
   Exists (fun q => forall m, meta_of_image meta q <> Next m) qcs) /\
  (forall q uid,
      In q qcs -> Py.int (Py.slice_from_1 (LONIUID q)) = Some uid ->
      (forall m, In m meta -> Image_ID m <> uid) ->
      meta_of_image meta q = Raise IndexError /\
      exists e, resolve_candidate subj visit meta qcs = Raise e) /\
  (Forall (fun q => Py.int (Py.slice_from_1 (LONIUID q)) <> None) qcs ->
   forall e, resolve_candidate subj visit meta qcs = Raise e -> e = IndexError).
Proof.
  intros Hq.
  assert (Hiff : (exists e, resolve_candidate subj visit meta qcs = Raise e) <->
                 Exists (fun q => forall m, meta_of_image meta q <> Next m) qcs).
  { rewrite <- normal_rows_raise.
    split; intros [e He]; exists e; now apply (resolve_candidate_raise subj visit meta qcs e Hq). }
  split; [exact Hiff|]. split.
  - intros q uid Hin Hint Hno.
    pose proof (meta_of_image_IndexError meta q uid Hint Hno) as Hm.
    split; [exact Hm|]. apply Hiff. apply Exists_exists.
    exists q. split; [exact Hin|]. intros m. rewrite Hm. discriminate.
  - intros Hparse e He.
    apply (resolve_candidate_raise subj visit meta qcs e Hq) in He.
    destruct (normal_rows_raise_at meta qcs e He) as [q [Hin Hm]].
    rewrite Forall_forall in Hparse.
    exact (meta_of_image_exn meta q e (Hparse q Hin) Hm).
Qed.

Lemma exclusion_raises_without_metadata_witness :
  meta_of_image meta_10_20_30 (sample_qc "I9") = Raise IndexError /\
  exists e, resolve_candidate sample_subject "m24" meta_10_20_30 qc_unmatched = Raise e.
Proof.
  refine (proj1 (proj2 (exclusion_raises_without_metadata
                          sample_subject "m24" meta_10_20_30 qc_unmatched _))
                (sample_qc "I9") 9 _ _ _).
  - simpl; lia.
  - simpl; tauto.
  - reflexivity.
  - intros m Hin. simpl in Hin.
    destruct Hin as [<- | [<- | [<- | [<- | []]]]]; discriminate.
Defined.

(** A run over such a visit ends with the exception. *)
Example unmatched_run_raises :
  resolve_candidate sample_subject "m24" meta_10_20_30 qc_unmatched = Raise IndexError /\
  compute_av45_pet_paths underscore_unsafe sample_fs "/adni"
    qc_unmatched meta_10_20_30 [sample_subject]
  = Uncaught IndexError.
Proof. split; reflexivity. Qed.

(** * Further properties of the resolution *)

(** ** The loops as a builder *)

Section Builder.

Variable san : string -> string.

Lemma visits_loop_builder (subj : string) (meta : list MetaRow) (qcs : list QCRow)
    (visits : list string) (st st' : state) :
  visits_loop san subj meta qcs visits st = Done st' <->
  Forall (visit_passes san subj meta qcs) visits /\
  st' = ((fst st ++ flat_map (rows_of_visit san subj meta qcs) visits)%list,
         (snd st ++ flat_map (lines_of_visit san subj meta qcs) visits)%list).
Proof.
  revert st; induction visits as [|visit rest IH]; intros st; simpl.
  - rewrite !app_nil_r. destruct st as [df log]. simpl. split.
    + intros [= <-]. split; [constructor | reflexivity].
    + intros [_ ->]. reflexivity.
  - unfold rows_of_visit at 1, lines_of_visit at 1.
    destruct (resolve_visit san subj meta qcs visit) as [row|msg|e] eqn:Ev.
    + rewrite IH. simpl. rewrite <- app_assoc. simpl. split.
      * intros [Hall ->]. split; [|reflexivity].
        constructor; [|exact Hall]. intros e. unfold visit_passes. rewrite Ev. discriminate.
      * intros [Hall ->]. split; [|reflexivity]. now inversion Hall.
    + rewrite IH. simpl. rewrite <- app_assoc. simpl. split.
      * intros [Hall ->]. split; [|reflexivity].
        constructor; [|exact Hall]. intros e. unfold visit_passes. rewrite Ev. discriminate.
      * intros [Hall ->]. split; [|reflexivity]. now inversion Hall.
    + split; [discriminate|]. intros [Hall _]. exfalso.
      inversion Hall as [|? ? Hv _]; subst. exact (Hv e Ev).
Qed.

Lemma length_lt_1 {A : Type} (l : list A) :
  (List.length l <? 1)%nat = match l with [] => true | _ => false end.
Proof. destruct l; reflexivity. Qed.

Lemma subjects_loop_builder (petqc : list QCRow) (pet_meta_list : list MetaRow)
    (subjs_list : list string) (st st' : state) :
  subjects_loop san petqc pet_meta_list subjs_list st = Done st' <->
  Forall (subject_passes san petqc pet_meta_list) subjs_list /\
  st' = ((fst st ++ flat_map (rows_of_subject san petqc pet_meta_list) subjs_list)%list,
         (snd st ++ flat_map (lines_of_subject san petqc pet_meta_list) subjs_list)%list).
Proof.
  revert st; induction subjs_list as [|subj rest IH]; intros st; simpl.
  - rewrite !app_nil_r. destruct st as [df log]. simpl. split.
    + intros [= <-]. split; [constructor | reflexivity].
    + intros [_ ->]. reflexivity.
  - unfold rows_of_subject at 1, lines_of_subject at 1, subject_passes at 1.
    destruct (Py.int (Py.slice_last_4 subj)) as [rid|] eqn:Erid.
    + fold (qc_of_subject petqc rid). fold (meta_of_subject pet_meta_list subj).
      rewrite length_lt_1. simpl.
      destruct (meta_of_subject pet_meta_list subj) as [|m0 meta] eqn:Emeta.
      * rewrite IH. simpl. split.
        -- intros [Hall ->]. split; [|now rewrite <- app_assoc].
           constructor; [|exact Hall]. exists rid. rewrite Emeta. auto.
        -- intros [Hall ->]. split; [now inversion Hall | now rewrite <- app_assoc].
      * destruct (visits_loop san subj (m0 :: meta) (qc_of_subject petqc rid)
                    (unique (map VISCODE2 (qc_of_subject petqc rid))) st)
          as [st1|e] eqn:Ev.
        -- apply visits_loop_builder in Ev. destruct Ev as [Hv ->].
           rewrite IH. simpl. rewrite <- !app_assoc. split.
           ++ intros [Hall ->]. split; [|reflexivity].
              constructor; [|exact Hall]. exists rid. rewrite Emeta. auto.
           ++ intros [Hall ->]. split; [now inversion Hall | reflexivity].
        -- split; [discriminate|]. intros [Hall _]. exfalso.
           inversion Hall as [|? ? [rid' [Hrid' Hs]] _]; subst.
           rewrite Erid in Hrid'. injection Hrid' as <-. rewrite Emeta in Hs.
           destruct Hs as [Hs | Hs]; [discriminate|].
           assert (Hd : exists st1, visits_loop san subj (m0 :: meta) (qc_of_subject petqc rid)
                          (unique (map VISCODE2 (qc_of_subject petqc rid))) st = Done st1).
           { eexists. apply visits_loop_builder. split; [exact Hs | reflexivity]. }
           destruct Hd as [st1 Hd]. congruence.
    + split; [discriminate|]. intros [Hall _]. exfalso.
      inversion Hall as [|? ? [rid [Hrid _]] _]; subst. congruence.
Qed.

End Builder.

(** ** Runs that return *)

Section Returns.

Variable san : string -> string.

Lemma compute_builder (fs : filesystem) (source_dir : string)
    (petqc : list QCRow) (pet_meta_list : list MetaRow) (subjs_list : list string)
    (images : list ImageRow) (log : list string) :
  compute_av45_pet_paths san fs source_dir petqc pet_meta_list subjs_list
  = Done (images, log) <->
  Forall (subject_passes san petqc pet_meta_list) subjs_list /\
  images = map (fun p => fst (locate fs source_dir p))
               (kept (flat_map (rows_of_subject san petqc pet_meta_list) subjs_list)) /\
  log = (flat_map (lines_of_subject san petqc pet_meta_list) subjs_list
         ++ flat_map (fun p => snd (locate fs source_dir p))
              (kept (flat_map (rows_of_subject san petqc pet_meta_list) subjs_list)))%list.
Proof.
  unfold compute_av45_pet_paths, kept.
  destruct (subjects_loop san petqc pet_meta_list subjs_list ([], [])) as [st|e] eqn:E.
  - apply subjects_loop_builder in E. destruct E as [Hall ->]. simpl.
    rewrite locate_all_spec. split.
    + intros [= <- <-]. auto.
    + intros (_ & -> & ->). reflexivity.
  - split; [discriminate|]. intros (Hall & _). exfalso.
    assert (H : subjects_loop san petqc pet_meta_list subjs_list ([], [])
                = Done (([] ++ flat_map (rows_of_subject san petqc pet_meta_list) subjs_list)%list,
                        ([] ++ flat_map (lines_of_subject san petqc pet_meta_list) subjs_list)%list))
      by (apply subjects_loop_builder; auto).
    congruence.
Qed.

Lemma rows_of_visit_In (subj : string) (meta : list MetaRow) (qcs : list QCRow)
    (visit : string) (row : PetRow) :
  In row (rows_of_visit san subj meta qcs visit) <->
  resolve_visit san subj meta qcs visit = Next row.
Proof.
  unfold rows_of_visit. destruct (resolve_visit san subj meta qcs visit); simpl; split;
    try tauto; try discriminate.
  - intros [<- | []]. reflexivity.
  - intros [= ->]. now left.
Qed.

Lemma rows_of_subject_In (petqc : list QCRow) (pet_meta_list : list MetaRow)
    (subj : string) (row : PetRow) :
  In row (rows_of_subject san petqc pet_meta_list subj) ->
  meta_of_subject pet_meta_list subj <> [] /\
  exists rid visit,
    Py.int (Py.slice_last_4 subj) = Some rid /\
    resolve_visit san subj (meta_of_subject pet_meta_list subj)
                  (qc_of_subject petqc rid) visit = Next row.
Proof.
  unfold rows_of_subject. destruct (Py.int (Py.slice_last_4 subj)) as [rid|]; [|intros []].
  destruct (meta_of_subject pet_meta_list subj) as [|m0 meta] eqn:E; [intros []|].
  intros H. split; [discriminate|]. apply in_flat_map in H. destruct H as [visit [_ H]].
  apply rows_of_visit_In in H. now exists rid, visit.
Qed.

End Returns.

Lemma subjects_loop_app (san : string -> string)
    (petqc : list QCRow) (pet_meta_list : list MetaRow)
    (l1 l2 : list string) (st : state) :
  subjects_loop san petqc pet_meta_list (l1 ++ l2)%list st
  = match subjects_loop san petqc pet_meta_list l1 st with
    | Done st1 => subjects_loop san petqc pet_meta_list l2 st1
    | Uncaught e => Uncaught e
    end.
Proof.
  revert st; induction l1 as [|subj l1 IH]; intros st; simpl; [reflexivity|].
  destruct (Py.int (Py.slice_last_4 subj)); [|reflexivity].
  destruct (_ <? 1)%nat; [apply IH|].
  destruct (visits_loop _ _ _ _ _ st); [apply IH | reflexivity].
Qed.

Lemma meta_of_subject_nil (pet_meta_list : list MetaRow) (subj : string) :
  meta_of_subject pet_meta_list subj = [] <->
  forall m, In m pet_meta_list -> Subject m <> subj.
Proof.
  unfold meta_of_subject. split.
  - intros H m Hin E.
    assert (Hm : In m (filter (fun m => String.eqb (Subject m) subj) pet_meta_list)).
    { apply filter_In. split; [exact Hin | now apply String.eqb_eq]. }
    rewrite H in Hm. exact Hm.
  - intros H. induction pet_meta_list as [|m l IH]; simpl; [reflexivity|].
    destruct (String.eqb (Subject m) subj) eqn:E.
    + apply String.eqb_eq in E. exfalso. apply (H m); [now left | exact E].
    + apply IH. intros x Hx. apply H. now right.
Qed.

Lemma contains_early_not (s : string) :
  contains (Py.lower s) "early" <-> not_early s = false.
Proof.
  destruct (not_early s) eqn:E.
  - apply not_early_iff in E. split; [contradiction | discriminate].
  - split; [reflexivity|]. intros _.
    destruct (find_from_contains "early" (Py.lower s) 0 (Z.le_refl 0)) as [H _].
    apply H. unfold not_early, Py.find in E. apply Z.ltb_ge in E. exact E.
Qed.

Section Resolution.

Variable san : string -> string.

(** X1: a run returns exactly when the body of the loop raises for no
    subject, and then the table is built from the subjects in the order
    of the list and, for each, the visit codes in order of first
    appearance: the row of every visit that has one, minus the rows of
    the exception list, each with its location; the lines printed are
    those of the loops followed by those of the archive search. *)
Theorem run_builds_the_table (fs : filesystem) (source_dir : string)
    (petqc : list QCRow) (pet_meta_list : list MetaRow) (subjs_list : list string)
    (images : list ImageRow) (log : list string) :
  compute_av45_pet_paths san fs source_dir petqc pet_meta_list subjs_list
  = Done (images, log) <->
  Forall (subject_passes san petqc pet_meta_list) subjs_list /\
  images = map (fun p => fst (locate fs source_dir p))
               (kept (flat_map (rows_of_subject san petqc pet_meta_list) subjs_list)) /\
  log = (flat_map (lines_of_subject san petqc pet_meta_list) subjs_list
         ++ flat_map (fun p => snd (locate fs source_dir p))
              (kept (flat_map (rows_of_subject san petqc pet_meta_list) subjs_list)))%list.
Proof. apply compute_builder. Qed.

(** X2: a subject of the list without any metadata row gets no row in
    the returned table, and the line 'NO Screening: Subject - ' with
    its identifier is printed. *)
Theorem unscreened_subject_skipped (fs : filesystem) (source_dir : string)
    (petqc : list QCRow) (pet_meta_list : list MetaRow) (subjs_list : list string)
    (images : list ImageRow) (log : list string) (subj : string) :
  In subj subjs_list ->
  (forall m, In m pet_meta_list -> Subject m <> subj) ->
  compute_av45_pet_paths san fs source_dir petqc pet_meta_list subjs_list
  = Done (images, log) ->
  (forall r, In r images -> pet_Subject_ID (img_row r) <> subj) /\
  In ("NO Screening: Subject - " ++ subj) log.
Proof.
  intros Hin Hno H. apply meta_of_subject_nil in Hno.
  apply compute_builder in H. destruct H as (Hall & -> & ->). split.
  - intros r Hr E. apply in_map_iff in Hr. destruct Hr as [p [<- Hp]].
    rewrite locate_row in E. apply filter_In in Hp. destruct Hp as [Hp _].
    apply in_flat_map in Hp. destruct Hp as [s [_ Hp]].
    apply rows_of_subject_In in Hp. destruct Hp as [Hne (rid & visit & _ & Hv)].
    apply resolve_visit_key in Hv. unfold key_of in Hv. injection Hv as Hs _.
    rewrite E in Hs. subst s. contradiction.
  - apply in_or_app. left. apply in_flat_map. exists subj. split; [exact Hin|].
    rewrite Forall_forall in Hall. destruct (Hall subj Hin) as [rid [Hrid _]].
    unfold lines_of_subject. rewrite Hrid, Hno. now left.
Qed.

(** X3: the numeric identifier of a subject is read from the last four
    characters of its name before anything else is done for it; when
    they are not an integer the run raises, and it raises [ValueError]
    when the loop went through the subjects before it. *)
Theorem malformed_subject_raises (fs : filesystem) (source_dir : string)
    (petqc : list QCRow) (pet_meta_list : list MetaRow) (subjs_list : list string)
    (subj : string) :
  In subj subjs_list ->
  Py.int (Py.slice_last_4 subj) = None ->
  (exists e, compute_av45_pet_paths san fs source_dir petqc pet_meta_list subjs_list
             = Uncaught e) /\
  forall before after,
    subjs_list = (before ++ subj :: after)%list ->
    Forall (subject_passes san petqc pet_meta_list) before ->
    compute_av45_pet_paths san fs source_dir petqc pet_meta_list subjs_list
    = Uncaught ValueError.
Proof.
  intros Hin Hnone. split.
  - destruct (compute_av45_pet_paths san fs source_dir petqc pet_meta_list subjs_list)
      as [[images log]|e] eqn:E; [|now exists e].
    apply compute_builder in E. destruct E as [Hall _].
    rewrite Forall_forall in Hall. destruct (Hall subj Hin) as [rid [Hrid _]]. congruence.
  - intros before after -> Hbefore. unfold compute_av45_pet_paths.
    rewrite subjects_loop_app.
    assert (H : subjects_loop san petqc pet_meta_list before ([], [])
                = Done (([] ++ flat_map (rows_of_subject san petqc pet_meta_list) before)%list,
                        ([] ++ flat_map (lines_of_subject san petqc pet_meta_list) before)%list))
      by (apply subjects_loop_builder; auto).
    rewrite H. simpl. now rewrite Hnone.
Qed.

Lemma normal_rows_all_early (meta : list MetaRow) (qcs : list QCRow) :
  Forall (fun q => exists m, meta_of_image meta q = Next m /\
                             contains (Py.lower (Sequence m)) "early") qcs ->
  normal_rows meta qcs = Next ([], []).
Proof.
  induction 1 as [|q qcs [m [Hm He]] _ IH]; simpl; [reflexivity|].
  rewrite Hm, IH. simpl. apply contains_early_not in He. now rewrite He.
Qed.

(** X4: a visit of several passed rows whose metadata rows are all
    early-frame acquisitions is skipped, with the line
    'No regular AV45-PET image'. *)
Theorem early_frames_only_visit_skipped (subj visit : string)
    (meta : list MetaRow) (qcs : list QCRow) :
  (1 < List.length qcs)%nat ->
  Forall (fun q => exists m, meta_of_image meta q = Next m /\
                             contains (Py.lower (Sequence m)) "early") qcs ->
  resolve_candidate subj visit meta qcs
  = Continue ("No regular AV45-PET image: Subject - " ++ subj ++ " for visit " ++ visit).
Proof.
  intros Hq Hall. unfold resolve_candidate.
  apply Nat.ltb_lt in Hq. rewrite Hq, (normal_rows_all_early meta qcs Hall). reflexivity.
Qed.

(** X5: out of a visit of several passed rows the resolver never takes
    a row whose metadata row is an early-frame acquisition: the row it
    returns is a row of the visit whose metadata row is free of the
    marker. *)
Theorem several_rows_never_early (subj visit : string)
    (meta : list MetaRow) (qcs : list QCRow) (q : QCRow) :
  (1 < List.length qcs)%nat ->
  resolve_candidate subj visit meta qcs = Next q ->
  In q qcs /\
  exists m, meta_of_image meta q = Next m /\
            ~ contains (Py.lower (Sequence m)) "early".
Proof.
  intros Hq H. split; [exact (resolve_candidate_In subj visit meta qcs q H)|].
  unfold resolve_candidate in H. apply Nat.ltb_lt in Hq. rewrite Hq in H.
  destruct (normal_rows meta qcs) as [[imgs metas]| |] eqn:En; simpl in H; try discriminate.
  destruct (normal_rows_spec meta qcs imgs metas En) as [HF _].
  assert (Hsel : exists i, nth_error imgs i = Some q).
  { destruct imgs as [|a [|b imgs]]; [discriminate | |].
    - injection H as ->. now exists 0%nat.
    - assert (Hlen : List.length (a :: b :: imgs) = List.length metas)
        by exact (Forall2_length HF).
      assert (Hne : metas <> []) by (intros ->; discriminate Hlen).
      destruct (tie_break_spec meta (a :: b :: imgs) metas Hlen Hne)
        as (i & q' & m & Ht & Hq' & _).
      rewrite H in Ht. injection Ht as <-. now exists i. }
  destruct Hsel as [i Hi].
  assert (Hm : exists m, nth_error metas i = Some m).
  { destruct (nth_error metas i) as [m|] eqn:E; [now exists m|].
    apply nth_error_None in E. rewrite <- (Forall2_length HF) in E.
    assert (i < List.length imgs)%nat by (apply nth_error_Some; congruence). lia. }
  destruct Hm as [m Hm]. exists m.
  destruct (Forall2_nth_error _ _ _ i _ _ HF Hi Hm) as [H1 H2].
  split; [exact H1 | now apply not_early_iff].
Qed.

End Resolution.

Lemma flat_map_lengths {A B C : Type} (f : A -> list B) (g : A -> list C) (l : list A) :
  Forall (fun x => (List.length (f x) + List.length (g x) = 1)%nat) l ->
  (List.length (flat_map f l) + List.length (flat_map g l) = List.length l)%nat.
Proof.
  induction 1 as [|x l Hx _ IH]; simpl; [reflexivity|].
  rewrite !length_app. lia.
Qed.

Lemma iloc0_filter_visit (qcs : list QCRow) (visit : string) :
  In visit (map VISCODE2 qcs) ->
  exists q, iloc0 (filter (fun q => String.eqb (VISCODE2 q) visit) qcs) = Next q.
Proof.
  intros H. apply in_map_iff in H. destruct H as [q [Hv Hq]].
  destruct (filter (fun q => String.eqb (VISCODE2 q) visit) qcs) as [|x l] eqn:E.
  - assert (Hin : In q (filter (fun q => String.eqb (VISCODE2 q) visit) qcs)).
    { apply filter_In. split; [exact Hq | now apply String.eqb_eq]. }
    rewrite E in Hin. destruct Hin.
  - now exists x.
Qed.

Lemma match_original_passes (subj : string) (meta : list MetaRow) (qc : QCRow) (m : MetaRow) :
  meta_of_image meta qc = Next m ->
  forall e, match_original subj meta qc <> Raise e.
Proof.
  unfold meta_of_image, match_original, to_int.
  destruct (Py.int (Py.slice_from_1 (LONIUID qc))) as [uid|]; simpl; [|discriminate].
  intros _ e. destruct (by_image_id meta uid); [|discriminate].
  destruct (by_name_and_date meta (EXAMDATE qc)); discriminate.
Qed.

(** With a metadata row for every passed row of the subject, the body
    of the loop over visits does not raise. *)
Lemma resolve_visit_passes (san : string -> string) (subj : string)
    (meta : list MetaRow) (qcs : list QCRow) (visit : string) :
  In visit (map VISCODE2 qcs) ->
  Forall (fun q => exists m, meta_of_image meta q = Next m) qcs ->
  visit_passes san subj meta qcs visit.
Proof.
  intros Hvisit Hall e. unfold resolve_visit.
  set (vis := filter (fun q => String.eqb (VISCODE2 q) visit) qcs).
  assert (Hvis : Forall (fun q => exists m, meta_of_image meta q = Next m) vis).
  { rewrite Forall_forall in *. intros q Hq. apply Hall.
    apply filter_In in Hq. tauto. }
  destruct (resolve_candidate subj visit meta vis) as [qc|msg|e'] eqn:Ec; simpl.
  - assert (Hqc : In qc vis) by exact (resolve_candidate_In subj visit meta vis qc Ec).
    rewrite Forall_forall in Hvis. destruct (Hvis qc Hqc) as [m Hm].
    pose proof (match_original_passes subj meta qc m Hm) as Hp.
    destruct (match_original subj meta qc) as [orig|msg|e'']; simpl;
      [discriminate | discriminate |].
    exfalso. exact (Hp e'' eq_refl).
  - discriminate.
  - exfalso. destruct (Nat.ltb_spec 1 (List.length vis)) as [Hlt | Hge].
    + apply (resolve_candidate_raise subj visit meta vis e' Hlt) in Ec.
      apply normal_rows_total in Hvis. destruct Hvis as [r Hr]. congruence.
    + unfold resolve_candidate in Ec.
      assert (Hb : (1 <? List.length vis)%nat = false) by (apply Nat.ltb_ge; lia).
      rewrite Hb in Ec. destruct (iloc0_filter_visit qcs visit Hvisit) as [q Hq].
      fold vis in Hq. congruence.
Qed.

Lemma unique_In (l : list string) (x : string) : In x (unique l) -> In x l.
Proof. intros H. apply (proj2 (unique_from_spec [] l)) in H. tauto. Qed.

Section Assembly.

Variable san : string -> string.

(** X6: every field of a returned row is read from one metadata row of
    the subject of the row: the image, series and study identifiers,
    the scan date, the visit label and the sequence name. *)
Theorem row_fields_from_subject_metadata (fs : filesystem) (source_dir : string)
    (petqc : list QCRow) (pet_meta_list : list MetaRow) (subjs_list : list string)
    (images : list ImageRow) (log : list string) (r : ImageRow) :
  compute_av45_pet_paths san fs source_dir petqc pet_meta_list subjs_list
  = Done (images, log) ->
  In r images ->
  exists sel_image,
    In sel_image pet_meta_list /\
    Subject sel_image = pet_Subject_ID (img_row r) /\
    pet_Image_ID (img_row r) = Py.str (Image_ID sel_image) /\
    pet_Series_ID (img_row r) = Py.str (Series_ID sel_image) /\
    pet_Study_ID (img_row r) = Py.str (Study_ID sel_image) /\
    pet_Scan_Date (img_row r) = Scan_Date sel_image /\
    pet_Visit (img_row r) = Visit sel_image /\
    pet_Sequence (img_row r) = san (Sequence sel_image).
Proof.
  intros H Hr. apply compute_builder in H. destruct H as (_ & -> & _).
  apply in_map_iff in Hr. destruct Hr as [p [<- Hp]]. rewrite locate_row.
  apply filter_In in Hp. destruct Hp as [Hp _].
  apply in_flat_map in Hp. destruct Hp as [subj [_ Hp]].
  apply rows_of_subject_In in Hp. destruct Hp as [_ (rid & visit & _ & Hv)].
  destruct (resolve_visit_Next _ _ _ _ _ _ Hv) as (qc & orig & _ & Hm & Hrow).
  destruct (match_original_Next _ _ _ _ Hm) as (Hin & _ & _).
  assert (Hsel : In (fst (prefer_averaged (meta_of_subject pet_meta_list subj) orig))
                    (meta_of_subject pet_meta_list subj)).
  { destruct (prefer_averaged_cases (meta_of_subject pet_meta_list subj) orig)
      as [[Hpa _] | (d & Hpa & Hfirst)]; rewrite Hpa; simpl; [exact Hin|].
    exact (proj1 (first_such_In _ _ _ Hfirst)). }
  apply filter_In in Hsel. destruct Hsel as [Hsel Hsubj]. apply String.eqb_eq in Hsubj.
  eexists. split; [exact Hsel|]. simpl in Hrow. rewrite Hrow. simpl.
  repeat split; auto.
Qed.

(** X7: subjects are resolved independently of one another: a run over
    two lists of subjects put end to end returns exactly when the runs
    over each list return, and its table is the table of the first
    followed by the table of the second. *)
Theorem runs_compose (fs : filesystem) (source_dir : string)
    (petqc : list QCRow) (pet_meta_list : list MetaRow) (l1 l2 : list string)
    (images : list ImageRow) (log : list string) :
  compute_av45_pet_paths san fs source_dir petqc pet_meta_list (l1 ++ l2)%list
  = Done (images, log) <->
  exists images1 log1 images2 log2,
    compute_av45_pet_paths san fs source_dir petqc pet_meta_list l1 = Done (images1, log1) /\
    compute_av45_pet_paths san fs source_dir petqc pet_meta_list l2 = Done (images2, log2) /\
    images = (images1 ++ images2)%list /\
    log = (flat_map (lines_of_subject san petqc pet_meta_list) (l1 ++ l2)
           ++ flat_map (fun p => snd (locate fs source_dir p)) (map img_row images))%list.
Proof.
  assert (Himg : forall l,
             map img_row (map (fun p => fst (locate fs source_dir p)) l) = l).
  { intros l. rewrite map_map. simpl. apply map_id. }
  split.
  - intros H. apply compute_builder in H. destruct H as (Hall & -> & ->).
    apply Forall_app in Hall. destruct Hall as [H1 H2].
    eexists _, _, _, _. split; [apply compute_builder; auto|].
    split; [apply compute_builder; auto|].
    rewrite Himg. split; [|reflexivity].
    unfold kept. now rewrite flat_map_app, filter_app, map_app.
  - intros (i1 & g1 & i2 & g2 & H1 & H2 & -> & ->).
    apply compute_builder in H1. destruct H1 as (Ha1 & -> & _).
    apply compute_builder in H2. destruct H2 as (Ha2 & -> & _).
    apply compute_builder. split; [apply Forall_app; auto|].
    unfold kept. rewrite flat_map_app, filter_app, map_app. split; [reflexivity|].
    rewrite <- map_app, Himg. reflexivity.
Qed.

Lemma visit_row_or_line (subj : string) (meta : list MetaRow) (qcs : list QCRow)
    (visit : string) :
  visit_passes san subj meta qcs visit ->
  (List.length (rows_of_visit san subj meta qcs visit)
   + List.length (lines_of_visit san subj meta qcs visit) = 1)%nat.
Proof.
  unfold visit_passes, rows_of_visit, lines_of_visit.
  destruct (resolve_visit san subj meta qcs visit) as [row|msg|e]; simpl; intros H;
    [reflexivity | reflexivity | exfalso; exact (H e eq_refl)].
Qed.

(** X8: when the loops go through, no visit is lost: the number of rows
    assembled plus the number of lines printed is the number of visits
    of the subjects that have metadata rows plus the number of subjects
    that have none. *)
Theorem every_visit_accounted_for
    (petqc : list QCRow) (pet_meta_list : list MetaRow) (subjs_list : list string)
    (df : list PetRow) (log0 : list string) :
  subjects_loop san petqc pet_meta_list subjs_list ([], []) = Done (df, log0) ->
  (List.length df + List.length log0
   = List.length (flat_map (visits_of_subject petqc pet_meta_list) subjs_list)
     + List.length (unscreened pet_meta_list subjs_list))%nat.
Proof.
  intros H. apply subjects_loop_builder in H. destruct H as [Hall H].
  simpl in H. injection H as -> ->.
  induction Hall as [|subj rest [rid [Hrid Hs]] _ IH]; simpl; [reflexivity|].
  rewrite !length_app.
  unfold rows_of_subject at 1, lines_of_subject at 1, visits_of_subject at 1.
  rewrite Hrid.
  destruct (meta_of_subject pet_meta_list subj) as [|m0 meta] eqn:Emeta; simpl.
  - lia.
  - destruct Hs as [Hs | Hs]; [discriminate|].
    pose proof (flat_map_lengths
                  (rows_of_visit san subj (m0 :: meta) (qc_of_subject petqc rid))
                  (lines_of_visit san subj (m0 :: meta) (qc_of_subject petqc rid))
                  (unique (map VISCODE2 (qc_of_subject petqc rid)))) as Hlen.
    rewrite <- Hlen; [lia|].
    eapply Forall_impl; [|exact Hs]. intros v. apply visit_row_or_line.
Qed.

(** X9: lines 79-206, the loops and the search of the archive, go
    through without an exception when the last four characters of
    every subject are an integer and, for every subject that has
    metadata rows, no metadata row of the subject has an empty sequence
    name and every passed QC row of its numeric identifier has a visit
    code that is not empty and an image identifier that parses and is
    the 'Image ID' of a metadata row of the subject.  An empty cell is
    not text for pandas: a visit code that is empty selects no row at
    line 88, and a sequence name that is empty has no [lower]. *)
Theorem run_returns_when_rows_have_metadata (fs : filesystem) (source_dir : string)
    (petqc : list QCRow) (pet_meta_list : list MetaRow) (subjs_list : list string) :
  (forall subj, In subj subjs_list ->
     exists rid,
       Py.int (Py.slice_last_4 subj) = Some rid /\
       ((forall m, In m pet_meta_list -> Subject m <> subj) \/
        ((forall m, In m pet_meta_list -> Subject m = subj -> Sequence m <> "") /\
         forall q, In q petqc -> PASS q = 1 -> RID q = rid ->
           VISCODE2 q <> "" /\
           exists uid m,
             Py.int (Py.slice_from_1 (LONIUID q)) = Some uid /\
             In m pet_meta_list /\ Subject m = subj /\ Image_ID m = uid))) ->
  exists images log,
    compute_av45_pet_paths san fs source_dir petqc pet_meta_list subjs_list
    = Done (images, log).
Proof.
  intros H. eexists _, _. apply compute_builder. split; [|split; reflexivity].
  apply Forall_forall. intros subj Hin. destruct (H subj Hin) as [rid [Hrid Hs]].
  exists rid. split; [exact Hrid|]. destruct Hs as [Hs | [_ Hs]].
  - left. now apply meta_of_subject_nil.
  - right. apply Forall_forall. intros visit Hv. apply unique_In in Hv.
    apply resolve_visit_passes; [exact Hv|].
    apply Forall_forall. intros q Hq. apply filter_In in Hq. destruct Hq as [Hq Hb].
    apply andb_true_iff in Hb. rewrite !Z.eqb_eq in Hb. destruct Hb as [Hpass Hr].
    destruct (Hs q Hq Hpass Hr) as (_ & uid & m & Huid & Hm & Hsubj & Hid).
    unfold meta_of_image, to_int. rewrite Huid. simpl.
    destruct (filter (fun m => Image_ID m =? uid) (meta_of_subject pet_meta_list subj))
      as [|x l] eqn:E.
    + exfalso.
      assert (Hx : In m (filter (fun m => Image_ID m =? uid)
                                (meta_of_subject pet_meta_list subj))).
      { apply filter_In. split; [|now apply Z.eqb_eq].
        apply filter_In. split; [exact Hm | now apply String.eqb_eq]. }
      rewrite E in Hx. exact Hx.
    + now exists x.
Qed.

End Assembly.

(** ** Located paths *)

Lemma string_app_assoc (a b c : string) : ((a ++ b) ++ c = a ++ (b ++ c))%string.
Proof. induction a as [|x a IH]; simpl; [reflexivity | now rewrite IH]. Qed.

Lemma string_app_empty_r (a : string) : (a ++ "" = a)%string.
Proof. induction a as [|x a IH]; simpl; [reflexivity | now rewrite IH]. Qed.

Lemma rev_string_acc (s acc : string) :
  Py.rev_string s acc = (Py.rev_string s EmptyString ++ acc)%string.
Proof.
  revert acc; induction s as [|c s IH]; intros acc; simpl; [reflexivity|].
  rewrite IH, (IH (String c EmptyString)).
  rewrite string_app_assoc. reflexivity.
Qed.

Lemma rev_string_app (a b : string) :
  Py.rev_string (a ++ b) EmptyString
  = (Py.rev_string b EmptyString ++ Py.rev_string a EmptyString)%string.
Proof.
  induction a as [|c a IH]; simpl.
  - now rewrite string_app_empty_r.
  - rewrite rev_string_acc, IH, (rev_string_acc a (String c EmptyString)).
    now rewrite string_app_assoc.
Qed.

Lemma startswith_app (p a c : string) :
  Py.startswith p a = true -> Py.startswith p (a ++ c) = true.
Proof.
  rewrite !startswith_iff. intros [b ->]. exists (b ++ c)%string.
  now rewrite string_app_assoc.
Qed.

Lemma endswith_app (x b p : string) :
  Py.endswith b p = true -> Py.endswith (x ++ b) p = true.
Proof.
  unfold Py.endswith. rewrite rev_string_app. apply startswith_app.
Qed.

Lemma path_join_suffix (a b : string) : exists x, Py.path_join a b = (x ++ b)%string.
Proof.
  unfold Py.path_join. destruct (Py.startswith "/" b).
  - now exists EmptyString.
  - destruct (_ || _)%bool.
    + now exists a.
    + exists (a ++ "/")%string. now rewrite string_app_assoc.
Qed.

Lemma endswith_path_join (a b p : string) :
  Py.endswith b p = true -> Py.endswith (Py.path_join a b) p = true.
Proof.
  intros H. destruct (path_join_suffix a b) as [x ->]. now apply endswith_app.
Qed.

Lemma find_nii_endswith (dirpath : string) (filenames : list string) (p : string) :
  find_nii dirpath filenames = Some p -> Py.endswith p ".nii" = true.
Proof.
  induction filenames as [|f l IH]; simpl; [discriminate|].
  destruct (Py.endswith f ".nii") eqn:E; [|exact IH].
  intros [= <-]. now apply endswith_path_join.
Qed.

Lemma scan_nii_false (walked : list (string * list string * list string))
    (st : bool * string) :
  (fst st = false -> Py.endswith (snd st) ".nii" = true) ->
  fst (scan_nii walked st) = false ->
  Py.endswith (snd (scan_nii walked st)) ".nii" = true.
Proof.
  revert st; induction walked as [|[[dirpath dirnames] filenames] l IH]; intros st Hst;
    simpl; [exact Hst|].
  destruct (find_nii dirpath filenames) as [p|] eqn:E.
  - apply IH. simpl. intros _. exact (find_nii_endswith dirpath filenames p E).
  - now apply IH.
Qed.

Lemma scan_nii_stays_false (walked : list (string * list string * list string))
    (p : string) :
  fst (scan_nii walked (false, p)) = false.
Proof.
  revert p; induction walked as [|[[dirpath dirnames] filenames] l IH]; intros p; simpl;
    [reflexivity|].
  destruct (find_nii dirpath filenames); apply IH.
Qed.

Lemma scan_nii_true (walked : list (string * list string * list string))
    (st : bool * string) :
  fst (scan_nii walked st) = true -> scan_nii walked st = st.
Proof.
  revert st; induction walked as [|[[dirpath dirnames] filenames] l IH]; intros st; simpl;
    [reflexivity|].
  destruct (find_nii dirpath filenames) as [p|].
  - rewrite scan_nii_stays_false. discriminate.
  - apply IH.
Qed.

Lemma find_dirname_Some (name dirpath : string) (dirnames : list string) (p : string) :
  find_dirname name dirpath dirnames = Some p ->
  In name dirnames /\ p = Py.path_join dirpath name.
Proof.
  induction dirnames as [|d l IH]; simpl; [discriminate|].
  destruct (String.eqb d name) eqn:E.
  - apply String.eqb_eq in E. subst d. intros [= <-]. split; [now left | reflexivity].
  - intros H. destruct (IH H). split; [now right | assumption].
Qed.

(** The outcome of the first walk: nothing, or the first directory of
    the walk that holds a sub-directory of the name. *)
Lemma find_image_dir_cases (name : string)
    (walked : list (string * list string * list string)) :
  (find_image_dir name walked = "" /\
   forall dirpath dirnames filenames,
     In (dirpath, dirnames, filenames) walked -> ~ In name dirnames)
  \/
  (exists dirpath dirnames filenames,
      first_such (fun t => In name (snd (fst t))) walked (dirpath, dirnames, filenames) /\
      find_image_dir name walked = Py.path_join dirpath name).
Proof.
  induction walked as [|[[dirpath dirnames] filenames] l IH]; simpl.
  - left. split; [reflexivity | intros ? ? ? []].
  - destruct (find_dirname name dirpath dirnames) as [p|] eqn:E.
    + right. apply find_dirname_Some in E. destruct E as [Hin ->].
      exists dirpath, dirnames, filenames. split; [|reflexivity].
      exists [], l. split; [reflexivity|]. split; [exact Hin | constructor].
    + assert (Hno : ~ In name dirnames).
      { intros C. clear IH. induction dirnames as [|d ds IHd]; [exact C|].
        simpl in E. destruct (String.eqb d name) eqn:Ed; [discriminate|].
        destruct C as [-> | C]; [now rewrite String.eqb_refl in Ed | now apply IHd]. }
      destruct IH as [[Hnil Hnone] | (dp & dn & fn & (l1 & l2 & Hl & HP & Hl1) & Hp)].
      * left. split; [exact Hnil|].
        intros dp dn fn [[= <- <- <-] | Hin]; [exact Hno | now apply (Hnone dp dn fn)].
      * right. exists dp, dn, fn. split; [|exact Hp].
        exists ((dirpath, dirnames, filenames) :: l1), l2. subst l.
        split; [reflexivity|]. split; [exact HP|]. constructor; [exact Hno | exact Hl1].
Qed.

Lemma locate_dicom_path (fs : filesystem) (source_dir : string) (p : PetRow) :
  Is_Dicom (fst (locate fs source_dir p)) = true ->
  Path (fst (locate fs source_dir p))
  = find_image_dir ("I" ++ pet_Image_ID p) (walk fs (seq_path_of source_dir p)).
Proof.
  unfold locate, seq_path_of. cbn [fst snd Is_Dicom Path]. intros Hd.
  now rewrite (scan_nii_true _ _ Hd).
Qed.

Section Located.

Variable san : string -> string.

(** X10: a returned row that is not marked as DICOM has the path of a
    file whose name ends in '.nii'. *)
Theorem single_file_path_ends_in_nii (fs : filesystem) (source_dir : string)
    (petqc : list QCRow) (pet_meta_list : list MetaRow) (subjs_list : list string)
    (images : list ImageRow) (log : list string) (r : ImageRow) :
  compute_av45_pet_paths san fs source_dir petqc pet_meta_list subjs_list
  = Done (images, log) ->
  In r images ->
  Is_Dicom r = false ->
  Py.endswith (Path r) ".nii" = true.
Proof.
  intros H Hr. apply compute_builder in H. destruct H as (_ & -> & _).
  apply in_map_iff in Hr. destruct Hr as [p [<- _]].
  unfold locate. simpl. apply scan_nii_false. discriminate.
Qed.

(** X11: the path of a returned row is empty exactly when the walk
    below the sequence directory of the subject meets no directory
    called 'I' followed by the image identifier; a row marked as DICOM
    with a path has the path of the first such directory met. *)
Theorem path_of_first_image_directory (fs : filesystem) (source_dir : string)
    (petqc : list QCRow) (pet_meta_list : list MetaRow) (subjs_list : list string)
    (images : list ImageRow) (log : list string) (r : ImageRow) :
  compute_av45_pet_paths san fs source_dir petqc pet_meta_list subjs_list
  = Done (images, log) ->
  In r images ->
  (Path r = "" <->
   forall dirpath dirnames filenames,
     In (dirpath, dirnames, filenames) (walk fs (seq_path_of source_dir (img_row r))) ->
     ~ In ("I" ++ pet_Image_ID (img_row r)) dirnames) /\
  (Is_Dicom r = true -> Path r <> "" ->
   exists dirpath dirnames filenames,
     first_such (fun t => In ("I" ++ pet_Image_ID (img_row r)) (snd (fst t)))
                (walk fs (seq_path_of source_dir (img_row r)))
                (dirpath, dirnames, filenames) /\
     Path r = Py.path_join dirpath ("I" ++ pet_Image_ID (img_row r))).
Proof.
  intros H Hr. apply compute_builder in H. destruct H as (_ & -> & _).
  apply in_map_iff in Hr. destruct Hr as [p [<- _]]. rewrite locate_row.
  destruct (find_image_dir_cases ("I" ++ pet_Image_ID p) (walk fs (seq_path_of source_dir p)))
    as [[Hnil Hnone] | (dp & dn & fn & Hfirst & Hp)].
  - rewrite (locate_not_found fs source_dir p Hnone). simpl.
    split; [split; [intros _; exact Hnone | reflexivity] | intros _ C; now contradiction C].
  - assert (Hne : Py.path_join dp ("I" ++ pet_Image_ID p) <> "")
      by (apply path_join_nonempty; discriminate).
    split.
    + split.
      * intros Hempty. exfalso.
        pose proof (locate_empty_path fs source_dir p Hempty) as Hd.
        rewrite (locate_dicom_path fs source_dir p Hd), Hp in Hempty.
        exact (Hne Hempty).
      * intros Hnone. exfalso. destruct (first_such_In _ _ _ Hfirst) as [Hin HP].
        exact (Hnone dp dn fn Hin HP).
    + intros Hd _. exists dp, dn, fn. split; [exact Hfirst|].
      now rewrite (locate_dicom_path fs source_dir p Hd).
Qed.

End Located.

(** ** Sample runs, continued *)

Lemma unscreened_subject_skipped_witness :
  (forall r, In r [mkImage unresolved_row true ""] ->
             pet_Subject_ID (img_row r) <> "941_S_1195") /\
  In ("NO Screening: Subject - " ++ "941_S_1195")
     ["NO Screening: Subject - 941_S_1195"; "Not found 011_S_0021"].
Proof.
  apply (unscreened_subject_skipped underscore_unsafe sample_fs "/adni"
           qc_5_7 meta_5_7 [sample_subject; "941_S_1195"]).
  - simpl. tauto.
  - intros m [<- | [<- | []]]; discriminate.
  - reflexivity.
Defined.

Lemma sample_subject_passes :
  Forall (subject_passes underscore_unsafe qc_5_7 meta_5_7) [sample_subject].
Proof.
  constructor; [|constructor]. exists 21. split; [reflexivity|]. right.
  constructor; [|constructor]. intros e. discriminate.
Qed.

Lemma malformed_subject_raises_witness :
  (exists e, compute_av45_pet_paths underscore_unsafe sample_fs "/adni"
               qc_5_7 meta_5_7 malformed_subjects = Uncaught e) /\
  forall before after,
    malformed_subjects = (before ++ "phantom" :: after)%list ->
    Forall (subject_passes underscore_unsafe qc_5_7 meta_5_7) before ->
    compute_av45_pet_paths underscore_unsafe sample_fs "/adni"
      qc_5_7 meta_5_7 malformed_subjects = Uncaught ValueError.
Proof.
  apply (malformed_subject_raises underscore_unsafe sample_fs "/adni"
           qc_5_7 meta_5_7 malformed_subjects "phantom").
  - simpl. tauto.
  - reflexivity.
Defined.

Lemma early_rows :
  Forall (fun q => exists m, meta_of_image meta_early q = Next m /\
                             contains (Py.lower (Sequence m)) "early") qc_5_7.
Proof.
  constructor; [|constructor; [|constructor]];
    (eexists; split; [reflexivity | now apply contains_early_not]).
Qed.

Lemma early_frames_only_visit_skipped_witness :
  resolve_candidate sample_subject "m24" meta_early qc_5_7
  = Continue ("No regular AV45-PET image: Subject - " ++ sample_subject
              ++ " for visit " ++ "m24").
Proof.
  apply (early_frames_only_visit_skipped sample_subject "m24" meta_early qc_5_7).
  - simpl; lia.
  - exact early_rows.
Defined.

Lemma several_rows_never_early_witness :
  In (sample_qc "I2") qc_10_20_30 /\
  exists m, meta_of_image meta_10_20_30 (sample_qc "I2") = Next m /\
            ~ contains (Py.lower (Sequence m)) "early".
Proof.
  apply (several_rows_never_early sample_subject "m24" meta_10_20_30 qc_10_20_30).
  - simpl; lia.
  - reflexivity.
Defined.

Lemma row_fields_from_subject_metadata_witness :
  exists sel_image,
    In sel_image both_meta /\
    Subject sel_image = pet_Subject_ID (img_row sample_image) /\
    pet_Image_ID (img_row sample_image) = Py.str (Image_ID sel_image) /\
    pet_Series_ID (img_row sample_image) = Py.str (Series_ID sel_image) /\
    pet_Study_ID (img_row sample_image) = Py.str (Study_ID sel_image) /\
    pet_Scan_Date (img_row sample_image) = Scan_Date sel_image /\
    pet_Visit (img_row sample_image) = Visit sel_image /\
    pet_Sequence (img_row sample_image) = underscore_unsafe (Sequence sel_image).
Proof.
  apply (row_fields_from_subject_metadata underscore_unsafe sample_fs "/adni"
           both_qc both_meta both_subjects [sample_image] [] sample_image).
  - reflexivity.
  - simpl. left. reflexivity.
Defined.

Lemma every_visit_accounted_for_witness :
  (List.length [sample_row; denied_row] + List.length (@nil string)
   = List.length (flat_map (visits_of_subject both_qc both_meta) both_subjects)
     + List.length (unscreened both_meta both_subjects))%nat.
Proof.
  apply (every_visit_accounted_for underscore_unsafe both_qc both_meta both_subjects).
  reflexivity.
Defined.

Lemma run_returns_when_rows_have_metadata_witness :
  exists images log,
    compute_av45_pet_paths underscore_unsafe sample_fs "/adni"
      both_qc both_meta both_subjects
    = Done (images, log).
Proof.
  apply (run_returns_when_rows_have_metadata underscore_unsafe sample_fs "/adni"
           both_qc both_meta both_subjects).
  intros subj [<- | [<- | []]].
  - exists 21. split; [reflexivity|]. right. split.
    + intros m [<- | [<- | [<- | [<- | [<- | []]]]]] _; discriminate.
    + intros q [<- | [<- | [<- | [<- | []]]]] Hp Hr.
      * split; [discriminate|].
        exists 1, (sample_meta 1 10 "AV45" "Original"). simpl. tauto.
      * split; [discriminate|].
        exists 2, (sample_meta 2 20 "AV45" "Original"). simpl. tauto.
      * split; [discriminate|].
        exists 3, (sample_meta 3 30 "AV45" "Original"). simpl. tauto.
      * discriminate Hr.
  - exists 2220. split; [reflexivity|]. right. split.
    + intros m [<- | [<- | [<- | [<- | [<- | []]]]]] _; discriminate.
    + intros q [<- | [<- | [<- | [<- | []]]]] Hp Hr; try discriminate Hr.
      split; [discriminate|].
      exists 500, (mkMeta "128_S_2220" 500 50 "AV45" "Original" "2014-05-06" 9
                          "ADNI2 Year 4 Visit").
      simpl. tauto.
Defined.

Lemma single_file_path_ends_in_nii_witness :
  Py.endswith (Path sample_image) ".nii" = true.
Proof.
  apply (single_file_path_ends_in_nii underscore_unsafe sample_fs "/adni"
           both_qc both_meta both_subjects [sample_image] [] sample_image).
  - reflexivity.
  - simpl. left. reflexivity.
  - reflexivity.
Defined.

Lemma path_of_first_image_directory_witness :
  (Path (mkImage unresolved_row true "") = "" <->
   forall dirpath dirnames filenames,
     In (dirpath, dirnames, filenames)
        (walk sample_fs (seq_path_of "/adni" unresolved_row)) ->
     ~ In ("I" ++ pet_Image_ID unresolved_row) dirnames) /\
  (Is_Dicom (mkImage unresolved_row true "") = true ->
   Path (mkImage unresolved_row true "") <> "" ->
   exists dirpath dirnames filenames,
     first_such (fun t => In ("I" ++ pet_Image_ID unresolved_row) (snd (fst t)))
                (walk sample_fs (seq_path_of "/adni" unresolved_row))
                (dirpath, dirnames, filenames) /\
     Path (mkImage unresolved_row true "")
     = Py.path_join dirpath ("I" ++ pet_Image_ID unresolved_row)).
Proof.
  apply (path_of_first_image_directory underscore_unsafe sample_fs "/adni"
           qc_5_7 meta_5_7 [sample_subject] [mkImage unresolved_row true ""]
           ["Not found 011_S_0021"] (mkImage unresolved_row true "")).
  - reflexivity.
  - simpl. left. reflexivity.
Defined.

(** A raw series stored as a directory of slices: the row is marked as
    DICOM and its path is the image directory. *)
Example directory_run :
  compute_av45_pet_paths underscore_unsafe sample_fs "/adni"
    [sample_qc "I999"] [sample_meta 999 7 "AV45" "Original"] [sample_subject]
  = Done ([mkImage (mkPet sample_subject "m24" "ADNI2 Month 24" "AV45" "2012-03-01"
                          "4" "7" "999" true)
                   true "/adni/011_S_0021/AV45/2012-03-01_10_00_00.0/I999"], []).
Proof. reflexivity. Qed.

Example malformed_run :
  compute_av45_pet_paths underscore_unsafe sample_fs "/adni"
    qc_5_7 meta_5_7 malformed_subjects
  = Uncaught ValueError.
Proof. reflexivity. Qed.

(** ** Identifiers read back *)

Lemma digits_step (acc : Z) (c : ascii) (t : string) :
  Py.is_digit c = true ->
  Py.digits acc false (String c t) = Py.digits (10 * acc + Py.digit_val c) false t.
Proof. intros H. cbn [Py.digits]. now rewrite H. Qed.

Ltac digit_step IH :=
  cbn [NilEmpty.string_of_uint Pos.of_uint_acc Pos.of_uint];
  rewrite digits_step by reflexivity;
  unfold Py.digit_val; cbn [nat_of_ascii];
  try (rewrite <- IH; f_equal; vm_compute Z.of_nat; lia).

Lemma digits_of_uint_acc (d : Decimal.uint) (p : positive) :
  Py.digits (Z.pos p) false (NilEmpty.string_of_uint d)
  = Some (Z.pos (Pos.of_uint_acc d p)).
Proof.
  revert p; induction d; intros p; [reflexivity | digit_step IHd ..].
Qed.

Lemma digits_of_uint (d : Decimal.uint) :
  Py.digits 0 false (NilEmpty.string_of_uint d) = Some (Z.of_uint d).
Proof.
  unfold Z.of_uint. induction d; [reflexivity | ..];
    cbn [NilEmpty.string_of_uint Pos.of_uint];
    rewrite digits_step by reflexivity;
    [exact IHd | apply digits_of_uint_acc ..].
Qed.

Lemma unsigned_of_uint (d : Decimal.uint) :
  Py.unsigned (NilZero.string_of_uint d) = Some (Z.of_uint d).
Proof.
  destruct d; [reflexivity | rewrite <- digits_of_uint; reflexivity ..].
Qed.

Lemma chars_rev_string (s acc : string) :
  chars (Py.rev_string s acc) = (rev (chars s) ++ chars acc)%list.
Proof.
  revert acc; induction s as [|c s IH]; intros acc; simpl; [reflexivity|].
  rewrite IH. simpl. now rewrite <- app_assoc.
Qed.

Lemma rev_string_involutive (s : string) :
  Py.rev_string (Py.rev_string s EmptyString) EmptyString = s.
Proof.
  induction s as [|c s IH]; simpl; [reflexivity|].
  rewrite (rev_string_acc s (String c EmptyString)), rev_string_app, IH. reflexivity.
Qed.

Lemma lstrip_no_space (s : string) :
  Forall (fun c => Py.is_space c = false) (chars s) -> Py.lstrip s = s.
Proof.
  destruct s as [|c s]; simpl; [reflexivity|].
  intros H. inversion H as [|? ? Hc _]; subst. now rewrite Hc.
Qed.

Lemma strip_no_space (s : string) :
  Forall (fun c => Py.is_space c = false) (chars s) -> Py.strip s = s.
Proof.
  intros H. unfold Py.strip. rewrite (lstrip_no_space s H).
  rewrite lstrip_no_space; [apply rev_string_involutive|].
  rewrite chars_rev_string, app_nil_r. now apply Forall_rev.
Qed.

Lemma uint_no_space (d : Decimal.uint) :
  Forall (fun c => Py.is_space c = false) (chars (NilEmpty.string_of_uint d)).
Proof. induction d; simpl; constructor; auto. Qed.

Lemma uint_no_space_0 (d : Decimal.uint) :
  Forall (fun c => Py.is_space c = false) (chars (NilZero.string_of_uint d)).
Proof.
  destruct d; try exact (uint_no_space _).
  simpl. repeat constructor.
Qed.

Lemma uint_starts_with_digit (d : Decimal.uint) :
  exists c t, NilZero.string_of_uint d = String c t /\ Py.is_digit c = true.
Proof. destruct d; simpl; eexists _, _; split; reflexivity. Qed.

Lemma int_of_uint (d : Decimal.uint) :
  Py.int (NilZero.string_of_uint d) = Some (Z.of_uint d).
Proof.
  unfold Py.int. rewrite (strip_no_space _ (uint_no_space_0 d)).
  rewrite <- unsigned_of_uint.
  destruct (uint_starts_with_digit d) as (c & t & -> & Hc).
  destruct c as [[] [] [] [] [] [] [] []]; try discriminate Hc; reflexivity.
Qed.

(** [int(str(n)) == n] *)
Lemma int_str (n : Z) : Py.int (Py.str n) = Some n.
Proof.
  unfold Py.str. rewrite <- (DecimalZ.of_to n) at 2.
  destruct (Z.to_int n) as [d | d]; simpl.
  - apply int_of_uint.
  - unfold Py.int.
    assert (Hs : Py.strip (String "-" (NilZero.string_of_uint d))
                 = String "-" (NilZero.string_of_uint d)).
    { apply strip_no_space. simpl. constructor; [reflexivity | apply uint_no_space_0]. }
    rewrite Hs, unsigned_of_uint. reflexivity.
Qed.

Section Identifiers.

Variable san : string -> string.

(** X12: when the image identifier of the QC row of a visit is written
    'I' followed by the decimal digits of a number, some 'Original'
    row of that image identifier is not an early-frame acquisition, and
    the row appended is flagged as original, the directory looked for
    in the archive bears the image identifier of the QC row. *)
Theorem raw_directory_named_after_qc_identifier
    (subj : string) (meta : list MetaRow) (qcs : list QCRow) (visit : string)
    (row : PetRow) (qc : QCRow) (n : Z) :
  resolve_visit san subj meta qcs visit = Next row ->
  resolve_candidate subj visit meta
    (filter (fun q => String.eqb (VISCODE2 q) visit) qcs) = Next qc ->
  LONIUID qc = ("I" ++ Py.str n)%string ->
  (exists m, In m meta /\ raw_by_image_id n m) ->
  pet_Original row = true ->
  ("I" ++ pet_Image_ID row)%string = LONIUID qc.
Proof.
  intros Hv Hc Hid [m0 [Hm0 HP0]] Horig.
  destruct (resolve_visit_Next _ _ _ _ _ _ Hv) as (qc' & orig & Hc' & Hm & Hrow).
  rewrite Hc in Hc'. injection Hc' as <-.
  assert (Hint : Py.int (Py.slice_from_1 (LONIUID qc)) = Some n).
  { rewrite Hid. simpl. apply int_str. }
  assert (Himg : Image_ID orig = n).
  { destruct (match_original_cases subj meta qc n Hint)
      as [(m & Hm' & H1) | [(m & Hm' & Hno1 & _) | (Hm' & Hno1 & _)]].
    - rewrite Hm in Hm'. injection Hm' as <-.
      destruct (first_such_In _ _ _ H1) as [_ (_ & Hi & _)]. exact Hi.
    - exfalso. exact (Hno1 m0 Hm0 HP0).
    - exfalso. exact (Hno1 m0 Hm0 HP0). }
  simpl in Hrow.
  destruct (prefer_averaged_cases meta orig) as [[Hp _] | (d & Hp & _)];
    rewrite Hp in Hrow; simpl in Hrow; rewrite Hrow in Horig |- *; simpl in Horig |- *.
  - now rewrite Hid, Himg.
  - discriminate Horig.
Qed.

End Identifiers.

Lemma raw_directory_named_after_qc_identifier_witness :
  ("I" ++ pet_Image_ID unresolved_row)%string = LONIUID (sample_qc "I200").
Proof.
  apply (raw_directory_named_after_qc_identifier underscore_unsafe
           sample_subject meta_5_7 qc_5_7 "m24" unresolved_row (sample_qc "I200") 200).
  - reflexivity.
  - reflexivity.
  - reflexivity.
  - exists (sample_meta 200 7 "AV45" "Original"). split; [simpl; tauto|].
    split; [reflexivity|]. split; [reflexivity|]. now apply not_early_iff.
  - reflexivity.
Defined.

(** An identifier written with a leading zero is read as the same
    number, and the directory looked for is written without it. *)
Example leading_zero_identifier :
  resolve_visit underscore_unsafe sample_subject meta_5_7 [sample_qc "I0200"] "m24"
  = Next unresolved_row /\
  ("I" ++ pet_Image_ID unresolved_row)%string = "I200".
Proof. split; reflexivity. Qed.

(** * Conversion to BIDS *)

(** ** Traces *)

Lemma adds_ret {A : Type} (Q : list call -> A + extern_exn -> Prop) (a : A) :
  Q [] (inl a) -> adds Q (io_ret a).
Proof. intros H h. exists []. simpl. now rewrite app_nil_r. Qed.

Lemma adds_bind {A B : Type} (Q1 : list call -> A + extern_exn -> Prop)
    (Q2 : A -> list call -> B + extern_exn -> Prop)
    (Q : list call -> B + extern_exn -> Prop) (m : io A) (k : A -> io B) :
  adds Q1 m ->
  (forall a, adds (Q2 a) (k a)) ->
  (forall n1 a n2 r, Q1 n1 (inl a) -> Q2 a n2 r -> Q (n1 ++ n2)%list r) ->
  (forall n1 e, Q1 n1 (inr e) -> Q n1 (inr e)) ->
  adds Q (io_bind m k).
Proof.
  intros Hm Hk Hok Herr h. unfold io_bind.
  destruct (Hm h) as [n1 [H1 HQ1]]. destruct (m h) as [h1 [a | e]]; simpl in *.
  - destruct (Hk a h1) as [n2 [H2 HQ2]]. exists (n1 ++ n2)%list. subst h1.
    split; [now rewrite H2, app_assoc | now apply (Hok n1 a n2)].
  - exists n1. split; [exact H1 | now apply Herr].
Qed.

Lemma adds_extern {A : Type} (Q : list call -> A + extern_exn -> Prop)
    (c : call) (answer : list call -> A + extern_exn) :
  (forall r, Q [c] r) -> adds Q (extern c answer).
Proof. intros H h. exists [c]. split; [reflexivity | apply H]. Qed.

Lemma adds_extern_total {A : Type} (Q : list call -> A + extern_exn -> Prop)
    (c : call) (answer : list call -> A) :
  (forall a, Q [c] (inl a)) -> adds Q (extern_total c answer).
Proof. intros H h. exists [c]. split; [reflexivity | apply H]. Qed.

Lemma adds_weaken {A : Type} (Q Q' : list call -> A + extern_exn -> Prop) (m : io A) :
  adds Q m -> (forall n r, Q n r -> Q' n r) -> adds Q' m.
Proof.
  intros H HQ h. destruct (H h) as [n [H1 H2]]. exists n. split; [exact H1 | now apply HQ].
Qed.

Section Emits.

Variable E : environment.
Variable P : call -> Prop.

Lemma emits_ret {A : Type} (a : A) : emits P (io_ret a).
Proof. apply adds_ret. constructor. Qed.

Lemma emits_bind {A B : Type} (m : io A) (k : A -> io B) :
  emits P m -> (forall a, emits P (k a)) -> emits P (io_bind m k).
Proof.
  intros Hm Hk.
  apply (adds_bind (fun new _ => Forall P new) (fun _ new _ => Forall P new)
                   (fun new _ => Forall P new) m k Hm Hk).
  - intros n1 a n2 r H1 H2. apply Forall_app. now split.
  - intros n1 e H1. exact H1.
Qed.

Lemma emits_extern {A : Type} (c : call) (answer : list call -> A + extern_exn) :
  P c -> emits P (extern c answer).
Proof. intros H. apply adds_extern. intros _. now constructor. Qed.

Lemma emits_extern_total {A : Type} (c : call) (answer : list call -> A) :
  P c -> emits P (extern_total c answer).
Proof. intros H. apply adds_extern_total. intros _. now constructor. Qed.

Lemma emits_cprint (msg : string) : P (Cprint msg) -> emits P (cprint msg).
Proof. apply emits_extern_total. Qed.

Lemma emits_remove_all (paths : list string) :
  Forall (fun p => P (Remove p)) paths -> emits P (remove_all E paths).
Proof.
  induction 1 as [|p l Hp _ IH]; simpl; [apply emits_ret|].
  apply emits_bind; [now apply emits_extern | intros _; exact IH].
Qed.

Lemma emits_makedirs (output_path : string) :
  P (Makedirs output_path) -> P (Isdir output_path) ->
  emits P (makedirs_exist_ok E output_path).
Proof.
  intros H1 H2 h. unfold makedirs_exist_ok.
  destruct (makedirs E h output_path) as [u | [|name]].
  - exists [Makedirs output_path]. split; [reflexivity | now constructor].
  - exists [Makedirs output_path; Isdir output_path].
    destruct (isdir E _ output_path); simpl; rewrite <- app_assoc;
      (split; [reflexivity | now repeat constructor]).
  - exists [Makedirs output_path]. split; [reflexivity | now constructor].
Qed.

End Emits.

Ltac emits_auto :=
  repeat match goal with
  | |- emits _ (io_bind _ _) => apply emits_bind; [|intros ?]
  | |- emits _ (io_ret _) => apply emits_ret
  | |- emits _ (cprint _) => apply emits_cprint
  | |- emits _ (extern _ _) => apply emits_extern
  | |- emits _ (extern_total _ _) => apply emits_extern_total
  | |- emits _ (makedirs_exist_ok _ _) => apply emits_makedirs
  | |- emits _ (remove_all _ _) => apply emits_remove_all
  | |- emits _ (if negb ?b then _ else _) => destruct b; cbn [negb]
  | |- emits _ (if ?b then _ else _) => destruct b
  end.

Lemma endswith_nii_join (output_path name : string) :
  Py.endswith (Py.path_join output_path (name ++ ".nii")) ".nii" = true.
Proof. apply endswith_path_join, endswith_app. reflexivity. Qed.

Section Conversion.

Variable E : environment.

(** What a row emits, for a property that holds of every call but
    commands and removals, and of the commands and removals it makes. *)
Lemma emits_convert_row (P : call -> Prop)
    (bids_dir dcm2niix dcm2nii : string) (mod_to_update : bool)
    (total count : Z) (image : ImageRow) :
  (forall c, is_system c = false -> is_cleanup c = false ->
             (forall p, c <> Remove p) -> P c) ->
  (Is_Dicom image = true -> forall cmd, P (System cmd)) ->
  (forall p, Py.endswith p ".nii" = true -> P (Remove p)) ->
  (mod_to_update = true -> forall p, P (Remove p)) ->
  emits P (convert_row E bids_dir dcm2niix dcm2nii mod_to_update total count image).
Proof.
  intros Hother Hsys Hnii Hupd. unfold convert_row.
  destruct (Is_Dicom image) eqn:Ed; destruct mod_to_update; cbn [andb negb];
    emits_auto;
    try (apply Hother; [reflexivity | reflexivity | discriminate]);
    try (apply Hsys; reflexivity);
    try (apply Hnii; apply endswith_nii_join);
    try (apply Forall_forall; intros p _; apply Hupd; reflexivity).
Qed.

Lemma emits_convert_rows (P : call -> Prop)
    (bids_dir dcm2niix dcm2nii : string) (mod_to_update : bool)
    (total count : Z) (images : list ImageRow) :
  (forall c, is_system c = false -> is_cleanup c = false ->
             (forall p, c <> Remove p) -> P c) ->
  (forall cmd, Exists (fun r => Is_Dicom r = true) images -> P (System cmd)) ->
  (forall p, Py.endswith p ".nii" = true -> P (Remove p)) ->
  (mod_to_update = true -> forall p, P (Remove p)) ->
  emits P (convert_rows E bids_dir dcm2niix dcm2nii mod_to_update total count images).
Proof.
  intros Hother Hsys Hnii Hupd. revert count.
  induction images as [|image rest IH]; intros count; simpl; [apply emits_ret|].
  apply emits_bind.
  - apply emits_convert_row;
      [exact Hother | intros Hd cmd; apply Hsys; now left | exact Hnii | exact Hupd].
  - intros _. apply IH. intros cmd Hex. apply Hsys. now right.
Qed.

(** X13: unless [mod_to_update] is set, the conversion removes nothing
    but intermediate files whose names end in '.nii'. *)
Theorem removes_only_intermediate_files (images : list ImageRow)
    (bids_dir dcm2niix dcm2nii : string) (h : list call) :
  exists new,
    fst (av45_pet_paths_to_bids E images bids_dir dcm2niix dcm2nii false h)
    = (h ++ new)%list /\
    forall path, In (Remove path) new -> Py.endswith path ".nii" = true.
Proof.
  assert (H : emits removes_nii_only
                (av45_pet_paths_to_bids E images bids_dir dcm2niix dcm2nii false)).
  { unfold av45_pet_paths_to_bids. apply emits_bind.
    - apply emits_convert_rows.
      + intros [] Hs Hc Hr; simpl; auto. exfalso. now apply (Hr path).
      + intros; exact I.
      + intros p Hp. exact Hp.
      + discriminate.
    - intros _. apply emits_extern. exact I. }
  destruct (H h) as [new [Hnew Hall]]. exists new. split; [exact Hnew|].
  intros path Hin. rewrite Forall_forall in Hall. exact (Hall (Remove path) Hin).
Qed.

(** ** Converter commands *)

Lemma commands_app (l1 l2 : list call) :
  commands (l1 ++ l2) = (commands l1 + commands l2)%nat.
Proof. unfold commands. now rewrite filter_app, length_app. Qed.

Lemma bounded_bind {A B : Type} (n1 n2 : nat) (m : io A) (k : A -> io B) :
  bounded n1 m -> (forall a, bounded n2 (k a)) -> bounded (n1 + n2) (io_bind m k).
Proof.
  intros Hm Hk.
  apply (adds_bind (fun new _ => (commands new <= n1)%nat)
                   (fun _ new _ => (commands new <= n2)%nat) _ m k Hm Hk).
  - intros l1 a l2 r H1 H2. rewrite commands_app. lia.
  - intros l1 e H1. lia.
Qed.

Lemma bounded_weaken {A : Type} (n n' : nat) (m : io A) :
  bounded n m -> (n <= n')%nat -> bounded n' m.
Proof. intros H Hle. apply (adds_weaken _ _ m H). intros l _ Hl. lia. Qed.

Lemma bounded_of_emits {A : Type} (m : io A) :
  emits (fun c => is_system c = false) m -> bounded 0 m.
Proof.
  intros H. apply (adds_weaken _ _ m H). intros l _ Hl. unfold commands.
  induction Hl as [|c l Hc _ IH]; simpl; [lia|]. now rewrite Hc.
Qed.

Lemma bounded_system (cmd : string) :
  bounded 1 (extern_total (System cmd) (fun _ : list call => tt)).
Proof. apply adds_extern_total. intros _. unfold commands. simpl. lia. Qed.

Ltac quiet :=
  apply bounded_of_emits; emits_auto; reflexivity.

Lemma bounded_convert_row (bids_dir dcm2niix dcm2nii : string) (mod_to_update : bool)
    (total count : Z) (image : ImageRow) :
  bounded (if Is_Dicom image then 2 else 0)
          (convert_row E bids_dir dcm2niix dcm2nii mod_to_update total count image).
Proof.
  destruct (Is_Dicom image) eqn:Ed.
  - unfold convert_row. rewrite Ed. cbn [negb].
    apply (bounded_bind 0 2); [quiet | intros _].
    apply (bounded_bind 0 2); [quiet | intros session].
    apply (bounded_bind 0 2); [quiet | intros image_path].
    apply (bounded_bind 0 2); [quiet | intros existing].
    apply (bounded_bind 0 2);
      [apply bounded_of_emits; emits_auto;
       try reflexivity; apply Forall_forall; reflexivity | intros _].
    apply (bounded_bind 0 2); [quiet | intros _].
    apply (bounded_bind 1 1); [apply bounded_system | intros _].
    apply (bounded_bind 0 1); [quiet | intros converted].
    destruct converted.
    + apply (bounded_weaken 0); [quiet | lia].
    + apply (bounded_bind 0 1); [quiet | intros _].
      apply (bounded_bind 1 0); [apply bounded_system | intros _]. quiet.
  - apply bounded_of_emits. apply emits_convert_row.
    + intros c Hc _ _. exact Hc.
    + intros Hd. rewrite Ed in Hd. discriminate Hd.
    + reflexivity.
    + reflexivity.
Qed.

(** X14: the conversion runs at most two converter commands for every
    row marked as DICOM, and none for the other rows. *)
Theorem at_most_two_commands_per_dicom_row (images : list ImageRow)
    (bids_dir dcm2niix dcm2nii : string) (mod_to_update : bool) (h : list call) :
  exists new,
    fst (av45_pet_paths_to_bids E images bids_dir dcm2niix dcm2nii mod_to_update h)
    = (h ++ new)%list /\
    (commands new <= 2 * List.length (filter Is_Dicom images))%nat.
Proof.
  assert (Hloop : forall total count,
             bounded (2 * List.length (filter Is_Dicom images))
                     (convert_rows E bids_dir dcm2niix dcm2nii mod_to_update
                                   total count images)).
  { intros total. induction images as [|image rest IH]; intros count; simpl.
    - apply bounded_of_emits, emits_ret.
    - apply (bounded_weaken ((if Is_Dicom image then 2 else 0)
                             + 2 * List.length (filter Is_Dicom rest))).
      + apply bounded_bind; [apply bounded_convert_row | intros _; apply IH].
      + destruct (Is_Dicom image); simpl; lia. }
  assert (H : bounded (2 * List.length (filter Is_Dicom images) + 0)
                (av45_pet_paths_to_bids E images bids_dir dcm2niix dcm2nii mod_to_update)).
  { unfold av45_pet_paths_to_bids. apply bounded_bind; [apply Hloop | intros _].
    apply bounded_of_emits, emits_extern. reflexivity. }
  destruct (H h) as [new [Hnew Hb]]. exists new. split; [exact Hnew | lia].
Qed.

End Conversion.

(** ** Rows handed to the conversion *)

Lemma handing_bind {A B : Type} (l1 l2 l : list call) (m : io A) (k : A -> io B) :
  adds (fun new r => forall a, r = inl a -> filter is_handing new = l1) m ->
  (forall a, adds (fun new r => forall b, r = inl b -> filter is_handing new = l2) (k a)) ->
  l = (l1 ++ l2)%list ->
  adds (fun new r => forall b, r = inl b -> filter is_handing new = l) (io_bind m k).
Proof.
  intros Hm Hk ->.
  apply (adds_bind _ (fun _ new r => forall b, r = inl b -> filter is_handing new = l2)
                   _ m k Hm Hk).
  - intros n1 a n2 r H1 H2 b Hb. rewrite filter_app, (H1 a eq_refl), (H2 b Hb). reflexivity.
  - intros n1 e _ b Hb. discriminate Hb.
Qed.

Lemma handing_of_emits {A : Type} (m : io A) :
  emits (fun c => is_handing c = false) m ->
  adds (fun new r => forall a, r = inl a -> filter is_handing new = []) m.
Proof.
  intros H. apply (adds_weaken _ _ m H). intros l r Hl a _.
  induction Hl as [|c l Hc _ IH]; simpl; [reflexivity|]. now rewrite Hc.
Qed.

Lemma handing_extern {A : Type} (c : call) (answer : list call -> A + extern_exn) :
  is_handing c = true ->
  adds (fun new r => forall a, r = inl a -> filter is_handing new = [c]) (extern c answer).
Proof. intros H. apply adds_extern. intros r a _. simpl. now rewrite H. Qed.

Section Handing.

Variable E : environment.

Lemma handing_convert_row (bids_dir dcm2niix dcm2nii : string) (mod_to_update : bool)
    (total count : Z) (image : ImageRow) :
  adds (fun new r => forall u, r = inl u ->
                     filter is_handing new = handed bids_dir image)
       (convert_row E bids_dir dcm2niix dcm2nii mod_to_update total count image).
Proof.
  unfold convert_row, handed.
  eapply handing_bind;
    [apply handing_of_emits; emits_auto; reflexivity | intros _ | reflexivity].
  eapply handing_bind; [apply handing_extern; reflexivity | intros session | reflexivity].
  eapply (handing_bind
            (if Is_Dicom image
             then [CheckTwoDcmFolder (Path image) bids_dir (pet_Image_ID (img_row image))]
             else []) []).
  - destruct (Is_Dicom image).
    + apply handing_extern. reflexivity.
    + apply handing_of_emits, emits_ret.
  - intros image_path. apply handing_of_emits.
    destruct (Is_Dicom image); destruct mod_to_update; cbn [andb negb]; emits_auto;
      try reflexivity; apply Forall_forall; reflexivity.
  - now rewrite app_nil_r.
Qed.

Lemma handing_convert_rows (bids_dir dcm2niix dcm2nii : string) (mod_to_update : bool)
    (total count : Z) (images : list ImageRow) :
  adds (fun new r => forall u, r = inl u ->
                     filter is_handing new = flat_map (handed bids_dir) images)
       (convert_rows E bids_dir dcm2niix dcm2nii mod_to_update total count images).
Proof.
  revert count; induction images as [|image rest IH]; intros count; simpl.
  - apply adds_ret. reflexivity.
  - eapply handing_bind; [apply handing_convert_row | intros _; apply IH | reflexivity].
Qed.

(** X15: when the conversion returns, every row of the table was handed
    to it, in the order of the table: the visit code of every row was
    turned into a session, and the path of every row marked as DICOM,
    be it empty, was given to [check_two_dcm_folder]. *)
Theorem every_row_handed_to_conversion (images : list ImageRow)
    (bids_dir dcm2niix dcm2nii : string) (mod_to_update : bool) (h : list call) (u : unit) :
  snd (av45_pet_paths_to_bids E images bids_dir dcm2niix dcm2nii mod_to_update h) = inl u ->
  exists new,
    fst (av45_pet_paths_to_bids E images bids_dir dcm2niix dcm2nii mod_to_update h)
    = (h ++ new)%list /\
    filter is_handing new = flat_map (handed bids_dir) images.
Proof.
  intros Hu.
  assert (H : adds (fun new r => forall u, r = inl u ->
                       filter is_handing new = flat_map (handed bids_dir) images)
                (av45_pet_paths_to_bids E images bids_dir dcm2niix dcm2nii mod_to_update)).
  { unfold av45_pet_paths_to_bids.
    eapply handing_bind; [apply handing_convert_rows | intros _ | now rewrite app_nil_r].
    apply handing_of_emits, emits_extern. reflexivity. }
  destruct (H h) as [new [Hnew Hall]]. exists new. split; [exact Hnew|]. exact (Hall u Hu).
Qed.

(** X16: the temporary folder is removed once, as the last call and
    after the loop went through all the rows, or not at all, when the
    conversion of a row raised. *)
Theorem temporary_folder_removed_last (images : list ImageRow)
    (bids_dir dcm2niix dcm2nii : string) (mod_to_update : bool) (h : list call) :
  exists new,
    fst (av45_pet_paths_to_bids E images bids_dir dcm2niix dcm2nii mod_to_update h)
    = (h ++ new)%list /\
    ((exists before,
         new = (before ++ [RemoveTmpDmcFolder bids_dir])%list /\
         Forall (fun c => is_cleanup c = false) before /\
         filter is_handing before = flat_map (handed bids_dir) images)
     \/
     (Forall (fun c => is_cleanup c = false) new /\
      exists e, snd (av45_pet_paths_to_bids E images bids_dir dcm2niix dcm2nii
                                            mod_to_update h) = inr e)).
Proof.
  unfold av45_pet_paths_to_bids, io_bind.
  assert (Hc : emits (fun c => is_cleanup c = false)
                 (convert_rows E bids_dir dcm2niix dcm2nii mod_to_update
                               (Z.of_nat (List.length images)) 0 images)).
  { apply emits_convert_rows.
    - intros c _ Hcl _. exact Hcl.
    - reflexivity.
    - reflexivity.
    - reflexivity. }
  destruct (Hc h) as [n1 [H1 Hn1]].
  destruct (handing_convert_rows bids_dir dcm2niix dcm2nii mod_to_update
              (Z.of_nat (List.length images)) 0 images h) as [n1' [H1' Hh]].
  assert (n1' = n1) by (rewrite H1 in H1'; now apply app_inv_head in H1'). subst n1'.
  destruct (convert_rows E bids_dir dcm2niix dcm2nii mod_to_update
              (Z.of_nat (List.length images)) 0 images h) as [h1 [u | e]]; simpl in *.
  - exists (n1 ++ [RemoveTmpDmcFolder bids_dir])%list. subst h1.
    split; [now rewrite app_assoc|]. left. exists n1.
    split; [reflexivity|]. split; [exact Hn1 | exact (Hh u eq_refl)].
  - exists n1. split; [exact H1|]. right. split; [exact Hn1 | now exists e].
Qed.

End Handing.

(** ** Sample conversion *)

Example sample_conversion :
  av45_pet_paths_to_bids quiet_env [sample_image; mkImage unresolved_row true ""]
    "/bids" "dcm2niix" "dcm2nii" false []
  = ([Cprint "Processing subject 011_S_0021 - session m24, 1 / 2";
      ViscodeToSession "m24";
      Glob "/bids/sub-ADNI011S0021/ses-m24/pet/sub-ADNI011S0021_ses-m24_task-rest_acq-av45_pet*";
      Makedirs "/bids/sub-ADNI011S0021/ses-m24/pet";
      CenterNiftiOrigin
        "/adni/011_S_0021/AV45_Co-registered,_Averaged/2012-03-01_10_00_00.0/I4/ADNI_011_S_0021.nii"
        "/bids/sub-ADNI011S0021/ses-m24/pet/sub-ADNI011S0021_ses-m24_task-rest_acq-av45_pet.nii.gz";
      Cprint "Processing subject 011_S_0021 - session m24, 2 / 2";
      ViscodeToSession "m24";
      CheckTwoDcmFolder "" "/bids" "200";
      Glob "/bids/sub-ADNI011S0021/ses-m24/pet/sub-ADNI011S0021_ses-m24_task-rest_acq-av45_pet*";
      Makedirs "/bids/sub-ADNI011S0021/ses-m24/pet";
      System "dcm2niix -b n -z n -o /bids/sub-ADNI011S0021/ses-m24/pet -f sub-ADNI011S0021_ses-m24_task-rest_acq-av45_pet ";
      Isfile "/bids/sub-ADNI011S0021/ses-m24/pet/sub-ADNI011S0021_ses-m24_task-rest_acq-av45_pet.nii";
      CenterNiftiOrigin
        "/bids/sub-ADNI011S0021/ses-m24/pet/sub-ADNI011S0021_ses-m24_task-rest_acq-av45_pet.nii"
        "/bids/sub-ADNI011S0021/ses-m24/pet/sub-ADNI011S0021_ses-m24_task-rest_acq-av45_pet.nii.gz";
      Remove "/bids/sub-ADNI011S0021/ses-m24/pet/sub-ADNI011S0021_ses-m24_task-rest_acq-av45_pet.nii";
      RemoveTmpDmcFolder "/bids"],
     inl tt).
Proof. reflexivity. Qed.

Lemma every_row_handed_to_conversion_witness :
  exists new,
    fst (av45_pet_paths_to_bids quiet_env [sample_image; mkImage unresolved_row true ""]
           "/bids" "dcm2niix" "dcm2nii" false [])
    = ([] ++ new)%list /\
    filter is_handing new
    = flat_map (handed "/bids") [sample_image; mkImage unresolved_row true ""].
Proof.
  apply (every_row_handed_to_conversion quiet_env
           [sample_image; mkImage unresolved_row true ""]
           "/bids" "dcm2niix" "dcm2nii" false [] tt).
  reflexivity.
Defined.

(** * The pipeline engine *)

(** ** Building *)

Section Building.

Variables value node workflow : Type.
Variable E : Engine.world value node workflow.

Lemma postset_returns {A : Type} (set : Engine.Pipeline value workflow ->
                                        Engine.Pipeline value workflow)
    (func : Engine.method value workflow A)
    (s s' : Engine.Pipeline value workflow * list Engine.outside_call)
    (a : A) :
  Engine.postset set func s = (s', inl a) ->
  exists s1, func s = (s1, inl a) /\ s' = (set (fst s1), snd s1).
Proof.
  unfold Engine.postset, Engine.and_then, Engine.ret.
  destruct (func s) as [s1 [res | e]]; simpl; intros H; [|discriminate H].
  injection H as <- <-. now exists s1.
Qed.

Lemma postset_raises {A : Type} (set : Engine.Pipeline value workflow ->
                                       Engine.Pipeline value workflow)
    (func : Engine.method value workflow A)
    (s s' : Engine.Pipeline value workflow * list Engine.outside_call)
    (e : Engine.exception) :
  Engine.postset set func s = (s', inr e) -> func s = (s', inr e).
Proof.
  unfold Engine.postset, Engine.and_then, Engine.ret.
  destruct (func s) as [s1 [res | e1]]; simpl; intros H; [discriminate H | exact H].
Qed.

Lemma build_of_built (s : Engine.Pipeline value workflow * list Engine.outside_call) :
  Engine._is_built (fst s) = true ->
  Engine.build E s = ((Engine.set_is_built true (fst s), snd s), inl tt).
Proof.
  intros Hb. unfold Engine.build, Engine.postset, Engine.build_undecorated,
    Engine.and_then, Engine.get_self, Engine.ret. simpl. now rewrite Hb.
Qed.

(** X17: building is idempotent.  Once [build] has returned, [build]
    returns again without calling anything and without changing the
    object, whatever the methods of the subclass do. *)
Theorem build_idempotent (s s' : Engine.Pipeline value workflow * list Engine.outside_call)
    (u : unit) :
  Engine.build E s = (s', inl u) -> Engine.build E s' = (s', inl tt).
Proof.
  intros H. apply postset_returns in H. destruct H as [s1 [_ ->]].
  rewrite build_of_built; reflexivity.
Qed.

End Building.
(** ** Traces of the methods *)

Section Calls.

Variables value node workflow : Type.
Variable E : Engine.world value node workflow.
Variable P : Engine.outside_call -> Prop.

Lemma calls_ret {A : Type} (a : A) :
  Engine.calls P (@Engine.ret (Engine.Pipeline value workflow * list Engine.outside_call) A a).
Proof. intros s. exists []. simpl. now rewrite app_nil_r. Qed.

Lemma calls_raise {A : Type} (e : Engine.exception) :
  Engine.calls P (@Engine.raise (Engine.Pipeline value workflow * list Engine.outside_call) A e).
Proof. intros s. exists []. simpl. now rewrite app_nil_r. Qed.

Lemma calls_get_self : Engine.calls P (@Engine.get_self value workflow).
Proof. intros s. exists []. simpl. now rewrite app_nil_r. Qed.

Lemma calls_assign (set : Engine.Pipeline value workflow -> Engine.Pipeline value workflow) :
  Engine.calls P (fun s : Engine.Pipeline value workflow * list Engine.outside_call =>
                    ((set (fst s), snd s), @inl unit Engine.exception tt)).
Proof. intros s. exists []. simpl. now rewrite app_nil_r. Qed.

Lemma calls_bind {A B : Type} (m : Engine.method value workflow A)
    (k : A -> Engine.method value workflow B) :
  Engine.calls P m -> (forall a, Engine.calls P (k a)) -> Engine.calls P (Engine.and_then m k).
Proof.
  intros Hm Hk s. unfold Engine.and_then.
  destruct (Hm s) as [n1 [H1 HP1]]. destruct (m s) as [s1 [a | e]]; simpl in *.
  - destruct (Hk a s1) as [n2 [H2 HP2]]. exists (n1 ++ n2)%list.
    split; [now rewrite H2, H1, app_assoc | now apply Forall_app].
  - now exists n1.
Qed.

Lemma calls_outside {A : Type} (c : Engine.outside_call)
    (answer : list Engine.outside_call -> A + Engine.exception) :
  P c -> Engine.calls P (@Engine.outside value workflow A c answer).
Proof. intros H s. exists [c]. split; [reflexivity | now constructor]. Qed.

Lemma calls_outside_method {A : Type} (c : Engine.outside_call)
    (f : list Engine.outside_call -> Engine.Pipeline value workflow ->
         Engine.Pipeline value workflow * (A + Engine.exception)) :
  P c -> Engine.calls P (Engine.outside_method c f).
Proof. intros H s. exists [c]. split; [reflexivity | now constructor]. Qed.

Lemma calls_outside_reader {A : Type} (c : Engine.outside_call)
    (f : list Engine.outside_call -> Engine.Pipeline value workflow -> A + Engine.exception) :
  P c -> Engine.calls P (Engine.outside_reader c f).
Proof. intros H s. exists [c]. split; [reflexivity | now constructor]. Qed.

Lemma calls_observe {A : Type} (f : workflow -> A + Engine.exception) :
  Engine.calls P (@Engine.observe value workflow A f).
Proof. intros s. exists []. simpl. now rewrite app_nil_r. Qed.

Lemma calls_postset {A : Type}
    (set : Engine.Pipeline value workflow -> Engine.Pipeline value workflow)
    (func : Engine.method value workflow A) :
  Engine.calls P func -> Engine.calls P (Engine.postset set func).
Proof.
  intros H. unfold Engine.postset. apply calls_bind; [exact H | intros res].
  apply calls_bind; [apply calls_assign | intros _; apply calls_ret].
Qed.

Lemma calls_check_listed (deps : list Engine.dependency) :
  (forall name, P (Engine.CheckSoftware name)) ->
  (forall name, P (Engine.IsBinaryPresent name)) ->
  Engine.calls P (Engine.check_listed E deps).
Proof.
  intros Hs Hb. induction deps as [|d rest IH]; simpl; [apply calls_ret|].
  apply calls_bind; [|intros _; exact IH].
  unfold Engine.check_dependency.
  repeat match goal with
         | |- Engine.calls _ (if ?b then _ else _) => destruct b
         end;
    try apply calls_ret; try apply calls_raise.
  - apply calls_outside, Hs.
  - apply calls_bind; [apply calls_outside, Hb | intros _; apply calls_ret].
Qed.

Lemma calls_check_dependencies :
  (forall path, P (Engine.LoadJson path)) ->
  (forall name, P (Engine.CheckSoftware name)) ->
  (forall name, P (Engine.IsBinaryPresent name)) ->
  P Engine.CheckCustomDependencies ->
  Engine.calls P (Engine.check_dependencies E).
Proof.
  intros Hl Hs Hb Hc. unfold Engine.check_dependencies.
  apply calls_bind; [apply calls_get_self | intros self].
  apply calls_bind.
  - destruct (Engine.info_is_empty _); [|apply calls_ret].
    unfold Engine.load_info.
    apply calls_bind; [apply calls_get_self | intros self1].
    apply calls_bind; [apply calls_outside, Hl | intros loaded].
    apply calls_assign.
  - intros _. apply calls_bind; [apply calls_get_self | intros self1].
    destruct (Engine.dependencies _) as [deps|]; [|apply calls_raise].
    apply calls_bind; [now apply calls_check_listed | intros _].
    now apply calls_outside_method.
Qed.

Lemma calls_build :
  (forall c, c <> Engine.WorkflowRun -> c <> Engine.CheckSize -> P c) ->
  Engine.calls P (Engine.build E).
Proof.
  intros H. unfold Engine.build. apply calls_postset. unfold Engine.build_undecorated.
  apply calls_bind; [apply calls_get_self | intros self].
  destruct (negb _); [|apply calls_ret].
  apply calls_bind;
    [apply calls_check_dependencies; intros; apply H; discriminate | intros _].
  apply calls_bind.
  { unfold Engine.has_input_connections.
    apply calls_bind; [apply calls_get_self | intros self1].
    destruct (Engine.input_node _ _); [|apply calls_ret].
    apply calls_bind; [apply calls_observe | intros d; apply calls_ret]. }
  intros c1. apply calls_bind.
  { destruct (negb c1); [|apply calls_ret].
    apply calls_outside_method, H; discriminate. }
  intros _. apply calls_bind; [apply calls_outside_method, H; discriminate | intros _].
  apply calls_bind.
  { unfold Engine.has_output_connections.
    apply calls_bind; [apply calls_get_self | intros self1].
    destruct (Engine.output_node _ _); [|apply calls_ret].
    apply calls_bind; [apply calls_observe | intros d; apply calls_ret]. }
  intros c2. destruct (negb c2); [|apply calls_ret].
  apply calls_outside_method, H; discriminate.
Qed.

End Calls.

(** ** Running *)

Section Running.

Variables value node workflow : Type.
Variable E : Engine.world value node workflow.

(** X18: [Workflow.run] is only given a built pipeline that [check_size]
    has let through.  Either [run] ends as [Workflow.run] does, called
    on an object whose [is_built] is set, right after [check_size]
    returned for it; or [run] raises and [Workflow.run] was not
    called. *)
Theorem workflow_runs_a_built_pipeline (plugin plugin_args : option value)
    (update_hash : bool) (s : Engine.Pipeline value workflow * list Engine.outside_call) :
  (exists self h,
      Engine._is_built self = true /\
      Engine.check_size E h self = inl tt /\
      Engine.run E plugin plugin_args update_hash s
      = Engine.outside_method Engine.WorkflowRun
          (fun h self => Engine.workflow_run E h self plugin plugin_args update_hash)
          (self, (h ++ [Engine.CheckSize])%list))
  \/
  (exists e new,
      snd (Engine.run E plugin plugin_args update_hash s) = inr e /\
      snd (fst (Engine.run E plugin plugin_args update_hash s)) = (snd s ++ new)%list /\
      ~ In Engine.WorkflowRun new).
Proof.
  assert (Hsize : forall self h,
             Engine._is_built self = true ->
             (exists self' h',
                 Engine._is_built self' = true /\
                 Engine.check_size E h' self' = inl tt /\
                 Engine.and_then (Engine.outside_reader Engine.CheckSize (Engine.check_size E))
                   (fun _ => Engine.outside_method Engine.WorkflowRun
                      (fun h self => Engine.workflow_run E h self plugin plugin_args
                                                          update_hash)) (self, h)
                 = Engine.outside_method Engine.WorkflowRun
                     (fun h self => Engine.workflow_run E h self plugin plugin_args
                                                         update_hash)
                     (self', (h' ++ [Engine.CheckSize])%list))
             \/
             (exists e,
                 Engine.and_then (Engine.outside_reader Engine.CheckSize (Engine.check_size E))
                   (fun _ => Engine.outside_method Engine.WorkflowRun
                      (fun h self => Engine.workflow_run E h self plugin plugin_args
                                                          update_hash)) (self, h)
                 = ((self, (h ++ [Engine.CheckSize])%list), inr e))).
  { intros self h Hb. unfold Engine.and_then, Engine.outside_reader. simpl.
    destruct (Engine.check_size E h self) as [[] | e] eqn:Hc.
    - left. exists self, h. now repeat split.
    - right. now exists e. }
  set (rest := Engine.and_then (Engine.outside_reader Engine.CheckSize (Engine.check_size E))
                 (fun _ => Engine.outside_method Engine.WorkflowRun
                    (fun h self => Engine.workflow_run E h self plugin plugin_args
                                                        update_hash))) in *.
  assert (Hrun : Engine.run E plugin plugin_args update_hash s
                 = Engine.and_then (if negb (Engine._is_built (fst s))
                                then Engine.build E else Engine.ret tt)
                               (fun _ => rest) s) by reflexivity.
  rewrite Hrun. clear Hrun. destruct s as [self h]. cbn [fst snd].
  destruct (Engine._is_built self) eqn:Hb; cbn [negb].
  - change (Engine.and_then (Engine.ret tt) (fun _ => rest) (self, h)) with (rest (self, h)).
    destruct (Hsize self h Hb) as [[self' [h' [Hb' [Hc' Heq]]]] | [e Heq]].
    + left. exists self', h'. now repeat split.
    + right. exists e, [Engine.CheckSize]. rewrite Heq. simpl.
      repeat split. intros [H | []]. discriminate H.
  - destruct (calls_build value node workflow E (fun c => c <> Engine.WorkflowRun)
                (fun c H _ => H) (self, h)) as [new [Hnew Hall]].
    unfold Engine.and_then.
    destruct (Engine.build E (self, h)) as [s1 [u | e]] eqn:Hbuild.
    + apply postset_returns in Hbuild. destruct Hbuild as [s0 [_ Hs1]].
      destruct s1 as [self1 h1]. injection Hs1 as -> ->.
      destruct (Hsize (Engine.set_is_built true (fst s0)) (snd s0) eq_refl)
        as [[self' [h' [Hb' [Hc' Heq]]]] | [e Heq]].
      * left. exists self', h'. now repeat split.
      * right. exists e, (new ++ [Engine.CheckSize])%list. rewrite Heq.
        cbn [fst snd] in *. rewrite Hnew, app_assoc. repeat split.
        intros Hin. apply in_app_or in Hin. destruct Hin as [Hin | [Hin | []]].
        -- rewrite Forall_forall in Hall. now apply (Hall _ Hin).
        -- discriminate Hin.
    + right. exists e, new. cbn [fst snd] in *. repeat split; [exact Hnew|].
      intros Hin. rewrite Forall_forall in Hall. now apply (Hall _ Hin).
Qed.

End Running.
(** ** Checking the dependencies *)

Section Dependencies.

Variables value node workflow : Type.
Variable E : Engine.world value node workflow.

Lemma check_dependency_outcome (d : Engine.dependency)
    (s : Engine.Pipeline value workflow * list Engine.outside_call) :
  exists new,
    fst (Engine.check_dependency E d s) = (fst s, (snd s ++ new)%list) /\
    (forall u, snd (Engine.check_dependency E d s) = inl u ->
               new = Engine.checks [d] /\ Engine.known_type d = true).
Proof.
  destruct s as [self h]. unfold Engine.check_dependency, Engine.checks, Engine.known_type.
  cbn [flat_map existsb fst snd].
  destruct (String.eqb (Engine.dep_type d) "software") eqn:Hs.
  - destruct (existsb _ Engine.check_software_keys).
    + exists [Engine.CheckSoftware (Engine.dep_name d)]. now split.
    + exists []. cbn. rewrite app_nil_r. split; [reflexivity | discriminate].
  - destruct (String.eqb (Engine.dep_type d) "binary") eqn:Hb.
    + exists [Engine.IsBinaryPresent (Engine.dep_name d)].
      unfold Engine.and_then, Engine.outside. cbn [fst snd].
      destruct (Engine.is_binary_present E h (Engine.dep_name d)); now split.
    + destruct (String.eqb (Engine.dep_type d) "toolbox") eqn:Ht;
        [exists []; cbn; rewrite app_nil_r; now split|].
      destruct (String.eqb (Engine.dep_type d) "pipeline") eqn:Hp;
        [exists []; cbn; rewrite app_nil_r; now split|].
      exists []. cbn. rewrite app_nil_r. split; [reflexivity | discriminate].
Qed.

Lemma checks_cons (d : Engine.dependency) (deps : list Engine.dependency) :
  Engine.checks (d :: deps) = (Engine.checks [d] ++ Engine.checks deps)%list.
Proof. unfold Engine.checks. simpl. now rewrite app_nil_r. Qed.

(** The loop leaves the object as it is; when it returns, it has made
    the checks of all the entries, the types of which it knows. *)
Lemma check_listed_outcome (deps : list Engine.dependency)
    (s : Engine.Pipeline value workflow * list Engine.outside_call) :
  exists new,
    fst (Engine.check_listed E deps s) = (fst s, (snd s ++ new)%list) /\
    (forall u, snd (Engine.check_listed E deps s) = inl u ->
               new = Engine.checks deps /\ forallb Engine.known_type deps = true).
Proof.
  revert s. induction deps as [|d rest IH]; intros s.
  - exists []. destruct s. cbn. rewrite app_nil_r. now split.
  - cbn [Engine.check_listed]. unfold Engine.and_then.
    destruct (check_dependency_outcome d s) as [n1 [H1 K1]].
    destruct (Engine.check_dependency E d s) as [s1 [u1 | e]]; cbn [fst snd] in *.
    + destruct (IH s1) as [n2 [H2 K2]]. exists (n1 ++ n2)%list. subst s1.
      cbn [fst snd] in *. split; [now rewrite H2, app_assoc|].
      intros u Hu. destruct (K1 u1 eq_refl) as [-> Hd]. destruct (K2 u Hu) as [-> Hr].
      split; [symmetry; apply checks_cons | cbn [forallb]; now rewrite Hd, Hr].
    + exists n1. split; [exact H1 | discriminate].
Qed.

Lemma check_dependencies_of_listed (deps : list Engine.dependency)
    (s : Engine.Pipeline value workflow * list Engine.outside_call) :
  Engine.dependencies (Engine._info (fst s)) = Some deps ->
  Engine.check_dependencies E s
  = Engine.and_then (Engine.check_listed E deps)
                (fun _ => Engine.outside_method Engine.CheckCustomDependencies
                            (Engine.check_custom_dependencies E)) s.
Proof.
  intros Hd. destruct s as [self h]. cbn [fst] in Hd.
  unfold Engine.check_dependencies.
  unfold Engine.and_then at 1. unfold Engine.get_self at 1. cbn [fst snd].
  unfold Engine.info_is_empty. rewrite Hd.
  unfold Engine.and_then at 1. unfold Engine.ret at 1.
  unfold Engine.and_then at 1. unfold Engine.get_self at 1. cbn [fst snd].
  now rewrite Hd.
Qed.

(** X19: when [check_dependencies] returns, the calls it made are the
    loading of [info.json], if [info] was empty, then the checks of
    the entries listed under ['dependencies'] of type 'software' or
    'binary', in the order of the list, then the checks of the
    subclass; the entries of type 'toolbox' or 'pipeline' are listed
    and not checked, and no entry has another type. *)
Theorem listed_dependencies_checked
    (s s' : Engine.Pipeline value workflow * list Engine.outside_call) (u : unit) :
  Engine.check_dependencies E s = (s', inl u) ->
  exists loading i deps,
    (if Engine.info_is_empty (Engine._info (fst s))
     then loading = [Engine.LoadJson (Engine._info_file (fst s))] /\
          Engine.json_load E (snd s) (Engine._info_file (fst s)) = inl i
     else loading = [] /\ i = Engine._info (fst s)) /\
    Engine.dependencies i = Some deps /\
    forallb Engine.known_type deps = true /\
    snd s' = (snd s ++ loading ++ Engine.checks deps
              ++ [Engine.CheckCustomDependencies])%list.
Proof.
  assert (Hloop : forall deps s0,
             Engine.and_then (Engine.check_listed E deps)
               (fun _ => Engine.outside_method Engine.CheckCustomDependencies
                           (Engine.check_custom_dependencies E)) s0 = (s', inl u) ->
             forallb Engine.known_type deps = true /\
             snd s' = (snd s0 ++ Engine.checks deps
                       ++ [Engine.CheckCustomDependencies])%list).
  { intros deps s0. unfold Engine.and_then.
    destruct (check_listed_outcome deps s0) as [new [H1 K1]].
    destruct (Engine.check_listed E deps s0) as [s1 [u1 | e]]; [|discriminate].
    cbn [fst snd] in *. destruct (K1 u1 eq_refl) as [-> Hk]. subst s1.
    unfold Engine.outside_method. cbn [fst snd]. intros H. injection H as <- _.
    cbn [snd]. split; [exact Hk | now rewrite app_assoc]. }
  destruct s as [self h]. cbn [fst snd].
  destruct (Engine.info_is_empty (Engine._info self)) eqn:Hempty.
  - unfold Engine.check_dependencies.
    unfold Engine.and_then at 1. unfold Engine.get_self at 1. cbn [fst snd]. rewrite Hempty.
    unfold Engine.and_then at 1. unfold Engine.load_info.
    unfold Engine.and_then at 1. unfold Engine.get_self at 1. cbn [fst snd].
    unfold Engine.and_then at 1. unfold Engine.outside at 1. cbn [fst snd].
    destruct (Engine.json_load E h (Engine._info_file self)) as [i | e] eqn:Hload;
      [|discriminate].
    unfold Engine.and_then at 1. unfold Engine.get_self at 1.
    cbn [fst snd Engine.set_info Engine._info].
    destruct (Engine.dependencies i) as [deps|] eqn:Hdeps; [|discriminate].
    intros H. apply Hloop in H. destruct H as [Hk Ht]. cbn [snd] in Ht.
    exists [Engine.LoadJson (Engine._info_file self)], i, deps.
    repeat split; try assumption. now rewrite Ht, <- app_assoc.
  - destruct (Engine.dependencies (Engine._info self)) as [deps|] eqn:Hdeps.
    + rewrite (check_dependencies_of_listed deps (self, h) Hdeps).
      intros H. apply Hloop in H. destruct H as [Hk Ht].
      exists [], (Engine._info self), deps. now repeat split.
    + unfold Engine.check_dependencies.
      unfold Engine.and_then at 1. unfold Engine.get_self at 1. cbn [fst snd]. rewrite Hempty.
      unfold Engine.and_then at 1. unfold Engine.ret at 1.
      unfold Engine.and_then at 1. unfold Engine.get_self at 1. cbn [fst snd]. rewrite Hdeps.
      discriminate.
Qed.








End Dependencies.

(** ** Construction *)

Section Construction.

Variables value node workflow : Type.
Variable E : Engine.world value node workflow.

(** What [get_subject_session_list] returns: the sessions first. *)
Lemma get_subject_session_list_returns (input_dir : string) (ss_file : option string)
    (is_bids_dir use_session_tsv : bool) (h h' : list Engine.outside_call)
    (pair : list value * list value) :
  Engine.get_subject_session_list E input_dir ss_file is_bids_dir use_session_tsv h
  = (h', inl pair) ->
  exists before path ss_df,
    h' = (before ++ [Engine.ReadCsv path Engine.tab])%list /\
    Engine.read_csv E before path Engine.tab = inl ss_df /\
    Engine.column "participant_id" ss_df = Some (snd pair) /\
    Engine.column "session_id" ss_df = Some (fst pair) /\
    (forall given, ss_file = Some given -> given <> "" -> path = given /\ before = h).
Proof.
  unfold Engine.get_subject_session_list. unfold Engine.and_then at 1.
  destruct (Engine.subjects_sessions_file E input_dir ss_file is_bids_dir use_session_tsv h)
    as [h1 [path | e]] eqn:Hfile; [|discriminate].
  unfold Engine.and_then at 1. unfold Engine.called at 1.
  destruct (Engine.read_csv E h1 path Engine.tab) as [ss_df | e] eqn:Hread; [|discriminate].
  destruct (Engine.has_column "participant_id" ss_df); cbn [negb]; [|discriminate].
  destruct (Engine.has_column "session_id" ss_df); cbn [negb]; [|discriminate].
  destruct (Engine.column "participant_id" ss_df) as [subjects|] eqn:Hp; [|discriminate].
  destruct (Engine.column "session_id" ss_df) as [sessions|] eqn:Hs; [|discriminate].
  unfold Engine.ret. intros H. injection H as <- <-.
  exists h1, path, ss_df.
  split; [reflexivity|]. split; [exact Hread|]. split; [exact Hp|]. split; [exact Hs|].
  intros given -> Hne. unfold Engine.subjects_sessions_file in Hfile.
  apply String.eqb_neq in Hne. rewrite Hne in Hfile. unfold Engine.ret in Hfile.
  injection Hfile as <- <-. now split.
Qed.

(** X22: the subjects of a pipeline are the participants.
    [get_subject_session_list] returns the sessions before the
    subjects and [__init__] unpacks them in that order: when [__init__]
    gets to [init_nodes], [_subjects] is the column 'participant_id'
    and [_sessions] the column 'session_id' of the table read by the
    last call made, from the TSV file given when there is one. *)
Theorem subjects_are_participants (class_name class_dir : string) (fresh : workflow)
    (bids_directory caps_directory tsv_file name : option string)
    (h h' : list Engine.outside_call) (self : Engine.Pipeline value workflow) :
  Engine.init_attributes E class_name class_dir fresh
                         bids_directory caps_directory tsv_file name h = (h', inl self) ->
  exists before path ss_df,
    h' = (before ++ [Engine.ReadCsv path Engine.tab])%list /\
    Engine.read_csv E before path Engine.tab = inl ss_df /\
    Engine.column "participant_id" ss_df = Some (Engine._subjects self) /\
    Engine.column "session_id" ss_df = Some (Engine._sessions self) /\
    (forall given, tsv_file = Some given -> given <> "" -> path = given).
Proof.
  unfold Engine.init_attributes.
  destruct bids_directory as [dir|];
    [|destruct caps_directory as [dir|]; [|discriminate]];
    (unfold Engine.and_then at 1; unfold Engine.called at 1;
     destruct (Engine.path_isdir E h dir); cbn [negb]; [|discriminate];
     unfold Engine.and_then at 1;
     match goal with
     | |- context [Engine.get_subject_session_list E dir tsv_file ?b false ?h0] =>
         destruct (Engine.get_subject_session_list E dir tsv_file b false h0)
           as [h1 [pair | e]] eqn:Hlist; [|discriminate]
     end;
     unfold Engine.ret; intros H; injection H as <- <-;
     apply get_subject_session_list_returns in Hlist;
     destruct Hlist as [before [path [ss_df [Hh [Hread [Hp [Hs Hgiven]]]]]]];
     exists before, path, ss_df;
     split; [exact Hh|]; split; [exact Hread|]; split; [exact Hp|]; split; [exact Hs|];
     intros given Ht Hne; now apply (Hgiven given Ht Hne)).
Qed.

End Construction.
(** ** Sample runs of the engine *)

Example sample_construction :
  Engine.__init__ Engine.sample_world "T1Linear" "/clinica/pipelines/t1" tt
                  (Some "/bids") None None None []
  = ([Engine.IsDir "/bids"; Engine.Mkdtemp; Engine.Strftime "%Y%m%d_%H%M%S";
      Engine.CreateSubsSessList "/bids" "/tmp/tmpq1w2e3"
        "20190301_101500_subjects_sessions_list.tsv" true false;
      Engine.ReadCsv "/tmp/tmpq1w2e3/20190301_101500_subjects_sessions_list.tsv" Engine.tab;
      Engine.InitNodes],
     inl (Engine.sample_pipeline (Engine.mkInfo None []))).
Proof. reflexivity. Qed.

Example sample_build :
  Engine.build Engine.sample_world (Engine.sample_pipeline (Engine.mkInfo None []), [])
  = ((Engine.set_is_built true (Engine.sample_pipeline Engine.sample_info),
      [Engine.LoadJson "/clinica/pipelines/t1/info.json";
       Engine.CheckSoftware "ants"; Engine.IsBinaryPresent "dcm2niix";
       Engine.CheckCustomDependencies;
       Engine.BuildInputNode; Engine.BuildCoreNodes; Engine.BuildOutputNode]),
     inl tt).
Proof. reflexivity. Qed.

Example misspelt_build :
  Engine.build Engine.sample_world (Engine.sample_pipeline Engine.misspelt_info, [])
  = ((Engine.sample_pipeline Engine.misspelt_info, [Engine.IsBinaryPresent "dcm2niix"]),
     inr (Engine.Exception "Unknown dependency type: 'sofware'.")).
Proof. reflexivity. Qed.

Example sample_pipeline_run :
  snd (fst (Engine.run Engine.sample_world None None false
              (Engine.sample_pipeline Engine.binaries_info, [])))
  = [Engine.IsBinaryPresent "dcm2niix"; Engine.CheckCustomDependencies;
     Engine.BuildInputNode; Engine.BuildCoreNodes; Engine.BuildOutputNode;
     Engine.CheckSize; Engine.WorkflowRun].
Proof. reflexivity. Qed.

Lemma build_idempotent_witness :
  Engine.build Engine.sample_world
    (fst (Engine.build Engine.sample_world (Engine.sample_pipeline (Engine.mkInfo None []), [])))
  = (fst (Engine.build Engine.sample_world (Engine.sample_pipeline (Engine.mkInfo None []), [])),
     inl tt).
Proof.
  apply (build_idempotent string unit unit Engine.sample_world
           (Engine.sample_pipeline (Engine.mkInfo None []), []) _ tt).
  reflexivity.
Defined.

Lemma listed_dependencies_checked_witness :
  exists loading i deps,
    (loading = [Engine.LoadJson "/clinica/pipelines/t1/info.json"] /\
     inl Engine.sample_info = @inl Engine.info Engine.exception i) /\
    Engine.dependencies i = Some deps /\
    forallb Engine.known_type deps = true /\
    [Engine.LoadJson "/clinica/pipelines/t1/info.json";
     Engine.CheckSoftware "ants"; Engine.IsBinaryPresent "dcm2niix";
     Engine.CheckCustomDependencies]
    = ([] ++ loading ++ Engine.checks deps ++ [Engine.CheckCustomDependencies])%list.
Proof.
  apply (listed_dependencies_checked string unit unit Engine.sample_world
           (Engine.sample_pipeline (Engine.mkInfo None []), [])
           (Engine.sample_pipeline Engine.sample_info,
            [Engine.LoadJson "/clinica/pipelines/t1/info.json";
             Engine.CheckSoftware "ants"; Engine.IsBinaryPresent "dcm2niix";
             Engine.CheckCustomDependencies]) tt).
  reflexivity.
Defined.



Lemma subjects_are_participants_witness :
  exists before path ss_df,
    [Engine.IsDir "/caps"; Engine.ReadCsv "/study/participants.tsv" Engine.tab]
    = (before ++ [Engine.ReadCsv path Engine.tab])%list /\
    Engine.read_csv Engine.sample_world before path Engine.tab = inl ss_df /\
    Engine.column "participant_id" ss_df = Some ["sub-CLNC01"; "sub-CLNC02"] /\
    Engine.column "session_id" ss_df = Some ["ses-M00"; "ses-M18"] /\
    (forall given, Some "/study/participants.tsv" = Some given -> given <> "" ->
                   path = given).
Proof.
  apply (subjects_are_participants string unit unit Engine.sample_world
           "T1Linear" "/clinica/pipelines/t1" tt
           None (Some "/caps") (Some "/study/participants.tsv") (Some "linear") []
           [Engine.IsDir "/caps"; Engine.ReadCsv "/study/participants.tsv" Engine.tab]
           (Engine.mkPipeline false None (Some "/caps") "debug"
              (Some "/study/participants.tsv") "/clinica/pipelines/t1/info.json"
              (Engine.mkInfo None []) "linear" []
              ["ses-M00"; "ses-M18"] ["sub-CLNC01"; "sub-CLNC02"] tt)).
  reflexivity.
Defined.
